(** * Photolibrary: the client-side download pipeline

    A shallow embedding of [src/utils/downloadUtils.js] (the second module
    of [src/src/utils/downloadTest.js]): the filename resolver
    [ensureFileExtension], the trigger primitives [triggerDownload],
    [forceDownload] and [tryDataUrlDownload], the six transfer strategies,
    the orchestrator [downloadFile] and the batch runner
    [downloadMultipleFiles].

    - JavaScript strings are [string]s, one [ascii] per code unit.
    - A promise is a computation in a state monad over a small model of
      the browser (document body, object URLs, console, activated links,
      opened windows, pending tasks); it ends [Resolved], [Rejected] or
      [Pending], the last for a promise that nothing settles. A timer or
      an event that settles a promise is run in line, in the order of
      the source; work that outlives the promise is left in [timers].
    - Everything the browser decides is read from an oracle of type
      [browser]: network replies, image loading and canvas export, the
      reader, the URL parser, the order in which the items of a batch
      finish, and whether a call on a link that the source guards with
      its own [try] ([click], [dispatchEvent], [focus],
      [Object.defineProperty]) throws. The other DOM calls follow the DOM
      standard: [removeChild] throws for a node that is no child, the
      rest return.
    - A request may stay without an answer: [fetch], the reading of a
      response body, an XHR without a timeout and the loading of an
      image each have a case for it.
    - The console keeps every line the pipeline writes, in order.
    - The options carry [timeout], [concurrency] and the two callbacks
      of the batch runner. A callback returns or throws, as a function
      of the instant of the call and of its argument; it does not touch
      what the pipeline reads. The progress events of an XHR, whose
      handler runs outside every promise, are left out.
    - An array of files may have holes; its other elements are objects
      with a [url] and a [filename], empty when missing.
    - The items of one batch are started in the order of the array and
      then run one after the other, in the order in which the browser
      finishes them. *)

From Stdlib Require Import String Ascii List Arith Bool Lia PeanoNat Permutation.
From Stdlib Require Import DecimalString NArith.
Import ListNotations.
Local Open Scope string_scope.
Local Open Scope list_scope.
Local Open Scope nat_scope.

(** String concatenation, the [+] and template literals of the source. *)
Infix "+++" := String.append (right associativity, at level 60).

(** ** JavaScript string primitives *)

Module JsString.

(** [s.startsWith(p)]. *)
Fixpoint startsWith (p s : string) : bool :=
  match p, s with
  | EmptyString, _ => true
  | String a p', String b s' => Ascii.eqb a b && startsWith p' s'
  | String _ _, EmptyString => false
  end.

(** [s.includes(sub)]. *)
Fixpoint includes (sub s : string) : bool :=
  startsWith sub s ||
  match s with
  | EmptyString => false
  | String _ s' => includes sub s'
  end.

(** [s.split(sep)] for a one-character separator; never the empty list. *)
Fixpoint split (sep : ascii) (s : string) : list string :=
  match s with
  | EmptyString => [EmptyString]
  | String c r =>
      if Ascii.eqb c sep then EmptyString :: split sep r
      else match split sep r with
           | h :: t => String c h :: t
           | [] => [String c EmptyString]
           end
  end.

(** [arr.pop()] as a value: the last element. *)
Definition pop (l : list string) : string := last l EmptyString.

(** [c.toLowerCase()] on one code unit below 256: A-Z, and the Latin-1
    capitals U+00C0-U+00DE without the multiplication sign U+00D7. *)
Definition lower_char (c : ascii) : ascii :=
  let n := nat_of_ascii c in
  if ((65 <=? n) && (n <=? 90)) ||
     ((192 <=? n) && (n <=? 222) && negb (n =? 215))
  then ascii_of_nat (n + 32) else c.

(** [s.toLowerCase()]. *)
Fixpoint toLowerCase (s : string) : string :=
  match s with
  | EmptyString => EmptyString
  | String c r => String (lower_char c) (toLowerCase r)
  end.

(** JavaScript truthiness of a string: non-empty. *)
Definition truthy (s : string) : bool :=
  match s with EmptyString => false | String _ _ => true end.

(** A number inside a template literal: its decimal digits. *)
Definition show (n : nat) : string :=
  NilEmpty.string_of_uint (Nat.to_uint n).

End JsString.
Import JsString.

(** ** The filename resolver *)

(** The object literal [typeMap] of [ensureFileExtension], read with
    [typeMap[key]]: the nine own keys, and the two all-lower-case names
    that the lookup reaches on [Object.prototype], whose values are
    truthy and print as shown in a template literal. *)
Definition typeMap (key : string) : option string :=
  if String.eqb key "image/jpeg" then Some "jpg"
  else if String.eqb key "image/jpg" then Some "jpg"
  else if String.eqb key "image/png" then Some "png"
  else if String.eqb key "image/webp" then Some "webp"
  else if String.eqb key "image/gif" then Some "gif"
  else if String.eqb key "video/mp4" then Some "mp4"
  else if String.eqb key "video/webm" then Some "webm"
  else if String.eqb key "video/avi" then Some "avi"
  else if String.eqb key "video/mov" then Some "mov"
  else if String.eqb key "constructor"
       then Some "function Object() { [native code] }"
  else if String.eqb key "__proto__" then Some "[object Object]"
  else None.

Section Resolver.

(** [new URL(url).pathname]; [None] when the constructor throws. *)
Variable url_pathname : string -> option string.

(** [ensureFileExtension(filename, url, contentType = '')]: the value it
    returns. *)
Definition ensureFileExtension (filename url contentType : string) : string :=
  if negb (truthy filename) then "download.jpg"
  else if includes "." filename
          && (String.length (pop (split "." filename)) <=? 4)
  then filename
  else
    match (if truthy contentType
           then typeMap (toLowerCase contentType) else None) with
    | Some extension => filename +++ "." +++ extension
    | None =>
        match (match url_pathname url with
               | Some urlPath =>
                   let urlExtension := pop (split "." urlPath) in
                   if truthy urlExtension
                      && (String.length urlExtension <=? 4)
                      && negb (includes "/" urlExtension)
                   then Some urlExtension else None
               | None => None
               end) with
        | Some urlExtension => filename +++ "." +++ urlExtension
        | None =>
            if includes "video" url || includes ".mp4" url
               || includes ".webm" url
            then filename +++ ".mp4"
            else filename +++ ".jpg"
        end
    end.

(** Whether that call writes its warning to the console: it has come to
    the URL, and [new URL(url)] has thrown. *)
Definition ensureFileExtension_warns (filename url contentType : string)
  : bool :=
  truthy filename
  && negb (includes "." filename
           && (String.length (pop (split "." filename)) <=? 4))
  && match (if truthy contentType
            then typeMap (toLowerCase contentType) else None) with
     | Some _ => false
     | None =>
         match url_pathname url with
         | Some _ => false
         | None => true
         end
     end.

End Resolver.

(** The part of a name after its last dot: [name.split('.').pop()]. *)
Definition extension_of (name : string) : string := pop (split "." name).

(** A name carries an extension of one to four characters. *)
Definition has_extension (name : string) : bool :=
  includes "." name
  && (1 <=? String.length (extension_of name))
  && (String.length (extension_of name) <=? 4).

(** ** Values of the pipeline *)

(** A JavaScript exception: [error.name] and [error.message]. *)
Record error := { err_name : string; err_message : string }.

(** [new Error(message)]. *)
Definition Error (message : string) : error :=
  {| err_name := "Error"; err_message := message |}.

(** [new TypeError(message)], what [new URL] throws on a bad address. *)
Definition TypeError (message : string) : error :=
  {| err_name := "TypeError"; err_message := message |}.

(** A [Blob]: its bytes and its MIME type. *)
Record blob := { blob_data : string; blob_type : string }.

(** What an [href] or [src] attribute points to. *)
Inductive reference :=
| NoReference
| ObjectURL (id : nat)
| DataURL (b : blob)
| Address (url : string).

Inductive tag := ANCHOR | IFRAME | CANVAS.

(** An element created by [document.createElement], with the attributes
    the pipeline sets; [node] is its identity. *)
Record element := {
  node : nat;
  tagName : tag;
  href : reference;
  download : string;
  target : string
}.

(** The [method] field of a result. *)
Inductive method :=
| direct_fetch | fetch | xhr | canvas | iframe | newtab | none.


(** The object [downloadFile] resolves to: [{success, method, error?}]. *)
Record TransferOutcome := {
  success : bool;
  outcome_method : method;
  outcome_error : option string
}.

(** The lines of the console. Those that tell the run of a call: the
    opening line of [downloadFile], the first line of each strategy, its
    closing [completed] line, and the warning [downloadFile] prints when
    a strategy rejected. [LogNote] is any other line, by its text
    without the pictograph that opens it and without the values printed
    after it. *)
Inductive log_entry :=
| LogStart (filename : string) (isImage isFirebaseStorage : bool)
| LogTrying (m : method) (filename : string)
| LogCompleted (m : method) (filename : string)
| LogFailed (m : method) (message : string)
| LogAllFailed
| LogNote (text : string).

(** Work left on the event loop when a promise has settled. *)
Inductive task :=
| ReaderLoad (b : blob) (filename : string)
    (* the [reader.onload] of [downloadViaDirectFetch] and its timers *)
| Instructions (url : string).
    (* the [confirm] dialog of [downloadViaNewTab], one second later *)

(** A per-item download of a batch was started, or has settled. *)
Inductive flight_event := Launch (index : nat) | Settle (index : nat).

(** ** The browser *)

(** The state the pipeline reads and writes. [fresh] numbers elements and
    object URLs, [tick] counts the questions put to the oracle. [flight]
    is a ghost record of the per-item downloads: the batch runner writes
    it, nothing reads it. *)
Record world := {
  body : list element;          (* children of [document.body] *)
  objectURLs : list nat;        (* created and not yet revoked *)
  fresh : nat;
  tick : nat;
  console : list log_entry;
  activations : list element;   (* [click] and [dispatchEvent] that returned *)
  windows : list string;        (* [window.open] *)
  timers : list task;
  flight : list flight_event
}.

Definition empty_world : world :=
  {| body := []; objectURLs := []; fresh := 0; tick := 0; console := [];
     activations := []; windows := []; timers := []; flight := [] |}.

Definition with_body (f : list element -> list element) (w : world) :=
  {| body := f (body w); objectURLs := objectURLs w; fresh := fresh w;
     tick := tick w; console := console w; activations := activations w;
     windows := windows w; timers := timers w; flight := flight w |}.

Definition with_objectURLs (f : list nat -> list nat) (w : world) :=
  {| body := body w; objectURLs := f (objectURLs w); fresh := fresh w;
     tick := tick w; console := console w; activations := activations w;
     windows := windows w; timers := timers w; flight := flight w |}.

Definition with_fresh (n : nat) (w : world) :=
  {| body := body w; objectURLs := objectURLs w; fresh := n;
     tick := tick w; console := console w; activations := activations w;
     windows := windows w; timers := timers w; flight := flight w |}.

Definition with_tick (n : nat) (w : world) :=
  {| body := body w; objectURLs := objectURLs w; fresh := fresh w;
     tick := n; console := console w; activations := activations w;
     windows := windows w; timers := timers w; flight := flight w |}.

Definition with_console (f : list log_entry -> list log_entry) (w : world) :=
  {| body := body w; objectURLs := objectURLs w; fresh := fresh w;
     tick := tick w; console := f (console w); activations := activations w;
     windows := windows w; timers := timers w; flight := flight w |}.

Definition with_activations (f : list element -> list element) (w : world) :=
  {| body := body w; objectURLs := objectURLs w; fresh := fresh w;
     tick := tick w; console := console w; activations := f (activations w);
     windows := windows w; timers := timers w; flight := flight w |}.

Definition with_windows (f : list string -> list string) (w : world) :=
  {| body := body w; objectURLs := objectURLs w; fresh := fresh w;
     tick := tick w; console := console w; activations := activations w;
     windows := f (windows w); timers := timers w; flight := flight w |}.

Definition with_timers (f : list task -> list task) (w : world) :=
  {| body := body w; objectURLs := objectURLs w; fresh := fresh w;
     tick := tick w; console := console w; activations := activations w;
     windows := windows w; timers := f (timers w); flight := flight w |}.

Definition with_flight (f : list flight_event -> list flight_event) (w : world) :=
  {| body := body w; objectURLs := objectURLs w; fresh := fresh w;
     tick := tick w; console := console w; activations := activations w;
     windows := windows w; timers := timers w; flight := f (flight w) |}.

(** A parsed [URL] object: the address up to its query, the path, the
    query pairs and the fragment. *)
Record URL := {
  url_base : string;
  pathname : string;
  searchParams : list (string * string);
  url_hash : string
}.

(** [url.searchParams.set(name, value)]: the first pair of that name takes
    the value and the others go; without one the pair is appended. *)
Fixpoint searchParams_set (name value : string) (l : list (string * string))
  : list (string * string) :=
  match l with
  | [] => [(name, value)]
  | (k, v) :: r =>
      if String.eqb k name
      then (name, value) :: filter (fun p => negb (String.eqb (fst p) name)) r
      else (k, v) :: searchParams_set name value r
  end.

Definition URL_set (name value : string) (u : URL) : URL :=
  {| url_base := url_base u; pathname := pathname u;
     searchParams := searchParams_set name value (searchParams u);
     url_hash := url_hash u |}.

(** The calls on a link that the source guards one by one. *)
Inductive dom_op := Click | DispatchEvent | Focus | DefineProperty.

(** What [response.blob()] comes to: the body, an exception, or
    nothing, when the body never arrives to its end. *)
Inductive body_reply :=
| BodyBlob (b : blob)
| BodyFails (e : error)
| BodyNever.

(** A [Response]: [ok] is derived from the status as the Fetch standard
    does; [contentType] is [headers.get('content-type')]; [payload] is
    what [response.blob()] settles to. *)
Record response := {
  status : nat;
  statusText : string;
  contentType : option string;
  payload : body_reply
}.

Definition ok (r : response) : bool := (200 <=? status r) && (status r <=? 299).

Inductive fetch_reply :=
| FetchRejects (e : error)      (* network or CORS failure, or an abort *)
| FetchResponds (r : response)
| FetchNever.                   (* the request stays without an answer *)

Inductive xhr_event :=
| XhrLoad (status : nat) (contentType : option string) (response : blob)
| XhrError
| XhrTimeout
| XhrNever.                     (* no event of the request comes *)

(** What [canvas.getContext], [drawImage] and [toBlob] come to once the
    image is loaded: an exception inside the [try], or the callback of
    [toBlob] with [null] or with a blob. *)
Inductive canvas_export :=
| ExportThrows (e : error)
| ExportNull
| ExportBlob (b : blob).

Inductive image_event :=
| ImageError
| ImageLoad (naturalWidth naturalHeight : nat) (export : canvas_export)
| ImageNever.                   (* neither [onload] nor [onerror] fires *)

(** Everything the environment decides. The first argument of a question
    is the [tick] at which it is put, so that the same call may be
    answered differently each time. *)
Record browser := {
  dom_throws : nat -> dom_op -> option error;
  fetch_answer : nat -> string -> fetch_reply;
  xhr_answer : nat -> string -> xhr_event;
  image_answer : nat -> string -> image_event;
  reader_fails : nat -> bool;           (* [FileReader] fires [onerror] *)
  parseURL : string -> option URL;      (* [new URL(s)]; [None]: it throws *)
  printURL : URL -> string;             (* [url.toString()] *)
  encodeURIComponent : string -> string;
  finish_time : nat -> nat              (* when item [i] of a batch is done *)
}.

(** ** Promises and exceptions *)

(** How a computation ends: a value (a returned value, a resolved
    promise), an exception (a throw, a rejected promise), or never (a
    promise that nothing settles). *)
Inductive completion (A : Type) :=
| Resolved (a : A)
| Rejected (e : error)
| Pending.
Arguments Resolved {A} a.
Arguments Rejected {A} e.
Arguments Pending {A}.

Definition js (A : Type) : Type := world -> world * completion A.

Definition ret {A} (a : A) : js A := fun w => (w, Resolved a).

Definition bind {A B} (m : js A) (k : A -> js B) : js B :=
  fun w =>
    match m w with
    | (w', Resolved a) => k a w'
    | (w', Rejected e) => (w', Rejected e)
    | (w', Pending) => (w', Pending)
    end.

Definition throw {A} (e : error) : js A := fun w => (w, Rejected e).

(** [try { m } catch (e) { handler e }]. *)
Definition try_catch {A} (m : js A) (handler : error -> js A) : js A :=
  fun w =>
    match m w with
    | (w', Rejected e) => handler e w'
    | r => r
    end.

(** [try { m } catch (e) { ... }] with the two exits told apart. *)
Definition attempt {A} (m : js A) : js (error + A) :=
  fun w =>
    match m w with
    | (w', Resolved a) => (w', Resolved (inr a))
    | (w', Rejected e) => (w', Resolved (inl e))
    | (w', Pending) => (w', Pending)
    end.

(** The body of an event or timer callback inside [new Promise]: an
    exception that leaves it calls neither [resolve] nor [reject]. *)
Definition callback {A} (m : js A) : js A :=
  fun w =>
    match m w with
    | (w', Rejected _) => (w', Pending)
    | r => r
    end.

Declare Scope js_scope.
Delimit Scope js_scope with js.
Notation "x <- m ;; k" := (bind m (fun x => k))
  (at level 100, m at next level, right associativity) : js_scope.
Notation "m ;; k" := (bind m (fun _ => k))
  (at level 100, right associativity) : js_scope.
Local Open Scope js_scope.


(** ** DOM primitives *)

Definition is_node (n : nat) (e : element) : bool := node e =? n.

Definition createObjectURL (b : blob) : js nat :=
  fun w =>
    let id := fresh w in
    (with_objectURLs (fun l => l ++ [id]) (with_fresh (S id) w), Resolved id).

Definition revokeObjectURL (id : nat) : js unit :=
  fun w =>
    (with_objectURLs (filter (fun u => negb (u =? id))) w, Resolved tt).

Definition createElement (t : tag) : js element :=
  fun w =>
    let e := {| node := fresh w; tagName := t; href := NoReference;
                download := ""; target := "" |} in
    (with_fresh (S (fresh w)) w, Resolved e).

(** [document.body.appendChild(e)]: the node becomes the last child. *)
Definition appendChild (e : element) : js unit :=
  fun w =>
    (with_body (fun l => filter (fun x => negb (is_node (node e) x)) l ++ [e]) w,
     Resolved tt).

(** [e.parentNode], as a truth value. *)
Definition parentNode (e : element) : js bool :=
  fun w => (w, Resolved (existsb (is_node (node e)) (body w))).

(** [document.body.removeChild(e)]: a [NotFoundError] when [e] is not a
    child of the body. *)
Definition removeChild (e : element) : js unit :=
  fun w =>
    if existsb (is_node (node e)) (body w)
    then (with_body (filter (fun x => negb (is_node (node e) x))) w, Resolved tt)
    else (w, Rejected {| err_name := "NotFoundError";
                         err_message := "The node to be removed is not a child of this node." |}).

Definition console_log (l : log_entry) : js unit :=
  fun w => (with_console (fun c => c ++ [l]) w, Resolved tt).

(** One way of activation of the trigger primitives:
    [try { m; ok = true; console.log(worked) }
     catch (e) { console.warn(failed) }]. *)
Definition approach (m : js unit) (worked failed : string) : js bool :=
  try_catch (m ;; console_log (LogNote worked) ;; ret true)
            (fun _ => console_log (LogNote failed) ;; ret false).

Definition setTimeout (t : task) : js unit :=
  fun w => (with_timers (fun q => q ++ [t]) w, Resolved tt).

(** [window.open(url, '_blank')]; it returns. *)
Definition window_open (url : string) : js unit :=
  fun w => (with_windows (fun l => l ++ [url]) w, Resolved tt).

Definition set_href (r : reference) (e : element) : element :=
  {| node := node e; tagName := tagName e; href := r;
     download := download e; target := target e |}.

Definition set_download (f : string) (e : element) : element :=
  {| node := node e; tagName := tagName e; href := href e;
     download := f; target := target e |}.

Definition set_target (t : string) (e : element) : element :=
  {| node := node e; tagName := tagName e; href := href e;
     download := download e; target := t |}.

Section Pipeline.

Variable io : browser.

(** The next question to the oracle. *)
Definition ask : js nat :=
  fun w => (with_tick (S (tick w)) w, Resolved (tick w)).

(** One guarded call on a link: it throws when the browser says so;
    a [click] or [dispatchEvent] that returns has activated the link. *)
Definition activate (op : dom_op) (e : element) : js unit :=
  n <- ask ;;
  match dom_throws io n op with
  | Some err => throw err
  | None =>
      match op with
      | Click | DispatchEvent =>
          fun w => (with_activations (fun l => l ++ [e]) w, Resolved tt)
      | Focus | DefineProperty => ret tt
      end
  end.

Definition url_pathname (url : string) : option string :=
  option_map pathname (parseURL io url).

(** *** The trigger primitives *)

Definition new_link (r : reference) (filename : string) : js element :=
  link <- createElement ANCHOR ;;
  ret (set_download filename (set_href r link)).

(** [tryDataUrlDownload(blob, filename)]. The reader fires [onerror] or
    [onload]; [onload] attaches a link to the data URL, the first timer
    clicks it, and the second one removes it and resolves; when the
    click throws, the [catch] removes the link and rejects. *)
Definition tryDataUrlDownload (b : blob) (filename : string) : js unit :=
  n <- ask ;;
  if reader_fails io n then throw (Error "Failed to read blob as data URL")
  else
    link <- callback (
      link <- new_link (DataURL b) filename ;;
      appendChild link ;;
      ret link) ;;
    clicked <- attempt (activate Click link) ;;
    match clicked with
    | inr _ => callback (removeChild link)
    | inl _ =>
        callback (removeChild link) ;;
        throw (Error "Data URL download failed")
    end.

(** [forceDownload(blob, filename)]: the synchronous part creates the
    object URL and the link and tries four ways to activate it; the
    timer removes the link, revokes the URL and settles the promise,
    through [tryDataUrlDownload] when no activation returned. *)
Definition forceDownload (b : blob) (filename : string) : js unit :=
  started <- attempt (
    blobUrl <- createObjectURL b ;;
    link <- new_link (ObjectURL blobUrl) filename ;;
    appendChild link ;;
    s1 <- approach (activate Click link)
            "Standard click worked" "Standard click failed" ;;
    s2 <- (if s1 then ret true
           else approach (activate DispatchEvent link)
                  "Mouse event worked" "Mouse event failed") ;;
    s3 <- (if s2 then ret true
           else approach (activate Focus link ;; activate Click link)
                  "Focus and click worked" "Focus and click failed") ;;
    s4 <- (if s3 then ret true
           else approach (activate DefineProperty link ;;
                          activate DispatchEvent link)
                  "User interaction simulation worked"
                  "User interaction simulation failed") ;;
    ret (blobUrl, link, s4)) ;;
  match started with
  | inl error =>
      throw (Error ("Force download failed: " +++ err_message error))
  | inr (blobUrl, link, success) =>
      cleaned <- attempt (
        attached <- parentNode link ;;
        (if attached then removeChild link else ret tt) ;;
        revokeObjectURL blobUrl) ;;
      match cleaned with
      | inl cleanupError => console_log (LogNote "Cleanup warning:")
      | inr _ =>
          if success then ret tt else tryDataUrlDownload b filename
      end
  end.

(** [triggerDownload(blob, filename)]: as [forceDownload] with three
    ways of activation and a rejection when none returned. *)
Definition triggerDownload (b : blob) (filename : string) : js unit :=
  started <- attempt (
    blobUrl <- createObjectURL b ;;
    link <- new_link (ObjectURL blobUrl) filename ;;
    appendChild link ;;
    t1 <- approach (activate Click link)
            "Standard click method used" "Standard click failed:" ;;
    t2 <- (if t1 then ret true
           else approach (activate DispatchEvent link)
                  "Programmatic click method used"
                  "Programmatic click failed:") ;;
    t3 <- (if t2 then ret true
           else approach (activate Focus link ;; activate Click link)
                  "Focus and click method used"
                  "Focus and click failed:") ;;
    ret (blobUrl, link, t3)) ;;
  match started with
  | inl error =>
      throw (Error ("Failed to trigger download: " +++ err_message error))
  | inr (blobUrl, link, downloadTriggered) =>
      cleaned <- attempt (
        attached <- parentNode link ;;
        (if attached then removeChild link else ret tt) ;;
        revokeObjectURL blobUrl) ;;
      match cleaned with
      | inl cleanupError => console_log (LogNote "Cleanup warning:")
      | inr _ =>
          if downloadTriggered then ret tt
          else throw (Error "Failed to trigger download - all click methods failed")
      end
  end.

(** *** The options *)

(** An element of the [files] array: [{url, filename}]. *)
Record file_item := { file_url : string; file_filename : string }.

(** The argument of [onProgress] in the batch runner:
    [{current, total, filename, status}]. *)
Record progress_report := {
  report_current : nat;
  report_total : nat;
  report_filename : string;
  report_status : string
}.

(** The argument of [onFileComplete]: [{file, result, index, successful,
    failed}], where [result] is the result of [downloadFile] or, from
    the [catch] block, [{success: false, error}] with its message. *)
Record completion_report := {
  done_file : file_item;
  done_result : TransferOutcome + string;
  done_index : nat;
  done_successful : nat;
  done_failed : nat
}.

(** The options: [timeout], [concurrency] for the batch runner, and its
    two callbacks. A callback is [None] for [null]; otherwise it says,
    for the instant of the call and the argument, whether the call
    returns or throws. [headers] is not sent to the oracle. *)
Record options := {
  timeout : N;
  concurrency : nat;
  onProgress : option (nat -> progress_report -> option error);
  onFileComplete : option (nat -> completion_report -> option error)
}.

Definition default_options : options :=
  {| timeout := 30000%N; concurrency := 1;
     onProgress := None; onFileComplete := None |}.

(** [if (f) f(argument)]. *)
Definition call {A} (f : option (nat -> A -> option error)) (argument : A)
  : js unit :=
  match f with
  | None => ret tt
  | Some f =>
      n <- ask ;;
      match f n argument with
      | Some e => throw e
      | None => ret tt
      end
  end.

(** *** The transfer strategies *)

(** A call of [ensureFileExtension]: its warning, if any, and its
    value. *)
Definition resolve_name (filename url contentType : string) : js string :=
  (if ensureFileExtension_warns url_pathname filename url contentType
   then console_log (LogNote "Could not parse URL for extension:")
   else ret tt) ;;
  ret (ensureFileExtension url_pathname filename url contentType).

(** A promise that nothing settles. *)
Definition never {A} : js A := fun w => (w, Pending).

(** What [fetch] rejects with when its signal is aborted. *)
Definition AbortError : error :=
  {| err_name := "AbortError"; err_message := "The operation was aborted." |}.

Definition octet_stream (b : blob) : blob :=
  {| blob_data := blob_data b; blob_type := "application/octet-stream" |}.

(** [value || ''] on a header that may be absent. *)
Definition or_empty (h : option string) : string :=
  match h with Some v => v | None => "" end.

(** [downloadViaFetch(url, filename, options)]. A request that stays
    without an answer is aborted by the timer; the timer is cleared
    before the body is read. *)
Definition downloadViaFetch (url filename : string) (opts : options)
  : js unit :=
  try_catch (
    console_log (LogTrying fetch filename) ;;
    n <- ask ;;
    match fetch_answer io n url with
    | FetchRejects e => throw e
    | FetchNever => throw AbortError
    | FetchResponds r =>
        if negb (ok r)
        then throw (Error ("HTTP error! status: " +++ show (status r)
                           +++ " - " +++ statusText r))
        else
          finalFilename <- resolve_name filename url
                             (or_empty (contentType r)) ;;
          match payload r with
          | BodyFails e => throw e
          | BodyNever => never
          | BodyBlob b =>
              forceDownload (octet_stream b) finalFilename ;;
              console_log (LogCompleted fetch finalFilename)
          end
    end)
    (fun error =>
       if String.eqb (err_name error) "AbortError"
       then throw (Error "Download timeout - file too large or connection too slow")
       else throw (Error ("Fetch download failed: " +++ err_message error))).

(** [downloadViaXHR(url, filename, options)]. With [xhr.timeout] set,
    a request of which no event comes ends in [ontimeout]; a timeout of
    0 is none. *)
Definition downloadViaXHR (url filename : string) (opts : options)
  : js unit :=
  console_log (LogTrying xhr filename) ;;
  fetchUrl <-
    (if includes "firebasestorage.googleapis.com" url
     then match parseURL io url with
          | None => throw (TypeError "Invalid URL")
          | Some urlObj =>
              ret (printURL io
                     (URL_set "response-content-disposition"
                        ("attachment; filename=" +++ String "034" ""
                         +++ encodeURIComponent io filename
                         +++ String "034" "")
                        urlObj))
          end
     else ret url) ;;
  n <- ask ;;
  match xhr_answer io n fetchUrl with
  | XhrLoad st ct resp =>
      if st =? 200
      then
        try_catch (
          finalFilename <- resolve_name filename url (or_empty ct) ;;
          forceDownload (octet_stream resp) finalFilename ;;
          console_log (LogCompleted xhr finalFilename))
          (fun error =>
             throw (Error ("XHR download trigger failed: "
                           +++ err_message error)))
      else throw (Error ("XHR failed with status: " +++ show st))
  | XhrError => throw (Error "XHR network error")
  | XhrTimeout => throw (Error "XHR timeout")
  | XhrNever =>
      if (timeout opts =? 0)%N then never else throw (Error "XHR timeout")
  end.

(** [downloadViaCanvas(url, filename)]. The callback of [toBlob] is an
    [async] function without a [catch]: when [forceDownload] rejects in
    it, neither [resolve] nor [reject] is called. *)
Definition downloadViaCanvas (url filename : string) : js unit :=
  console_log (LogTrying canvas filename) ;;
  n <- ask ;;
  match image_answer io n url with
  | ImageNever => never
  | ImageError => throw (Error "Failed to load image for canvas download")
  | ImageLoad naturalWidth naturalHeight export =>
      drawn <- attempt (
        _ <- createElement CANVAS ;;
        match export with
        | ExportThrows e => throw e
        | ExportNull => ret None
        | ExportBlob b => ret (Some b)
        end) ;;
      match drawn with
      | inl error =>
          throw (Error ("Canvas processing failed: " +++ err_message error))
      | inr None => throw (Error "Failed to create blob from canvas")
      | inr (Some b) =>
          callback (
            finalFilename <- resolve_name filename url "image/jpeg" ;;
            forceDownload b finalFilename ;;
            console_log (LogCompleted canvas finalFilename))
      end
  end.

(** [downloadViaNewTab(url, filename)]. *)
Definition downloadViaNewTab (url filename : string) : js unit :=
  console_log (LogTrying newtab filename) ;;
  try_catch (
    link <- new_link (Address url) filename ;;
    let link := set_target "_blank" link in
    appendChild link ;;
    activate Click link ;;
    removeChild link ;;
    setTimeout (Instructions url))
    (fun error =>
       console_log (LogNote "New tab fallback failed:") ;;
       window_open url) ;;
  ret tt.

(** [downloadViaDirectFetch(url, filename)]: it returns as soon as the
    reader has been started; the link is the business of [ReaderLoad].
    Nothing ends a request or a body that stays without an answer. *)
Definition downloadViaDirectFetch (url filename : string) : js unit :=
  try_catch (
    console_log (LogTrying direct_fetch filename) ;;
    n <- ask ;;
    match fetch_answer io n url with
    | FetchRejects e => throw e
    | FetchNever => never
    | FetchResponds r =>
        if negb (ok r)
        then throw (Error ("HTTP error! status: " +++ show (status r)))
        else
          match payload r with
          | BodyFails e => throw e
          | BodyNever => never
          | BodyBlob b =>
              setTimeout (ReaderLoad b filename) ;;
              console_log (LogCompleted direct_fetch filename)
          end
    end)
    (fun error =>
       throw (Error ("Direct fetch download failed: " +++ err_message error))).

(** [downloadViaIframe(url, filename)]. *)
Definition downloadViaIframe (url filename : string) : js unit :=
  started <- attempt (
    console_log (LogTrying iframe filename) ;;
    frame <- createElement IFRAME ;;
    match parseURL io url with
    | None => throw (TypeError "Invalid URL")
    | Some downloadUrl =>
        let downloadUrl := URL_set "download" filename downloadUrl in
        let downloadUrl :=
          URL_set "response-content-disposition"
            ("attachment; filename=" +++ String "034" "" +++ filename
             +++ String "034" "") downloadUrl in
        let frame := set_href (Address (printURL io downloadUrl)) frame in
        appendChild frame ;;
        ret frame
    end) ;;
  match started with
  | inl error =>
      throw (Error ("Iframe download failed: " +++ err_message error))
  | inr frame =>
      try_catch (
        attached <- parentNode frame ;;
        (if attached then removeChild frame else ret tt) ;;
        console_log (LogCompleted iframe filename))
        (fun cleanupError => console_log (LogNote "Iframe cleanup warning:"))
  end.

(** *** Deferred work *)

(** One task of the event loop. [ReaderLoad]: the reader of
    [downloadViaDirectFetch] loads (it has no [onerror]), its [onload]
    attaches the link, the first timer clicks it and sets the second
    one, which removes it. An exception ends the task. *)
Definition run_task (t : task) : js unit :=
  match t with
  | ReaderLoad b filename =>
      n <- ask ;;
      if reader_fails io n then ret tt
      else
        link <- new_link (DataURL b) filename ;;
        appendChild link ;;
        activate Click link ;;
        removeChild link
  | Instructions url => ret tt
  end.

(** The event loop runs every task that is left. *)
Definition run_timers (w : world) : world :=
  fold_left (fun w t => fst (run_task t w)) (timers w)
            (with_timers (fun _ => []) w).

(** *** The orchestrator *)

(** [s.slice(n)]. *)
Fixpoint string_drop (n : nat) (s : string) : string :=
  match n, s with
  | S n', String _ r => string_drop n' r
  | _, _ => s
  end.

(** The regular expression [/\.(jpg|jpeg|png|webp|gif)(\?|$)/i] matched
    at the start of [s]. *)
Definition image_extension_here (s : string) : bool :=
  match s with
  | String c r =>
      Ascii.eqb c "." &&
      existsb (fun ext =>
                 startsWith ext (toLowerCase r) &&
                 match string_drop (String.length ext) r with
                 | EmptyString => true
                 | String q _ => Ascii.eqb q "?"
                 end)
              ["jpg"; "jpeg"; "png"; "webp"; "gif"]
  | EmptyString => false
  end.

(** [regex.test(url)]: a match at some position. *)
Fixpoint image_extension (s : string) : bool :=
  image_extension_here s ||
  match s with
  | EmptyString => false
  | String _ r => image_extension r
  end.

Definition isImage (url : string) : bool :=
  includes "image" url || image_extension url.

Definition succeeded (m : method) : TransferOutcome :=
  {| success := true; outcome_method := m; outcome_error := None |}.

(** [try { await strategy; return { success: true, method: m } }
     catch (e) { console.warn(...) }] followed by [next]. *)
Definition or_else (m : method) (strategy : js unit)
           (next : js TransferOutcome) : js TransferOutcome :=
  r <- attempt strategy ;;
  match r with
  | inr _ => ret (succeeded m)
  | inl error => console_log (LogFailed m (err_message error)) ;; next
  end.

(** [downloadFile(url, filename, options = {})]. *)
Definition downloadFile (url filename : string) (opts : options)
  : js TransferOutcome :=
  if negb (truthy url) || negb (truthy filename)
  then throw (Error "URL and filename are required")
  else
    let downloadOptions := opts in
    console_log (LogStart filename (isImage url)
                   (includes "firebasestorage.googleapis.com" url)) ;;
    or_else direct_fetch (downloadViaDirectFetch url filename) (
    or_else fetch (downloadViaFetch url filename downloadOptions) (
    or_else xhr (downloadViaXHR url filename downloadOptions) (
    (if isImage url
     then or_else canvas (downloadViaCanvas url filename)
     else fun next => next) (
    or_else iframe (downloadViaIframe url filename) (
    r <- attempt (downloadViaNewTab url filename) ;;
    match r with
    | inr _ => ret (succeeded newtab)
    | inl newTabError =>
        console_log LogAllFailed ;;
        ret {| success := false; outcome_method := none;
               outcome_error :=
                 Some "All download methods failed. Please try again or contact support." |}
    end))))).

(** *** The batch runner *)

(** The first argument of [downloadMultipleFiles]: an array, in which
    [None] is a hole, or any other value. *)
Inductive files_argument :=
| FilesArray (files : list (option file_item))
| NotAnArray.

(** An element of [results]: [{...file, ...result, index}]. *)
Record entry := {
  entry_url : string;
  entry_filename : string;
  entry_success : bool;
  entry_method : method;
  entry_error : option string;
  entry_index : nat
}.

(** The object [downloadMultipleFiles] resolves to. *)
Record batch_result := {
  successful : nat;
  failed : nat;
  total : nat;
  results : list entry
}.

(** The three variables the loop updates. *)
Record tally := {
  tally_successful : nat;
  tally_failed : nat;
  tally_results : list entry
}.

(** [arr.slice(i, j)] for [i <= j]. *)
Definition slice {A} (i j : nat) (l : list A) : list A :=
  firstn (j - i) (skipn i l).

(** The per-item function was called, and its promise has settled. *)
Definition launch (globalIndex : nat) : js unit :=
  fun w => (with_flight (fun l => l ++ [Launch globalIndex]) w, Resolved tt).

Definition settle (globalIndex : nat) : js unit :=
  fun w => (with_flight (fun l => l ++ [Settle globalIndex]) w, Resolved tt).

(** The [catch] block of the per-item function: the item is counted as
    failed, an entry is pushed and [onFileComplete] is told. The value
    is the tally and, when that call throws, the exception the promise
    of the item rejects with. *)
Definition item_failed (opts : options) (globalIndex : nat)
           (file : file_item) (caught : error) (t : tally)
  : js (tally * option error) :=
  let t' :=
    {| tally_successful := tally_successful t;
       tally_failed := S (tally_failed t);
       tally_results :=
         tally_results t ++
         [{| entry_url := file_url file;
             entry_filename := file_filename file;
             entry_success := false;
             entry_method := none;
             entry_error := Some (err_message caught);
             entry_index := globalIndex |}] |} in
  told <- attempt (
    call (onFileComplete opts)
         {| done_file := file;
            done_result := inr (err_message caught);
            done_index := globalIndex;
            done_successful := tally_successful t';
            done_failed := tally_failed t' |}) ;;
  match told with
  | inr _ => ret (t', None)
  | inl thrown => ret (t', Some thrown)
  end.

(** The per-item function from the call of [downloadFile] on: the
    result is counted and pushed and [onFileComplete] is told; an
    exception of [downloadFile] or of the callback leads to the [catch]
    block. The pause of 300 ms that follows changes nothing here. *)
Definition download_item (opts : options) (globalIndex : nat)
           (file : file_item) (t : tally) : js (tally * option error) :=
  r <- attempt (downloadFile (file_url file) (file_filename file) opts) ;;
  match r with
  | inr result =>
      let t' :=
        {| tally_successful :=
             if success result then S (tally_successful t)
             else tally_successful t;
           tally_failed :=
             if success result then tally_failed t
             else S (tally_failed t);
           tally_results :=
             tally_results t ++
             [{| entry_url := file_url file;
                 entry_filename := file_filename file;
                 entry_success := success result;
                 entry_method := outcome_method result;
                 entry_error := outcome_error result;
                 entry_index := globalIndex |}] |} in
      told <- attempt (
        call (onFileComplete opts)
             {| done_file := file;
                done_result := inl result;
                done_index := globalIndex;
                done_successful := tally_successful t';
                done_failed := tally_failed t' |}) ;;
      match told with
      | inr _ => ret (t', None)
      | inl error => item_failed opts globalIndex file error t'
      end
  | inl error => item_failed opts globalIndex file error t
  end.

(** What [Promise.all] over the promises of some items has come to: all
    resolved, one rejected (the first to do so), or neither. *)
Inductive gathered :=
| AllResolved
| OneRejected (e : error)
| StillWaiting.

(** [earlier] before [later] in time. *)
Definition and_then (earlier later : gathered) : gathered :=
  match earlier, later with
  | OneRejected e, _ => OneRejected e
  | _, OneRejected e => OneRejected e
  | StillWaiting, _ | _, StillWaiting => StillWaiting
  | AllResolved, AllResolved => AllResolved
  end.

Definition of_item (rejected : option error) : gathered :=
  match rejected with
  | Some e => OneRejected e
  | None => AllResolved
  end.

(** [batch.map(async (file, batchIndex) => ...)]: the per-item function
    is called for every element that is not a hole, in the order of the
    array, and runs up to its first [await]: [onProgress] is told, and
    an exception of that call leads to the [catch] block at once. The
    value is the tally, the items that wait for their download, and
    what the promises that have settled by now come to. *)
Fixpoint launch_items (opts : options) (total : nat)
         (items : list (nat * option file_item)) (t : tally) (w : world)
  : world * tally * list (nat * file_item) * gathered :=
  match items with
  | [] => (w, t, [], AllResolved)
  | (_, None) :: rest => launch_items opts total rest t w
  | (globalIndex, Some file) :: rest =>
      match (launch globalIndex ;;
             attempt (
               call (onProgress opts)
                    {| report_current := globalIndex + 1;
                       report_total := total;
                       report_filename := file_filename file;
                       report_status := "downloading" |})) w with
      | (w1, Resolved (inl error)) =>
          match (p <- item_failed opts globalIndex file error t ;;
                 settle globalIndex ;; ret p) w1 with
          | (w2, Resolved (t2, rejected)) =>
              let '(w3, t3, waiting, later) :=
                launch_items opts total rest t2 w2 in
              (w3, t3, waiting, and_then (of_item rejected) later)
          | (w2, _) => launch_items opts total rest t w2
          end
      | (w1, _) =>
          let '(w3, t3, waiting, later) :=
            launch_items opts total rest t w1 in
          (w3, t3, (globalIndex, file) :: waiting, later)
      end
  end.

(** Stable insertion by a key. *)
Fixpoint insert_by {A} (key : A -> nat) (x : A) (l : list A) : list A :=
  match l with
  | [] => [x]
  | y :: r => if key x <=? key y then x :: y :: r
              else y :: insert_by key x r
  end.

Definition sort_by {A} (key : A -> nat) (l : list A) : list A :=
  fold_right (insert_by key) [] l.

(** The items that wait run one after the other in the order in which
    the browser finishes them; an item that never settles leaves the
    others running. *)
Fixpoint run_items (opts : options) (items : list (nat * file_item))
         (t : tally) (w : world) : world * tally * gathered :=
  match items with
  | [] => (w, t, AllResolved)
  | (globalIndex, file) :: rest =>
      match download_item opts globalIndex file t w with
      | (w1, Resolved (t1, rejected)) =>
          let '(w2, t2, later) :=
            run_items opts rest t1 (fst (settle globalIndex w1)) in
          (w2, t2, and_then (of_item rejected) later)
      | (w1, Rejected e) =>
          let '(w2, t2, later) :=
            run_items opts rest t (fst (settle globalIndex w1)) in
          (w2, t2, and_then (OneRejected e) later)
      | (w1, Pending) =>
          let '(w2, t2, later) := run_items opts rest t w1 in
          (w2, t2, and_then StillWaiting later)
      end
  end.

(** One turn of the loop: [batch.map(...)], with
    [globalIndex = i + batchIndex], and [await Promise.all(batchPromises)]. *)
Definition run_batch (opts : options) (total i : nat)
           (batch : list (option file_item)) (t : tally) (w : world)
  : world * tally * gathered :=
  let '(w1, t1, waiting, launched) :=
    launch_items opts total (combine (seq i (length batch)) batch) t w in
  let '(w2, t2, finished) :=
    run_items opts (sort_by (fun p => finish_time io (fst p)) waiting) t1 w1 in
  (w2, t2, and_then launched finished).

(** [for (let i = 0; i < files.length; i += concurrency)]. With
    [concurrency] at least one, [length files] turns are enough; with
    [concurrency = 0] the loop of the source never ends, and neither
    does this one. A rejected batch ends the call, while the items that
    were started run on. *)
Fixpoint batches (opts : options) (files : list (option file_item))
         (turns i : nat) (t : tally) : js tally :=
  if i <? length files then
    match turns with
    | 0 => never
    | S turns' =>
        fun w =>
          let batch := slice i (i + concurrency opts) files in
          match run_batch opts (length files) i batch t w with
          | (w1, t1, AllResolved) =>
              batches opts files turns' (i + concurrency opts) t1 w1
          | (w1, _, OneRejected e) => (w1, Rejected e)
          | (w1, _, StillWaiting) => (w1, Pending)
          end
    end
  else ret t.

(** [downloadMultipleFiles(files, options = {})]. *)
Definition downloadMultipleFiles (arg : files_argument) (opts : options)
  : js batch_result :=
  match arg with
  | NotAnArray | FilesArray [] =>
      throw (Error "Files array is required and must not be empty")
  | FilesArray files =>
      t <- batches opts files (length files) 0
             {| tally_successful := 0; tally_failed := 0;
                tally_results := [] |} ;;
      ret {| successful := tally_successful t;
             failed := tally_failed t;
             total := length files;
             results := tally_results t |}
  end.

End Pipeline.

Arguments tryDataUrlDownload : simpl never.
Arguments forceDownload : simpl never.
Arguments triggerDownload : simpl never.
Arguments ensureFileExtension : simpl never.
Arguments ensureFileExtension_warns : simpl never.

(** ** Reading a run off the console *)

(** The strategies a console shows to have been entered, in order. *)
Fixpoint attempts (c : list log_entry) : list method :=
  match c with
  | [] => []
  | LogTrying m _ :: r => m :: attempts r
  | _ :: r => attempts r
  end.

(** The strategies a console shows to have been given up, in order. *)
Fixpoint failures (c : list log_entry) : list method :=
  match c with
  | [] => []
  | LogFailed m _ :: r => m :: failures r
  | _ :: r => failures r
  end.

(** The order of the strategies for a URL. *)
Definition plan (image : bool) : list method :=
  [direct_fetch; fetch; xhr] ++ (if image then [canvas] else [])
  ++ [iframe; newtab].

(** The world [downloadFile] has made when it enters its first strategy. *)
Definition started (url filename : string) (w : world) : world :=
  with_console
    (fun c => c ++ [LogStart filename (isImage url)
                      (includes "firebasestorage.googleapis.com" url)]) w.

(** The world after the [console.warn] of a [catch] block. *)
Definition warned (m : method) (e : error) (w : world) : world :=
  with_console (fun c => c ++ [LogFailed m (err_message e)]) w.

(** Strategy [s], entered in [w], rejects; [w'] is the world in which the
    next strategy is entered. *)
Definition fails (s : js unit) (m : method) (w w' : world) : Prop :=
  exists e w1, s w = (w1, Rejected e) /\ w' = warned m e w1.

(** The last block of [downloadFile]: the new-tab fallback. *)
Definition last_resort (io : browser) (url filename : string) : js TransferOutcome :=
  r <- attempt (downloadViaNewTab io url filename) ;;
  match r with
  | inr _ => ret (succeeded newtab)
  | inl newTabError =>
      console_log LogAllFailed ;;
      ret {| success := false; outcome_method := none;
             outcome_error :=
               Some "All download methods failed. Please try again or contact support." |}
  end.

(** The chain of [downloadFile] after its opening line. *)
Definition chain (io : browser) (url filename : string) (opts : options)
  : js TransferOutcome :=
  or_else direct_fetch (downloadViaDirectFetch io url filename) (
  or_else fetch (downloadViaFetch io url filename opts) (
  or_else xhr (downloadViaXHR io url filename opts) (
  (if isImage url
   then or_else canvas (downloadViaCanvas io url filename)
   else fun next => next) (
  or_else iframe (downloadViaIframe io url filename) (
  last_resort io url filename))))).

(** The console grew by the lines of one strategy: its opening line and
    no warning. *)
Definition logs (m : method) (w w' : world) : Prop :=
  exists delta,
    console w' = console w ++ delta /\
    attempts delta = [m] /\ failures delta = [].

(** The account of one chain of strategies entered in [w], for a list
    [pl] of strategies still to try: the console shows a non-empty prefix
    [tried] of [pl] to have been entered, all but the last of them to
    have been given up, and the result names the last one, unless the
    last one never settled. *)
Definition chain_ok (pl : list method) (w : world)
           (res : world * completion TransferOutcome) : Prop :=
  flight (fst res) = flight w /\
  exists delta tried rest,
    console (fst res) = console w ++ delta /\
    pl = tried ++ rest /\ tried <> [] /\
    attempts delta = tried /\
    failures delta = removelast tried /\
    (snd res = Resolved (succeeded (last tried none)) \/
     snd res = Pending).




(** ** Invariants of the document *)

(** Every element of the body and every live object URL was numbered
    before [fresh]. *)
Definition wf (w : world) : Prop :=
  Forall (fun e => node e < fresh w) (body w) /\
  Forall (fun u => u < fresh w) (objectURLs w).

(** Nothing but the document, the counters and the activations moved,
    and the console took notes only. *)
Definition quiet (w w' : world) : Prop :=
  (exists notes, console w' = console w ++ map LogNote notes) /\
  timers w' = timers w /\
  flight w' = flight w /\ windows w' = windows w.

(** The body and the object URLs are what they were. *)
Definition restored (w w' : world) : Prop :=
  body w' = body w /\ objectURLs w' = objectURLs w /\ fresh w <= fresh w'.

(** In this browser no guarded call on a link throws. *)
Definition reliable (io : browser) : Prop :=
  forall n op, dom_throws io n op = None.

(** In this browser every request is answered: every [fetch], every
    reading of a body, every XHR and every loading of an image. *)
Definition responsive (io : browser) : Prop :=
  (forall n url, fetch_answer io n url <> FetchNever) /\
  (forall n url r, fetch_answer io n url = FetchResponds r ->
                   payload r <> BodyNever) /\
  (forall n url, xhr_answer io n url <> XhrNever) /\
  (forall n url, image_answer io n url <> ImageNever).

(** The callbacks of these options do not throw. *)
Definition courteous (opts : options) : Prop :=
  (forall f n r, onProgress opts = Some f -> f n r = None) /\
  (forall f n r, onFileComplete opts = Some f -> f n r = None).


(** ** Reading a batch *)

(** The per-item downloads in flight after a stretch of the record,
    from those in flight before it. *)
Fixpoint fly (acc : list nat) (l : list flight_event) : list nat :=
  match l with
  | [] => acc
  | Launch i :: r => fly (acc ++ [i]) r
  | Settle i :: r => fly (filter (fun j => negb (j =? i)) acc) r
  end.

Definition in_flight (l : list flight_event) : list nat := fly [] l.

(** The item has a URL and a filename. *)
Definition well_formed_item (f : file_item) : bool :=
  truthy (file_url f) && truthy (file_filename f).

(** Nothing happened between [w] and [w'] but calls of callbacks and
    entries in the record of the flights: all that the pipeline reads or
    writes, the instant apart, is the same. *)
Definition between_calls (w w' : world) : Prop :=
  body w' = body w /\ objectURLs w' = objectURLs w /\
  fresh w' = fresh w /\ console w' = console w /\
  activations w' = activations w /\ windows w' = windows w /\
  timers w' = timers w.

(** Entry [e] records what one call of [downloadFile] for the item
    [file] at index [i] came to. *)
Definition records (i : nat) (file : file_item)
           (r : completion TransferOutcome) (e : entry) : Prop :=
  entry_index e = i /\ entry_url e = file_url file /\
  entry_filename e = file_filename file /\
  match r with
  | Resolved result =>
      entry_success e = success result /\
      entry_method e = outcome_method result /\
      entry_error e = outcome_error result
  | Rejected error =>
      entry_success e = false /\ entry_method e = none /\
      entry_error e = Some (err_message error)
  | Pending => False
  end.

(** From [w] to [w'], [downloadFile] was called once for each of
    [items], in their order, each call in the world the one before
    left, and [entries] records what the calls came to, one entry
    each. *)
Inductive attempted (io : browser) (opts : options)
  : list (nat * file_item) -> world -> list entry -> world -> Prop :=
| attempted_none w w' :
    between_calls w w' -> attempted io opts [] w [] w'
| attempted_one i file rest w w0 e entries w' :
    between_calls w w0 ->
    records i file
            (snd (downloadFile io (file_url file) (file_filename file)
                    opts w0)) e ->
    attempted io opts rest
              (fst (downloadFile io (file_url file) (file_filename file)
                      opts w0))
              entries w' ->
    attempted io opts ((i, file) :: rest) w (e :: entries) w'.

(** The three variables of the loop after entry [e] was counted and
    pushed. *)
Definition pushed (e : entry) (t : tally) : tally :=
  {| tally_successful :=
       if entry_success e then S (tally_successful t)
       else tally_successful t;
     tally_failed :=
       if entry_success e then tally_failed t else S (tally_failed t);
     tally_results := tally_results t ++ [e] |}.

(** A list with the indices of its elements, counted from [k]. *)
Definition indexed {A} (k : nat) (l : list A) : list (nat * A) :=
  combine (seq k (length l)) l.

(** Entry [e] carries the URL and the filename of the item at its
    index. *)
Definition matches (items : list file_item) (e : entry) : Prop :=
  nth_error items (entry_index e)
  = Some {| file_url := entry_url e; file_filename := entry_filename e |}.

(** The indices a stretch of the record launches, in order, and the
    index of an event. *)
Fixpoint launches (l : list flight_event) : list nat :=
  match l with
  | [] => []
  | Launch i :: r => i :: launches r
  | Settle _ :: r => launches r
  end.

Definition index_of (ev : flight_event) : nat :=
  match ev with Launch i | Settle i => i end.

(** A stretch of the record is the round of the [k] items from [i] on:
    it speaks of these items only and launches none of them twice. *)
Definition round (i k : nat) (l : list flight_event) : Prop :=
  Forall (fun ev => In (index_of ev) (seq i k)) l /\ NoDup (launches l).

(** Never more than [N] downloads in flight, and a download is launched
    only while nothing but downloads of its own batch is in flight. *)
Definition orderly (N : nat) (l : list flight_event) : Prop :=
  (forall p s, l = p ++ s -> length (in_flight p) <= N) /\
  (forall p j s, l = p ++ Launch j :: s ->
                 forall i, In i (in_flight p) -> i / N = j / N).

(** ** Browsers for the examples *)

Definition no_url : string -> option URL := fun _ => None.

(** The part of [s] before the first character that [stop] holds of,
    and the rest from that character on. *)
Fixpoint break_at (stop : ascii -> bool) (s : string) : string * string :=
  match s with
  | EmptyString => (EmptyString, EmptyString)
  | String c r =>
      if stop c then (EmptyString, s)
      else let (before, rest) := break_at stop r in (String c before, rest)
  end.

(** [new URL(s)] as the browsers of the examples do it: an absolute
    [http:] or [https:] address is taken apart at the first slash after
    its host and at the first [?] or [#]; anything else is refused, as
    an address without a base is. The query is not taken apart. *)
Definition parse_address (s : string) : option URL :=
  let after_scheme :=
    if startsWith "https://" s then Some (string_drop 8 s)
    else if startsWith "http://" s then Some (string_drop 7 s)
    else None in
  match after_scheme with
  | None => None
  | Some rest =>
      let (host, path_on) := break_at (Ascii.eqb "/") rest in
      let (path, more) :=
        break_at (fun c => Ascii.eqb c "?" || Ascii.eqb c "#") path_on in
      if truthy host
      then Some {| url_base := s;
                   pathname := if truthy path then path else "/";
                   searchParams := [];
                   url_hash := snd (break_at (Ascii.eqb "#") more) |}
      else None
  end.

Definition jpeg_blob : blob := {| blob_data := "JFIF"; blob_type := "image/jpeg" |}.

(** The network is down. *)
Definition offline : browser :=
  {| dom_throws := fun _ _ => None;
     fetch_answer := fun _ _ => FetchRejects (TypeError "Failed to fetch");
     xhr_answer := fun _ _ => XhrError;
     image_answer := fun _ _ => ImageError;
     reader_fails := fun _ => false;
     parseURL := parse_address;
     printURL := url_base;
     encodeURIComponent := fun s => s;
     finish_time := fun i => i |}.

(** The host refuses [fetch] and XHR from this origin and serves the
    image to an image element. *)
Definition cors_blocked : browser :=
  {| dom_throws := fun _ _ => None;
     fetch_answer := fun _ _ => FetchRejects (TypeError "Failed to fetch");
     xhr_answer := fun _ _ => XhrError;
     image_answer := fun _ _ => ImageLoad 800 600 (ExportBlob jpeg_blob);
     reader_fails := fun _ => false;
     parseURL := parse_address;
     printURL := url_base;
     encodeURIComponent := fun s => s;
     finish_time := fun i => 10 - i |}.

(** A video served as [video/mp4] whose body cannot be read to its end;
    an image element does not load it. *)
Definition broken_video : browser :=
  {| dom_throws := fun _ _ => None;
     fetch_answer := fun _ _ =>
       FetchResponds {| status := 200; statusText := "OK";
                        contentType := Some "video/mp4";
                        payload := BodyFails (TypeError "network error") |};
     xhr_answer := fun _ _ => XhrError;
     image_answer := fun _ _ => ImageError;
     reader_fails := fun _ => false;
     parseURL := parse_address;
     printURL := url_base;
     encodeURIComponent := fun s => s;
     finish_time := fun i => i |}.

(** As [offline], and every guarded call on a link throws. *)
Definition no_activation : browser :=
  {| dom_throws := fun _ _ => Some (Error "blocked");
     fetch_answer := fun _ _ => FetchRejects (TypeError "Failed to fetch");
     xhr_answer := fun _ _ => XhrError;
     image_answer := fun _ _ => ImageError;
     reader_fails := fun _ => false;
     parseURL := parse_address;
     printURL := url_base;
     encodeURIComponent := fun s => s;
     finish_time := fun i => i |}.

(** The host answers every request with the picture. *)
Definition online : browser :=
  {| dom_throws := fun _ _ => None;
     fetch_answer := fun _ _ =>
       FetchResponds {| status := 200; statusText := "OK";
                        contentType := Some "image/png";
                        payload := BodyBlob {| blob_data := "PNG";
                                               blob_type := "image/png" |} |};
     xhr_answer := fun _ _ => XhrError;
     image_answer := fun _ _ => ImageError;
     reader_fails := fun _ => false;
     parseURL := parse_address;
     printURL := url_base;
     encodeURIComponent := fun s => s;
     finish_time := fun i => i |}.

(** The host never answers: no request comes to an end. *)
Definition silent_host : browser :=
  {| dom_throws := fun _ _ => None;
     fetch_answer := fun _ _ => FetchNever;
     xhr_answer := fun _ _ => XhrNever;
     image_answer := fun _ _ => ImageNever;
     reader_fails := fun _ => false;
     parseURL := parse_address;
     printURL := url_base;
     encodeURIComponent := fun s => s;
     finish_time := fun i => i |}.

(** A batch of three, the second item without a URL. *)
Definition three_items : list file_item :=
  [ {| file_url := "https://photos.example/kitchen.jpg";
       file_filename := "kitchen" |};
    {| file_url := ""; file_filename := "untitled" |};
    {| file_url := "https://photos.example/hall.png";
       file_filename := "hall" |} ].

Definition three_files : list (option file_item) := map Some three_items.

(** An array of length three with a hole in the middle:
    [[kitchen, , hall]]. *)
Definition sparse_files : list (option file_item) :=
  [ Some {| file_url := "https://photos.example/kitchen.jpg";
            file_filename := "kitchen" |};
    None;
    Some {| file_url := "https://photos.example/hall.png";
            file_filename := "hall" |} ].

(** Options with an [onFileComplete] that throws when it is told of a
    result of [downloadFile], and returns when it is told of a failure
    from the [catch] block. *)
Definition touchy_options : options :=
  {| timeout := 30000%N; concurrency := 1;
     onProgress := None;
     onFileComplete :=
       Some (fun _ report =>
               match done_result report with
               | inl _ => Some (TypeError "toast is not defined")
               | inr _ => None
               end) |}.

(** The canonical extensions of the known MIME types. *)
Definition canonical : list (string * string) :=
  [("image/jpeg", "jpg"); ("image/jpg", "jpg"); ("image/png", "png");
   ("image/webp", "webp"); ("image/gif", "gif"); ("video/mp4", "mp4");
   ("video/webm", "webm"); ("video/avi", "avi"); ("video/mov", "mov")].

(** * The rest of the module, its self-tests and its progress panel *)

(** ** Reading what a call has saved *)

(** The extensions the test for image URLs of [downloadFile] knows. *)
Definition image_extensions : list string :=
  ["jpg"; "jpeg"; "png"; "webp"; "gif"].

(** One more link was activated: an anchor that offers the blob [b]
    under the name [filename], by its object URL or by its data URL. *)
Definition activated_once (b : blob) (filename : string) (w w' : world)
  : Prop :=
  exists link,
    activations w' = activations w ++ [link] /\
    tagName link = ANCHOR /\ download link = filename /\
    (href link = ObjectURL (fresh w) \/ href link = DataURL b).

(** One more link was activated: an anchor that offers the file under
    the name [filename]. *)
Definition offered (filename : string) (w w' : world) : Prop :=
  exists link,
    activations w' = activations w ++ [link] /\
    tagName link = ANCHOR /\ download link = filename.

(** At most one more link was activated, an anchor whose [download]
    attribute begins with [filename]. *)
Definition at_most_one_saved (filename : string) (w w' : world) : Prop :=
  activations w' = activations w \/
  exists link,
    activations w' = activations w ++ [link] /\
    tagName link = ANCHOR /\ startsWith filename (download link) = true.

(** A strategy that gave up has activated nothing and left no task. *)
Definition nothing_saved (w w' : world) : Prop :=
  timers w' = timers w /\ activations w' = activations w.

(** What one call of [downloadFile] for [filename] leaves behind: the
    deferred saving of the direct-fetch strategy and no activation, or
    at most one activation and at most the instructions of the new-tab
    fallback. *)
Definition one_download (filename : string) (w w' : world) : Prop :=
  (exists b, timers w' = timers w ++ [ReaderLoad b filename] /\
             activations w' = activations w) \/
  ((timers w' = timers w \/
    exists url, timers w' = timers w ++ [Instructions url]) /\
   at_most_one_saved filename w w').

(** ** Reading the results of a batch *)

(** The item an entry of the results was made from: [{url, filename}]. *)
Definition item_of (e : entry) : file_item :=
  {| file_url := entry_url e; file_filename := entry_filename e |}.

(** An entry reports success exactly when its item has a URL and a
    filename; a failure names no method and says what was missing, a
    success names a method and carries no error. *)
Definition honest (e : entry) : Prop :=
  if well_formed_item (item_of e)
  then entry_success e = true /\ entry_error e = None /\
       entry_method e <> none
  else entry_success e = false /\ entry_method e = none /\
       entry_error e = Some "URL and filename are required".

(** ** The self-tests of [downloadTest.js] and [downloadDebug.js] *)

(** What a self-test resolves to: the result of [downloadFile], or
    [{ success: false, error }], which has no [method]. *)
Record test_result := {
  test_success : bool;
  test_method : option method;
  test_error : option string
}.

Definition of_outcome (o : TransferOutcome) : test_result :=
  {| test_success := success o;
     test_method := Some (outcome_method o);
     test_error := outcome_error o |}.

Definition failure (message : string) : test_result :=
  {| test_success := false; test_method := None;
     test_error := Some message |}.

Section SelfTests.

Variable io : browser.

(** The text of an object URL, [blob:...], as the browser prints it. *)
Variable blobURL : nat -> string.

Local Open Scope js_scope.

(** [testFirebaseDownload(firebaseUrl, filename = 'firebase-test-download')]
    of [downloadTest.js]; [None] is an argument left out. *)
Definition testFirebaseDownload (firebaseUrl filename : option string)
  : js test_result :=
  let filename :=
    match filename with Some f => f | None => "firebase-test-download" end in
  let refuse :=
    console_log (LogNote "Invalid Firebase Storage URL provided") ;;
    ret (failure "Invalid Firebase Storage URL") in
  match firebaseUrl with
  | None => refuse
  | Some firebaseUrl =>
      if negb (truthy firebaseUrl)
         || negb (includes "firebasestorage.googleapis.com" firebaseUrl)
      then refuse
      else
        try_catch (
          console_log (LogNote "Testing Firebase Storage download...") ;;
          result <- downloadFile io firebaseUrl filename default_options ;;
          console_log (LogNote "Firebase download test result:") ;;
          ret (of_outcome result))
          (fun error =>
             console_log (LogNote "Firebase download test failed:") ;;
             ret (failure (err_message error)))
  end.

(** [testFirebaseUrl(firebaseUrl, filename = 'firebase-test')] of
    [downloadDebug.js]. *)
Definition testFirebaseUrl (firebaseUrl filename : option string)
  : js test_result :=
  let filename :=
    match filename with Some f => f | None => "firebase-test" end in
  match firebaseUrl with
  | None => ret (failure "Invalid Firebase URL")
  | Some firebaseUrl =>
      if negb (truthy firebaseUrl)
         || negb (includes "firebasestorage.googleapis.com" firebaseUrl)
      then ret (failure "Invalid Firebase URL")
      else
        try_catch (
          console_log (LogNote "Testing Firebase URL download:") ;;
          result <- downloadFile io firebaseUrl filename default_options ;;
          console_log (LogNote "Firebase URL test result:") ;;
          ret (of_outcome result))
          (fun error =>
             console_log (LogNote "Firebase URL test failed:") ;;
             ret (failure (err_message error)))
  end.

(** [testSimpleDownload()] of [downloadDebug.js]; [testContent] is the
    text with the time of the call. *)
Definition testSimpleDownload (testContent : string) : js test_result :=
  try_catch (
    console_log (LogNote "Testing simple download...") ;;
    let blob := {| blob_data := testContent; blob_type := "text/plain" |} in
    testUrl <- createObjectURL blob ;;
    result <- downloadFile io (blobURL testUrl) "test-download.txt"
                default_options ;;
    revokeObjectURL testUrl ;;
    console_log (LogNote "Simple download test result:") ;;
    ret (of_outcome result))
    (fun error =>
       console_log (LogNote "Simple download test failed:") ;;
       ret (failure (err_message error))).

(** [testDownload()] of [downloadTest.js]. Drawing on the canvas may
    throw, which rejects the [async] function; the callback of [toBlob]
    is an [async] function without a [catch] around its first line, so
    that with [null] for a blob the promise is never settled. *)
Definition testDownload (export : canvas_export) : js test_result :=
  _ <- createElement CANVAS ;;
  match export with
  | ExportThrows e => throw e
  | ExportNull => never
  | ExportBlob blob =>
      testUrl <- createObjectURL blob ;;
      callback (
        try_catch (
          console_log (LogNote "Testing download functionality...") ;;
          result <- downloadFile io (blobURL testUrl) "download-test.png"
                      default_options ;;
          console_log (LogNote "Download test result:") ;;
          revokeObjectURL testUrl ;;
          ret (of_outcome result))
          (fun error =>
             console_log (LogNote "Download test failed:") ;;
             revokeObjectURL testUrl ;;
             ret (failure (err_message error))))
  end.

End SelfTests.

(** ** The progress panel *)

(** [createProgressUI] and the controller it returns, over the part of
    the document its panels live in. The title is plain text, and
    nothing else in the document carries one of the four ids. *)
Module ProgressUI.

(** A panel: the [div] with its title and its four children, known by
    their ids [progress-text], [progress-bar], [progress-current] and
    [progress-status]. The width of the bar is kept as the pair it was
    computed from, [(current / total) * 100] percent; [None] is the
    initial [0%]. *)
Record panel := {
  panel_node : nat;
  panel_title : string;
  progress_text : string;
  progress_bar : option (nat * nat);
  progress_current : string;
  progress_status : string
}.

(** The panels among the children of [document.body], in document
    order, the counter that numbers new nodes, and the removals that
    [complete] has set a timer for. *)
Record page := {
  panels : list panel;
  next_node : nat;
  removals : list nat
}.

Definition empty_page : page :=
  {| panels := []; next_node := 0; removals := [] |}.

(** [document.getElementById(id)] for one of the four ids is the child
    of that id in the first panel of the document; [on_first f] lets
    [f] write into that panel, and does nothing without one. *)
Definition on_first (f : panel -> panel) (l : list panel) : list panel :=
  match l with
  | [] => []
  | p :: r => f p :: r
  end.

(** [update(current, total, status, filename)]. *)
Definition update (current total : nat) (status filename : string)
           (pg : page) : page :=
  {| panels :=
       on_first
         (fun p =>
            {| panel_node := panel_node p;
               panel_title := panel_title p;
               progress_text :=
                 if truthy filename then "Downloading: " +++ filename
                 else progress_text p;
               progress_bar :=
                 if 0 <? total then Some (current, total)
                 else progress_bar p;
               progress_current := show current +++ " / " +++ show total;
               progress_status :=
                 if truthy status then status else progress_status p |})
         (panels pg);
     next_node := next_node pg;
     removals := removals pg |}.

(** [complete(successful, failed, total)] of the controller whose own
    [div] is [progressDiv]. *)
Definition complete (progressDiv : nat) (successful failed total : nat)
           (pg : page) : page :=
  {| panels :=
       on_first
         (fun p =>
            {| panel_node := panel_node p;
               panel_title := panel_title p;
               progress_text := "Download completed!";
               progress_bar := progress_bar p;
               progress_current := progress_current p;
               progress_status :=
                 show successful +++ " successful, " +++ show failed
                 +++ " failed" |})
         (panels pg);
     next_node := next_node pg;
     removals := removals pg ++ [progressDiv] |}.

(** [if (progressDiv.parentNode) progressDiv.parentNode.removeChild(progressDiv)]. *)
Definition remove (progressDiv : nat) (pg : page) : page :=
  {| panels :=
       filter (fun p => negb (panel_node p =? progressDiv)) (panels pg);
     next_node := next_node pg;
     removals := removals pg |}.

(** The timers of [complete] fire. *)
Definition run_removals (pg : page) : page :=
  fold_left (fun pg progressDiv => remove progressDiv pg) (removals pg)
            {| panels := panels pg; next_node := next_node pg;
               removals := [] |}.

(** The object [createProgressUI] returns. *)
Record controller := {
  ctl_update : nat -> nat -> string -> string -> page -> page;
  ctl_complete : nat -> nat -> nat -> page -> page;
  ctl_remove : page -> page
}.

(** [createProgressUI(title = 'Downloading Files...')]. *)
Definition createProgressUI (title : option string) (pg : page)
  : page * controller :=
  let title :=
    match title with Some t => t | None => "Downloading Files..." end in
  let progressDiv :=
    {| panel_node := next_node pg;
       panel_title := title;
       progress_text := "Preparing downloads...";
       progress_bar := None;
       progress_current := "0 / 0";
       progress_status := "Starting..." |} in
  ({| panels := panels pg ++ [progressDiv];
      next_node := S (next_node pg);
      removals := removals pg |},
   {| ctl_update := update;
      ctl_complete := complete (next_node pg);
      ctl_remove := remove (next_node pg) |}).

(** Every panel was numbered before [next_node]. *)
Definition numbered (pg : page) : Prop :=
  Forall (fun p => panel_node p < next_node pg) (panels pg).

End ProgressUI.
(** * Proofs *)

Section ListFacts.

Lemma attempts_app c d : attempts (c ++ d) = attempts c ++ attempts d.
Proof.
  induction c as [|x c IH]; cbn; [reflexivity|].
  destruct x; cbn; now rewrite IH.
Qed.

Lemma failures_app c d : failures (c ++ d) = failures c ++ failures d.
Proof.
  induction c as [|x c IH]; cbn; [reflexivity|].
  destruct x; cbn; now rewrite IH.
Qed.

Lemma attempts_notes l : attempts (map LogNote l) = [].
Proof. induction l as [|x l IH]; [reflexivity|exact IH]. Qed.

Lemma failures_notes l : failures (map LogNote l) = [].
Proof. induction l as [|x l IH]; [reflexivity|exact IH]. Qed.

Lemma noted_refl (c : list log_entry) :
  exists notes, c = c ++ map LogNote notes.
Proof. exists []. cbn. now rewrite app_nil_r. Qed.

Lemma noted_snoc (c c' : list log_entry) text :
  (exists notes, c' = c ++ map LogNote notes) ->
  exists notes, c' ++ [LogNote text] = c ++ map LogNote notes.
Proof.
  intros (n & ->). exists (n ++ [text]). now rewrite map_app, app_assoc.
Qed.

Lemma noted_trans (c c1 c2 : list log_entry) :
  (exists notes, c1 = c ++ map LogNote notes) ->
  (exists notes, c2 = c1 ++ map LogNote notes) ->
  exists notes, c2 = c ++ map LogNote notes.
Proof.
  intros (n1 & ->) (n2 & ->). exists (n1 ++ n2).
  now rewrite map_app, app_assoc.
Qed.

Lemma attached_last n l e :
  node e = n -> existsb (is_node n) (l ++ [e]) = true.
Proof.
  intros <-. rewrite existsb_app. cbn. unfold is_node.
  rewrite Nat.eqb_refl. now rewrite orb_true_r.
Qed.

Lemma filter_other_nodes n m l :
  Forall (fun e => node e < n) l -> n <= m ->
  filter (fun x => negb (is_node m x)) l = l.
Proof.
  intros H Hm. induction H as [|x l Hx _ IH]; cbn; [reflexivity|].
  unfold is_node at 1. destruct (Nat.eqb_spec (node x) m); [lia|].
  cbn. now rewrite IH.
Qed.

Lemma filter_detach n m l e :
  Forall (fun e => node e < n) l -> n <= m -> node e = m ->
  filter (fun x => negb (is_node m x)) (l ++ [e]) = l.
Proof.
  intros H Hm He. rewrite filter_app, (filter_other_nodes n m l H Hm).
  cbn. unfold is_node. rewrite He, Nat.eqb_refl. cbn. apply app_nil_r.
Qed.

Lemma filter_revoke n m l :
  Forall (fun u => u < n) l -> n <= m ->
  filter (fun u => negb (u =? m)) (l ++ [m]) = l.
Proof.
  intros H Hm. rewrite filter_app. cbn. rewrite Nat.eqb_refl. cbn.
  rewrite app_nil_r. induction H as [|x l Hx _ IH]; cbn; [reflexivity|].
  destruct (Nat.eqb_spec x m); [lia|]. cbn. now rewrite IH.
Qed.

End ListFacts.

Section WorldFacts.

Lemma quiet_refl w : quiet w w.
Proof. split; [exists []; cbn; now rewrite app_nil_r|]. repeat split. Qed.

Lemma quiet_trans w1 w2 w3 : quiet w1 w2 -> quiet w2 w3 -> quiet w1 w3.
Proof.
  intros ((n1 & E1) & T1 & F1 & W1) ((n2 & E2) & T2 & F2 & W2).
  split; [|repeat split; congruence].
  exists (n1 ++ n2). now rewrite E2, E1, map_app, app_assoc.
Qed.

(** A world with some notes more on its console. *)
Lemma quiet_note w text :
  quiet w (with_console (fun c => c ++ [LogNote text]) w).
Proof. split; [now exists [text]|]. repeat split. Qed.

Lemma restored_refl w : restored w w.
Proof. repeat split. lia. Qed.

Lemma restored_trans w1 w2 w3 :
  restored w1 w2 -> restored w2 w3 -> restored w1 w3.
Proof. unfold restored. intuition (try congruence; try lia). Qed.

Lemma wf_later w n :
  wf w -> fresh w <= n ->
  Forall (fun e => node e < n) (body w) /\
  Forall (fun u => u < n) (objectURLs w).
Proof.
  intros [Hb Hu] Hn.
  split; eapply Forall_impl; try eassumption; cbn; intros; lia.
Qed.

Lemma restored_wf w w' : wf w -> restored w w' -> wf w'.
Proof.
  intros Hw (Eb & Eu & Hf). unfold wf. rewrite Eb, Eu.
  now apply wf_later.
Qed.

Lemma wf_empty : wf empty_world.
Proof. split; constructor. Qed.

End WorldFacts.

Section StringFacts.

Lemma includes_dot_cons c r :
  includes "." (String c r) = Ascii.eqb "." c || includes "." r.
Proof. cbn. now rewrite andb_true_r. Qed.

Lemma split_not_nil sep s : split sep s <> [].
Proof.
  destruct s as [|c r]; cbn; [discriminate|].
  destruct (Ascii.eqb c sep); [discriminate|].
  destruct (split sep r); discriminate.
Qed.

Lemma pop_app pre l : l <> [] -> pop (pre ++ l) = pop l.
Proof.
  intros Hl. unfold pop. induction pre as [|x pre IH]; [reflexivity|].
  cbn. destruct (pre ++ l) eqn:E; [|exact IH].
  apply app_eq_nil in E. now destruct E.
Qed.

Lemma split_app sep a b :
  exists pre, pre <> [] /\
    split sep (a +++ String sep b) = pre ++ split sep b.
Proof.
  induction a as [|c a (pre & Hne & IH)]; cbn.
  - rewrite Ascii.eqb_refl. exists [EmptyString]. split; [discriminate|reflexivity].
  - destruct (Ascii.eqb c sep).
    + exists (EmptyString :: pre). split; [discriminate|]. cbn. now rewrite IH.
    + rewrite IH. destruct pre as [|p ps]; [contradiction|].
      exists (String c p :: ps). split; [discriminate|reflexivity].
Qed.

Lemma pop_split_app sep a b :
  pop (split sep (a +++ String sep b)) = pop (split sep b).
Proof.
  destruct (split_app sep a b) as (pre & _ & ->).
  apply pop_app, split_not_nil.
Qed.

Lemma split_no_sep e : includes "." e = false -> split "." e = [e].
Proof.
  induction e as [|c r IH]; [reflexivity|].
  rewrite includes_dot_cons. intros H. apply orb_false_iff in H as [Hc Hr].
  cbn. rewrite Ascii.eqb_sym, Hc, (IH Hr). reflexivity.
Qed.

Lemma includes_dot_app a b : includes "." (a +++ String "." b) = true.
Proof.
  induction a as [|c a IH].
  - reflexivity.
  - change (String c a +++ String "." b) with (String c (a +++ String "." b)).
    rewrite includes_dot_cons, IH. apply orb_true_r.
Qed.

Lemma pop_split_no_dot s : includes "." (pop (split "." s)) = false.
Proof.
  induction s as [|c r IH]; [reflexivity|].
  cbn [split]. destruct (Ascii.eqb c ".") eqn:Ec.
  - change (EmptyString :: split "." r) with ([EmptyString] ++ split "." r).
    rewrite pop_app by apply split_not_nil. exact IH.
  - destruct (split "." r) as [|h t] eqn:E; [now destruct (split_not_nil "." r)|].
    destruct t as [|h' t'].
    + unfold pop in *. cbn [last] in *.
      rewrite includes_dot_cons, Ascii.eqb_sym, Ec. exact IH.
    + exact IH.
Qed.

Lemma extension_of_appended a e :
  includes "." e = false -> extension_of (a +++ "." +++ e) = e.
Proof.
  intros He. unfold extension_of.
  change (a +++ "." +++ e) with (a +++ String "." e).
  rewrite pop_split_app, (split_no_sep e He). reflexivity.
Qed.

Lemma has_extension_appended a e :
  includes "." e = false -> 1 <= String.length e <= 4 ->
  has_extension (a +++ "." +++ e) = true.
Proof.
  intros He [H1 H4]. unfold has_extension.
  rewrite (extension_of_appended a e He).
  change (a +++ "." +++ e) with (a +++ String "." e).
  rewrite includes_dot_app.
  rewrite (proj2 (Nat.leb_le 1 _) H1), (proj2 (Nat.leb_le _ 4) H4).
  reflexivity.
Qed.

End StringFacts.

Section ResolverFacts.

Variable up : string -> option string.

Lemma typeMap_canonical key ext : In (key, ext) canonical -> typeMap key = Some ext.
Proof.
  intros H. cbn in H.
  repeat (destruct H as [H|H]; [injection H as <- <-; reflexivity|]).
  contradiction.
Qed.

Lemma typeMap_values key ext :
  typeMap key = Some ext ->
  key <> "constructor" -> key <> "__proto__" ->
  includes "." ext = false /\ 1 <= String.length ext <= 4.
Proof.
  unfold typeMap. intros H Hc Hp.
  repeat match type of H with
  | (if String.eqb ?a ?b then _ else _) = _ =>
      destruct (String.eqb_spec a b);
      [ try (injection H as <-; cbn; split; [reflexivity|lia]);
        try contradiction
      | ]
  end.
  discriminate.
Qed.

(** The extension comes from the content type, then from the path of
    the URL, then from the look of the URL. *)
Example resolve_by_content_type :
  ensureFileExtension (url_pathname online) "photo"
    "https://good.example/img/hall" "image/png" = "photo.png".
Proof. vm_compute. reflexivity. Qed.

Example resolve_long_suffix :
  ensureFileExtension (url_pathname offline) "file.verylongword"
    "not a url" "" = "file.verylongword.jpg".
Proof. vm_compute. reflexivity. Qed.

Example resolve_by_url_pattern :
  ensureFileExtension (url_pathname offline) "clip"
    "https://cdn.example/video/77" "" = "clip.mp4".
Proof. vm_compute. reflexivity. Qed.

Example resolve_by_url_path :
  ensureFileExtension (url_pathname broken_video) "clip"
    "https://cdn.example/images/clip.mp4" "" = "clip.mp4".
Proof. vm_compute. reflexivity. Qed.

Lemma ensureFileExtension_extension filename url ct :
  (includes "." filename = true -> extension_of filename <> "") ->
  toLowerCase ct <> "constructor" -> toLowerCase ct <> "__proto__" ->
  has_extension (ensureFileExtension up filename url ct) = true.
Proof.
  intros Hdot Hc Hp. unfold ensureFileExtension.
  destruct (truthy filename); cbn [negb]; [|reflexivity].
  fold (extension_of filename).
  destruct (includes "." filename
            && (String.length (extension_of filename) <=? 4)) eqn:Hcheck.
  - apply andb_true_iff in Hcheck as [Hi Hl].
    unfold has_extension. rewrite Hi, Hl. specialize (Hdot Hi).
    destruct (extension_of filename); [contradiction|reflexivity].
  - destruct (if truthy ct then typeMap (toLowerCase ct) else None)
      as [ext|] eqn:Ht.
    + destruct (truthy ct); [|discriminate].
      destruct (typeMap_values _ _ Ht Hc Hp) as [Hn Hlen].
      apply has_extension_appended; assumption.
    + destruct (up url) as [urlPath|].
      * destruct (truthy (pop (split "." urlPath))
                  && (String.length (pop (split "." urlPath)) <=? 4)
                  && negb (includes "/" (pop (split "." urlPath)))) eqn:Hurl.
        -- apply andb_true_iff in Hurl as [Hurl _].
           apply andb_true_iff in Hurl as [Hne Hle].
           apply has_extension_appended.
           ++ apply pop_split_no_dot.
           ++ apply Nat.leb_le in Hle. split; [|exact Hle].
              destruct (pop (split "." urlPath)); [discriminate|cbn; lia].
        -- destruct (includes "video" url || includes ".mp4" url
                     || includes ".webm" url).
           ++ change (filename +++ ".mp4") with (filename +++ "." +++ "mp4");
           apply has_extension_appended; [reflexivity | cbn; lia].
           ++ change (filename +++ ".jpg") with (filename +++ "." +++ "jpg");
           apply has_extension_appended; [reflexivity | cbn; lia].
      * destruct (includes "video" url || includes ".mp4" url
                  || includes ".webm" url).
        -- change (filename +++ ".mp4") with (filename +++ "." +++ "mp4");
           apply has_extension_appended; [reflexivity | cbn; lia].
        -- change (filename +++ ".jpg") with (filename +++ "." +++ "jpg");
           apply has_extension_appended; [reflexivity | cbn; lia].
Qed.

Lemma ensureFileExtension_trailing_dot stem url ct :
  ensureFileExtension up (stem +++ ".") url ct = stem +++ "." /\
  extension_of (stem +++ ".") = "" /\
  has_extension (stem +++ ".") = false.
Proof.
  assert (He : extension_of (stem +++ ".") = "").
  { unfold extension_of. change (stem +++ ".") with (stem +++ String "." "").
    now rewrite pop_split_app. }
  repeat split; [|exact He|].
  - unfold ensureFileExtension. fold (extension_of (stem +++ ".")).
    rewrite He. change (stem +++ ".") with (stem +++ String "." "").
    rewrite includes_dot_app.
    destruct stem; reflexivity.
  - unfold has_extension. rewrite He. cbn.
    now rewrite andb_false_r.
Qed.

Lemma ensureFileExtension_known_type filename url ct ext :
  truthy filename = true ->
  includes "." filename
  && (String.length (extension_of filename) <=? 4) = false ->
  In (toLowerCase ct, ext) canonical ->
  ensureFileExtension up filename url ct = filename +++ "." +++ ext.
Proof.
  intros Hf Hcheck Hin. unfold ensureFileExtension.
  rewrite Hf. cbn [negb]. fold (extension_of filename). rewrite Hcheck.
  assert (Hct : truthy ct = true).
  { destruct ct; [|reflexivity]. cbn in Hin.
    repeat (destruct Hin as [Hin|Hin]; [discriminate|]). contradiction. }
  now rewrite Hct, (typeMap_canonical _ _ Hin).
Qed.

End ResolverFacts.
(** Case analysis on the next answer of the oracle. *)
Ltac oracle io :=
  match goal with
  | |- context [dom_throws io ?n ?op] => destruct (dom_throws io n op)
  | |- context [reader_fails io ?n] => destruct (reader_fails io n)
  end.

(** Under [wf], appending a fresh node and removing it gives the list
    back, and so does creating and revoking an object URL. *)
Ltac dom_restore_all :=
  match goal with
  | H : wf ?w |- _ =>
      let Hb := fresh "Hb" in
      let Hu := fresh "Hu" in
      pose proof H as [Hb Hu];
      unfold wf in *; cbn in *;
      repeat (rewrite (filter_other_nodes _ _ _ Hb) in * by lia);
      repeat (rewrite (filter_detach _ _ _ _ Hb) in * by (cbn; lia));
      repeat (rewrite (filter_revoke _ _ _ Hu) in * by lia)
  end.

(** The console took notes only. *)
Ltac noted :=
  first
    [ apply noted_refl
    | apply noted_snoc; noted
    | match goal with
      | H : exists n, ?c' = _ ++ map LogNote n |- exists m, ?c' = _ =>
          eapply noted_trans; [|exact H]; noted
      end ].

Section TriggerFacts.

Variable io : browser.

Lemma tryDataUrlDownload_spec b f w :
  let r := tryDataUrlDownload io b f w in
  snd r <> Pending /\ quiet w (fst r) /\ (wf w -> restored w (fst r)).
Proof.
  unfold tryDataUrlDownload, bind, ask, callback, attempt, activate,
    new_link, createElement, appendChild, removeChild, throw, ret,
    quiet, restored.
  cbn.
  repeat (oracle io; cbn); rewrite ?attached_last by reflexivity; cbn.
  all: split; [discriminate
              | split; [split; [noted|tauto] | intros Hw; dom_restore_all]].
  all: repeat split; (reflexivity || lia).
Qed.

Lemma forceDownload_spec b f w :
  let r := forceDownload io b f w in
  snd r <> Pending /\ quiet w (fst r) /\ (wf w -> restored w (fst r)).
Proof.
  unfold forceDownload, approach, try_catch, bind, ask, attempt, activate,
    new_link, createElement, createObjectURL, revokeObjectURL, parentNode,
    appendChild, removeChild, console_log, throw, ret.
  cbn.
  repeat (oracle io; cbn); rewrite ?attached_last by reflexivity; cbn.
  all: rewrite ?attached_last by reflexivity; cbn.
  all: try match goal with
    | |- context [tryDataUrlDownload ?i ?x ?y ?W] =>
        pose proof (tryDataUrlDownload_spec x y W) as (Hp & (Hn & Hq) & Hr);
        destruct (tryDataUrlDownload i x y W) as [w' r]
    end.
  all: unfold quiet, restored in *; cbn in *.
  all: split; [try discriminate; try assumption
              | split; [split; [noted|try tauto]
                       | intros Hw; dom_restore_all]].
  all: try (repeat split; (reflexivity || lia)).
  all: destruct Hr as (Eb & Eu & Ef);
    [apply (wf_later w); [split; assumption | lia]
    | repeat split; (assumption || lia)].
Qed.

Lemma triggerDownload_spec b f w :
  let r := triggerDownload io b f w in
  snd r <> Pending /\ quiet w (fst r) /\ (wf w -> restored w (fst r)).
Proof.
  unfold triggerDownload, approach, try_catch, bind, ask, attempt, activate,
    new_link, createElement, createObjectURL, revokeObjectURL, parentNode,
    appendChild, removeChild, console_log, throw, ret.
  cbn.
  repeat (oracle io; cbn); rewrite ?attached_last by reflexivity; cbn.
  all: rewrite ?attached_last by reflexivity; cbn.
  all: unfold quiet, restored; cbn.
  all: split; [discriminate
              | split; [split; [noted|tauto] | intros Hw; dom_restore_all]].
  all: repeat split; (reflexivity || lia).
Qed.

(** With reliable activation the first click returns and the trigger
    resolves. *)
Lemma forceDownload_reliable b f w :
  reliable io -> snd (forceDownload io b f w) = Resolved tt.
Proof.
  intros Hio.
  unfold forceDownload, approach, try_catch, bind, ask, attempt, activate,
    new_link, createElement, createObjectURL, revokeObjectURL, parentNode,
    appendChild, removeChild, console_log, throw, ret.
  cbn. rewrite Hio. cbn.
  repeat (rewrite attached_last by reflexivity; cbn).
  reflexivity.
Qed.

End TriggerFacts.
#[local] Arguments String.append : simpl never.
#[local] Arguments show : simpl never.

(** Replace a call of [forceDownload] by what its specification says. *)
Ltac use_force :=
  match goal with
  | |- context [forceDownload ?i ?x ?y ?W] =>
      let Hp := fresh "Hp" in
      let Hq := fresh "Hq" in
      let Hr := fresh "Hr" in
      let w' := fresh "w'" in
      pose proof (forceDownload_spec i x y W) as (Hp & Hq & Hr);
      destruct (forceDownload i x y W) as [w' [[]|?|]];
      [ | | exfalso; apply Hp; reflexivity ]
  end.

Ltac finish_logs :=
  eexists; split;
  [ repeat match goal with H : console _ = _ |- _ => rewrite H end;
    rewrite <- ?app_assoc; reflexivity
  | rewrite ?attempts_app, ?failures_app, ?attempts_notes, ?failures_notes;
    cbn;
    rewrite ?attempts_app, ?failures_app, ?attempts_notes, ?failures_notes;
    split; reflexivity ].

(** A strategy that is still pending waits for an answer. *)
Ltac answered :=
  let R1 := fresh "R" in
  let R2 := fresh "R" in
  let R3 := fresh "R" in
  let R4 := fresh "R" in
  intros (R1 & R2 & R3 & R4); try discriminate; exfalso;
  first [ eapply R1; eassumption | eapply R2; eassumption
        | eapply R3; eassumption | eapply R4; eassumption ].

Ltac finish_spec :=
  unfold logs, quiet, restored, wf in *; cbn in *;
  repeat match goal with
         | H : _ /\ _ |- _ => destruct H
         | H : exists _, _ |- _ => destruct H
         end;
  split; [ finish_logs
         | split; [ congruence
                  | split; [ try discriminate; try answered
                           | intros Hw; intuition (try congruence; try lia) ] ] ].

Section StrategyFacts.

Variable io : browser.

Lemma downloadViaFetch_spec url fn opts w :
  let r := downloadViaFetch io url fn opts w in
  logs fetch w (fst r) /\ flight (fst r) = flight w /\
  (responsive io -> snd r <> Pending) /\ (wf w -> restored w (fst r)).
Proof.
  unfold downloadViaFetch, resolve_name, try_catch, bind, ask, console_log,
    never, throw, ret.
  cbn.
  destruct (fetch_answer io (tick w) url) as [e|r|] eqn:Ef; cbn.
  2: destruct (ok r); cbn.
  all: repeat match goal with
         | |- context [ensureFileExtension_warns ?u ?a ?b ?c] =>
             destruct (ensureFileExtension_warns u a b c)
         end; cbn.
  all: try (destruct (payload r) as [b|e|] eqn:Ep; cbn).
  all: try (use_force; cbn).
  all: repeat match goal with
         | |- context [String.eqb ?a ?b] => destruct (String.eqb a b)
         end; cbn.
  all: finish_spec.
Qed.

Lemma downloadViaXHR_spec url fn opts w :
  let r := downloadViaXHR io url fn opts w in
  logs xhr w (fst r) /\ flight (fst r) = flight w /\
  (responsive io -> snd r <> Pending) /\ (wf w -> restored w (fst r)).
Proof.
  unfold downloadViaXHR, resolve_name, try_catch, bind, ask, console_log,
    never, throw, ret.
  cbn.
  destruct (includes "firebasestorage.googleapis.com" url); cbn.
  1: destruct (parseURL io url) as [urlObj|]; cbn.
  all: try match goal with
         | |- context [xhr_answer io ?n ?u] =>
             destruct (xhr_answer io n u) as [st ct resp| | |] eqn:Ex; cbn
         end.
  all: try (destruct (st =? 200); cbn).
  all: try (destruct (timeout opts =? 0)%N; cbn).
  all: repeat match goal with
         | |- context [ensureFileExtension_warns ?u ?a ?b ?c] =>
             destruct (ensureFileExtension_warns u a b c)
         end; cbn.
  all: try (use_force; cbn).
  all: finish_spec.
Qed.

Lemma downloadViaDirectFetch_spec url fn w :
  let r := downloadViaDirectFetch io url fn w in
  logs direct_fetch w (fst r) /\ flight (fst r) = flight w /\
  (responsive io -> snd r <> Pending) /\ (wf w -> restored w (fst r)).
Proof.
  unfold downloadViaDirectFetch, try_catch, bind, ask, console_log,
    setTimeout, never, throw, ret.
  cbn.
  destruct (fetch_answer io (tick w) url) as [e|r|] eqn:Ef; cbn.
  2: destruct (ok r); cbn.
  2: destruct (payload r) as [b|e|] eqn:Ep; cbn.
  all: finish_spec.
Qed.

Lemma downloadViaIframe_spec url fn w :
  let r := downloadViaIframe io url fn w in
  logs iframe w (fst r) /\ flight (fst r) = flight w /\
  snd r <> Pending /\ (wf w -> restored w (fst r)).
Proof.
  unfold downloadViaIframe, try_catch, attempt, bind, console_log,
    createElement, appendChild, parentNode, removeChild, throw, ret.
  cbn.
  destruct (parseURL io url) as [u|]; cbn.
  1: repeat (rewrite attached_last by reflexivity; cbn).
  all: unfold logs, restored; cbn.
  all: split; [finish_logs | split; [reflexivity | split; [discriminate|]]].
  all: intros Hw; dom_restore_all; repeat split; (reflexivity || lia).
Qed.

Lemma downloadViaCanvas_spec url fn w :
  let r := downloadViaCanvas io url fn w in
  logs canvas w (fst r) /\ flight (fst r) = flight w /\
  (reliable io -> responsive io -> snd r <> Pending) /\
  (wf w -> restored w (fst r)).
Proof.
  unfold downloadViaCanvas, resolve_name, callback, try_catch, attempt,
    bind, ask, console_log, createElement, never, throw, ret.
  cbn.
  destruct (image_answer io (tick w) url) as [|nw nh [e| |b]|] eqn:Ei; cbn.
  all: repeat match goal with
         | |- context [ensureFileExtension_warns ?u ?a ?b ?c] =>
             destruct (ensureFileExtension_warns u a b c)
         end; cbn.
  all: try (match goal with
            | |- context [forceDownload ?i ?x ?y ?W] =>
                pose proof (forceDownload_reliable i x y W) as Hrel
            end; use_force; cbn in *).
  all: unfold logs, quiet, restored in *; cbn in *;
    repeat match goal with
           | H : _ /\ _ |- _ => destruct H
           | H : exists _, _ |- _ => destruct H
           end.
  all: split; [finish_logs | split; [congruence | split]].
  all: try (intros Hio; try specialize (Hrel Hio); try answered; congruence).
  all: intros Hw;
    try (destruct Hr as (Eb & Eu & Ef);
         [apply (wf_later w); [exact Hw | cbn; lia] | ]);
    repeat split; try congruence; cbn in *; lia.
Qed.

(** The new-tab fallback always resolves; the link it made is gone when
    its click returned, and still there when the click threw. *)
Lemma downloadViaNewTab_spec url fn w :
  let r := downloadViaNewTab io url fn w in
  logs newtab w (fst r) /\ flight (fst r) = flight w /\
  snd r = Resolved tt /\ (wf w -> wf (fst r)).
Proof.
  unfold downloadViaNewTab, try_catch, bind, ask, activate, new_link,
    console_log, createElement, appendChild, removeChild, setTimeout,
    window_open, throw, ret.
  cbn.
  destruct (dom_throws io (tick w) Click); cbn.
  2: repeat (rewrite attached_last by reflexivity; cbn).
  all: unfold logs; cbn.
  all: split; [finish_logs | split; [reflexivity | split; [reflexivity|]]].
  - intros Hw. pose proof Hw as [Hb Hu]. unfold wf; cbn.
    rewrite (filter_other_nodes _ _ _ Hb) by lia. split.
    + apply Forall_app. split.
      * eapply Forall_impl; [|exact Hb]. cbn; intros; lia.
      * repeat constructor.
    + eapply Forall_impl; [|exact Hu]. cbn; intros; lia.
  - intros Hw. dom_restore_all. apply (wf_later w); [exact Hw | lia].
Qed.

End StrategyFacts.

Section OrchestratorFacts.

Variable io : browser.

Lemma or_else_resolved m s next w w1 :
  s w = (w1, Resolved tt) ->
  or_else m s next w = (w1, Resolved (succeeded m)).
Proof. intros H. unfold or_else, bind, attempt. now rewrite H. Qed.

Lemma or_else_rejected m s next w w1 e :
  s w = (w1, Rejected e) ->
  or_else m s next w = next (warned m e w1).
Proof. intros H. unfold or_else, bind, attempt. now rewrite H. Qed.

Lemma or_else_pending m s next w w1 :
  s w = (w1, Pending) ->
  or_else m s next w = (w1, Pending).
Proof. intros H. unfold or_else, bind, attempt. now rewrite H. Qed.


Lemma or_else_chain m s next pl :
  (forall w, logs m w (fst (s w)) /\ flight (fst (s w)) = flight w) ->
  (forall w, chain_ok pl w (next w)) ->
  forall w, chain_ok (m :: pl) w (or_else m s next w).
Proof.
  intros Hs Hnext w.
  destruct (Hs w) as ((d & Hc & Ha & Hf) & Hfl).
  destruct (s w) as [w1 [[]|e|]] eqn:E; cbn in *.
  - rewrite (or_else_resolved _ _ _ _ _ E). split; [exact Hfl|].
    exists d, [m], pl. cbn. repeat split; auto. discriminate.
  - rewrite (or_else_rejected _ _ _ _ _ _ E).
    destruct (Hnext (warned m e w1))
      as (Hfl' & d' & tried & rest & Hc' & -> & Hne & Ha' & Hf' & Hres).
    split; [cbn in Hfl'; congruence|].
    exists (d ++ LogFailed m (err_message e) :: d'), (m :: tried), rest.
    cbn in Hc'. rewrite Hc', Hc, <- !app_assoc. cbn.
    rewrite attempts_app, failures_app, Ha, Hf. cbn. rewrite Ha', Hf'.
    repeat split; try discriminate.
    + destruct tried; [contradiction|reflexivity].
    + destruct tried; [contradiction|exact Hres].
  - rewrite (or_else_pending _ _ _ _ _ E). split; [exact Hfl|].
    exists d, [m], pl. cbn. repeat split; auto; try discriminate.
Qed.


Lemma fails_not_resolved s m w w1 w2 :
  fails s m w w1 -> s w <> (w2, Resolved tt).
Proof. intros (e & w3 & H & _). rewrite H. discriminate. Qed.

Lemma or_else_settles m s next :
  (forall w, snd (s w) <> Pending) ->
  (forall w, snd (next w) <> Pending) ->
  forall w, snd (or_else m s next w) <> Pending.
Proof.
  intros Hs Hnext w. specialize (Hs w).
  destruct (s w) as [w1 [[]|e|]] eqn:E; cbn in *.
  - now rewrite (or_else_resolved _ _ _ _ _ E).
  - rewrite (or_else_rejected _ _ _ _ _ _ E). apply Hnext.
  - contradiction.
Qed.

Lemma last_resort_eq url fn w :
  last_resort io url fn w =
  (fst (downloadViaNewTab io url fn w), Resolved (succeeded newtab)).
Proof.
  unfold last_resort, bind, attempt.
  destruct (downloadViaNewTab_spec io url fn w) as (_ & _ & Hr & _).
  destruct (downloadViaNewTab io url fn w) as [w1 r]. cbn in *.
  now subst r.
Qed.

Lemma last_resort_chain url fn w :
  chain_ok [newtab] w (last_resort io url fn w).
Proof.
  rewrite last_resort_eq.
  destruct (downloadViaNewTab_spec io url fn w)
    as ((d & Hc & Ha & Hf) & Hfl & _ & _).
  split; [exact Hfl|]. exists d, [newtab], []. cbn.
  repeat split; auto. discriminate.
Qed.

Lemma downloadFile_chain url fn opts w :
  truthy url = true -> truthy fn = true ->
  downloadFile io url fn opts w = chain io url fn opts (started url fn w).
Proof.
  intros Hu Hf. unfold downloadFile. rewrite Hu, Hf. reflexivity.
Qed.

Lemma downloadFile_required url fn opts w :
  truthy url = false \/ truthy fn = false ->
  downloadFile io url fn opts w =
  (w, Rejected (Error "URL and filename are required")).
Proof.
  intros [H|H]; unfold downloadFile; rewrite H; cbn;
    rewrite ?orb_true_r; reflexivity.
Qed.


Lemma chain_account url fn opts w :
  chain_ok (plan (isImage url)) w (chain io url fn opts w).
Proof.
  revert w. unfold chain, plan.
  apply or_else_chain.
  { intros w. destruct (downloadViaDirectFetch_spec io url fn w)
      as (H1 & H2 & _). now split. }
  apply or_else_chain.
  { intros w. destruct (downloadViaFetch_spec io url fn opts w)
      as (H1 & H2 & _). now split. }
  apply or_else_chain.
  { intros w. destruct (downloadViaXHR_spec io url fn opts w)
      as (H1 & H2 & _). now split. }
  assert (Htail : forall w,
             chain_ok [iframe; newtab] w
               (or_else iframe (downloadViaIframe io url fn)
                  (last_resort io url fn) w)).
  { apply or_else_chain.
    - intros w. destruct (downloadViaIframe_spec io url fn w)
        as (H1 & H2 & _). now split.
    - apply last_resort_chain. }
  destruct (isImage url); cbn.
  - apply or_else_chain; [|exact Htail].
    intros w. destruct (downloadViaCanvas_spec io url fn w)
      as (H1 & H2 & _). now split.
  - exact Htail.
Qed.

Lemma chain_settles url fn opts :
  reliable io -> responsive io ->
  forall w, snd (chain io url fn opts w) <> Pending.
Proof.
  intros Hio Hre. unfold chain.
  apply or_else_settles.
  { intros w. now apply (downloadViaDirectFetch_spec io url fn w). }
  apply or_else_settles.
  { intros w. now apply (downloadViaFetch_spec io url fn opts w). }
  apply or_else_settles.
  { intros w. now apply (downloadViaXHR_spec io url fn opts w). }
  assert (Htail : forall w,
             snd (or_else iframe (downloadViaIframe io url fn)
                    (last_resort io url fn) w) <> Pending).
  { apply or_else_settles.
    - intros w. apply (downloadViaIframe_spec io url fn w).
    - intros w. rewrite last_resort_eq. discriminate. }
  destruct (isImage url); [|exact Htail].
  apply or_else_settles; [|exact Htail].
  intros w. now apply (downloadViaCanvas_spec io url fn w).
Qed.












End OrchestratorFacts.

(** ** The claims on [downloadFile] *)

Section OrchestratorClaims.

Variable io : browser.

Lemma last_in_list {A} (l : list A) (d : A) : l <> [] -> In (last l d) l.
Proof.
  induction l as [|x l IH]; [contradiction|]. intros _.
  destruct l as [|y l]; [now left|]. right. apply IH. discriminate.
Qed.





(** C1 (as amended). With an empty URL or an empty filename the promise
    of [downloadFile] rejects with "URL and filename are required" and
    nothing else happens. With both given it never rejects: it resolves
    to [{success: true, method}] for one of the six strategies, or it
    never settles. Where every request is answered and no guarded call
    on a link throws, it resolves. *)
Theorem C1_rejects_only_without_url_or_filename url fn opts w :
  (truthy url = false \/ truthy fn = false ->
   downloadFile io url fn opts w
   = (w, Rejected (Error "URL and filename are required"))) /\
  (truthy url = true -> truthy fn = true ->
   (exists w' m,
      downloadFile io url fn opts w = (w', Resolved (succeeded m)) /\
      m <> none) \/
   snd (downloadFile io url fn opts w) = Pending) /\
  (truthy url = true -> truthy fn = true ->
   reliable io -> responsive io ->
   exists w' m,
     downloadFile io url fn opts w = (w', Resolved (succeeded m)) /\
     m <> none).
Proof.
  split; [apply downloadFile_required|].
  assert (Hmain : truthy url = true -> truthy fn = true ->
    (exists w' m,
      downloadFile io url fn opts w = (w', Resolved (succeeded m)) /\
      m <> none) \/
    snd (downloadFile io url fn opts w) = Pending).
  { intros Hu Hf. rewrite (downloadFile_chain io url fn opts w Hu Hf).
    destruct (chain_account io url fn opts (started url fn w))
      as (_ & d & tried & rest & Hc & Hp & Hne & Ha & Hfl & Hres).
    assert (Hin : In (last tried none) (plan (isImage url))).
    { rewrite Hp. apply in_or_app. left. now apply last_in_list. }
    destruct (chain io url fn opts (started url fn w)) as [w' r].
    cbn in Hres. destruct Hres as [-> | ->].
    - left. exists w', (last tried none). split; [reflexivity|].
      intros E. rewrite E in Hin.
      destruct (isImage url); cbn in Hin;
        repeat (destruct Hin as [Hin|Hin]; [discriminate|]); contradiction.
    - now right. }
  split; [exact Hmain|].
  intros Hu Hf Hio Hre. destruct (Hmain Hu Hf) as [H|Hp]; [exact H|].
  exfalso. rewrite (downloadFile_chain io url fn opts w Hu Hf) in Hp.
  now apply (chain_settles io url fn opts Hio Hre (started url fn w)).
Qed.

(** C5 (as amended). For a URL that is no image URL (it holds no
    "image" and no [.jpg], [.jpeg], [.png], [.webp] or [.gif] before a
    question mark or its end), a call of [downloadFile] never enters the
    canvas strategy, whatever the other strategies do. *)
Theorem C5_canvas_only_for_image_urls url fn opts w :
  isImage url = false ->
  exists delta,
    console (fst (downloadFile io url fn opts w)) = console w ++ delta /\
    ~ In canvas (attempts delta).
Proof.
  intros Hi.
  destruct (truthy url) eqn:Hu; [destruct (truthy fn) eqn:Hf|].
  - rewrite (downloadFile_chain io url fn opts w Hu Hf).
    destruct (chain_account io url fn opts (started url fn w))
      as (_ & d & tried & rest & Hc & Hp & Hne & Ha & Hfl & Hres).
    exists (LogStart fn (isImage url)
              (includes "firebasestorage.googleapis.com" url) :: d).
    rewrite Hc. cbn. rewrite <- app_assoc. split; [reflexivity|].
    rewrite Ha. intros Hin.
    assert (Hin' : In canvas (plan (isImage url)))
      by (rewrite Hp; apply in_or_app; now left).
    rewrite Hi in Hin'. cbn in Hin'.
    repeat (destruct Hin' as [Hin'|Hin']; [discriminate|]). contradiction.
  - rewrite downloadFile_required by now right.
    exists []. cbn. rewrite app_nil_r. split; [reflexivity|]. intros [].
  - rewrite downloadFile_required by now left.
    exists []. cbn. rewrite app_nil_r. split; [reflexivity|]. intros [].
Qed.

End OrchestratorClaims.

Lemma C1_counterexample :
  downloadFile offline "" "kitchen.jpg" default_options empty_world
  = (empty_world, Rejected (Error "URL and filename are required")) /\
  ~ (exists w' o,
       downloadFile offline "" "kitchen.jpg" default_options empty_world
       = (w', Resolved o)).
Proof.
  split; [vm_compute; reflexivity|].
  intros (w' & o & H). vm_compute in H. discriminate H.
Qed.

Lemma offline_responsive : responsive offline.
Proof. repeat split; intros; cbn in *; congruence. Qed.

(** A host that never answers leaves the promise of [downloadFile]
    pending. *)
Example silent_host_never_settles :
  snd (downloadFile silent_host "https://photos.example/kitchen.jpg"
         "kitchen" default_options empty_world) = Pending.
Proof. vm_compute. reflexivity. Qed.

Lemma C1_witness :
  (truthy "" = false \/ truthy "kitchen" = false) /\
  downloadFile offline "" "kitchen" default_options empty_world
  = (empty_world, Rejected (Error "URL and filename are required")) /\
  truthy "https://photos.example/kitchen.jpg" = true /\
  truthy "kitchen" = true /\
  reliable offline /\ responsive offline /\
  exists w' m,
    downloadFile offline "https://photos.example/kitchen.jpg" "kitchen"
                 default_options empty_world
    = (w', Resolved (succeeded m)) /\ m <> none.
Proof.
  assert (H0 : truthy "" = false \/ truthy "kitchen" = false)
    by (left; reflexivity).
  assert (Hr : reliable offline) by (intros n op; reflexivity).
  split; [exact H0|]. split.
  - exact (proj1 (C1_rejects_only_without_url_or_filename
                    offline "" "kitchen" default_options empty_world) H0).
  - assert (Hu : truthy "https://photos.example/kitchen.jpg" = true)
      by reflexivity.
    assert (Hf : truthy "kitchen" = true) by reflexivity.
    split; [exact Hu|]. split; [exact Hf|]. split; [exact Hr|].
    split; [exact offline_responsive|].
    exact (proj2 (proj2 (C1_rejects_only_without_url_or_filename
                    offline "https://photos.example/kitchen.jpg" "kitchen"
                    default_options empty_world))
             Hu Hf Hr offline_responsive).
Defined.


Lemma C5_counterexample :
  let url := "https://cdn.example/images/clip.mp4" in
  (forall n, exists r,
      fetch_answer broken_video n url = FetchResponds r /\
      contentType r = Some "video/mp4") /\
  In canvas
     (attempts (console (fst (downloadFile broken_video url "clip"
                                default_options empty_world)))).
Proof.
  split.
  - intros n. eexists. split; reflexivity.
  - vm_compute. tauto.
Qed.

Lemma C5_witness :
  isImage "https://cdn.example/videos/clip.mp4" = false /\
  exists delta,
    console (fst (downloadFile broken_video
                    "https://cdn.example/videos/clip.mp4" "clip"
                    default_options empty_world))
    = console empty_world ++ delta /\
    ~ In canvas (attempts delta).
Proof.
  assert (Hi : isImage "https://cdn.example/videos/clip.mp4" = false)
    by (vm_compute; reflexivity).
  split; [exact Hi|].
  exact (C5_canvas_only_for_image_urls broken_video
           "https://cdn.example/videos/clip.mp4" "clip" default_options
           empty_world Hi).
Defined.
(** ** The batch runner *)

Section BatchFacts.

Variable io : browser.

Lemma downloadFile_account url fn opts w :
  let res := downloadFile io url fn opts w in
  flight (fst res) = flight w /\
  (forall e, snd res = Rejected e -> truthy url && truthy fn = false) /\
  (reliable io -> responsive io -> snd res <> Pending).
Proof.
  cbn zeta.
  destruct (truthy url) eqn:Hu; [destruct (truthy fn) eqn:Hf|].
  - rewrite (downloadFile_chain io url fn opts w Hu Hf).
    destruct (chain_account io url fn opts (started url fn w))
      as (Hfl & d & tried & rest & Hc & Hp & Hne & Ha & _ & Hres).
    split; [exact Hfl|]. split.
    + intros e He. destruct Hres as [H|H]; rewrite H in He; discriminate.
    + intros Hio Hre. now apply chain_settles.
  - rewrite downloadFile_required by now right. cbn.
    split; [reflexivity|]. split; [reflexivity|discriminate].
  - rewrite downloadFile_required by now left. cbn.
    split; [reflexivity|]. split; [reflexivity|discriminate].
Qed.

(** *** Callbacks *)

Lemma between_calls_refl w : between_calls w w.
Proof. repeat split. Qed.

Lemma between_calls_trans w1 w2 w3 :
  between_calls w1 w2 -> between_calls w2 w3 -> between_calls w1 w3.
Proof. unfold between_calls. intuition congruence. Qed.

Lemma between_calls_flight f w : between_calls w (with_flight f w).
Proof. repeat split. Qed.

Lemma call_account {A} f (a : A) w :
  flight (fst (call f a w)) = flight w /\
  between_calls w (fst (call f a w)) /\
  snd (call f a w) <> Pending.
Proof.
  unfold call, bind, ask, throw, ret. destruct f as [f|]; cbn.
  - destruct (f (tick w) a); cbn; repeat split; discriminate.
  - repeat split; discriminate.
Qed.

Lemma call_returns {A} f (a : A) w :
  (forall g n r, f = Some g -> g n r = None) ->
  snd (call f a w) = Resolved tt.
Proof.
  intros H. unfold call, bind, ask, throw, ret. destruct f as [f|]; cbn.
  - now rewrite (H f _ _ eq_refl).
  - reflexivity.
Qed.

Lemma item_failed_account opts i f e t w :
  exists w' rejected,
    item_failed opts i f e t w
    = (w', Resolved (pushed {| entry_url := file_url f;
                               entry_filename := file_filename f;
                               entry_success := false;
                               entry_method := none;
                               entry_error := Some (err_message e);
                               entry_index := i |} t, rejected)) /\
    flight w' = flight w /\ between_calls w w' /\
    (courteous opts -> rejected = None).
Proof.
  unfold item_failed, bind, attempt, ret.
  match goal with
  | |- context [call ?c ?a w] =>
      destruct (call_account c a w) as (Hf & Hb & Hp);
      pose proof (call_returns c a w) as Hr;
      destruct (call c a w) as [w1 [[]|x|]]
  end; cbn in *; [| |contradiction].
  - exists w1, None. repeat split; auto; apply Hb.
  - exists w1, (Some x). split; [reflexivity|]. split; [exact Hf|].
    split; [exact Hb|]. intros [_ Hc]. specialize (Hr Hc). discriminate.
Qed.

(** *** One item *)

Lemma download_item_flight opts i f t w :
  flight (fst (download_item io opts i f t w)) = flight w /\
  forall e, snd (download_item io opts i f t w) <> Rejected e.
Proof.
  unfold download_item, bind, attempt, ret.
  destruct (downloadFile_account (file_url f) (file_filename f) opts w)
    as (Hfl & _).
  destruct (downloadFile io (file_url f) (file_filename f) opts w)
    as [w1 [o|e|]]; cbn in *.
  - match goal with
    | |- context [call ?c ?a w1] =>
        destruct (call_account c a w1) as (Hf & _ & Hp);
        destruct (call c a w1) as [w2 [[]|x|]]
    end; cbn in *; [| |contradiction].
    + split; [congruence|discriminate].
    + match goal with
      | |- context [item_failed opts i f x ?T w2] =>
          destruct (item_failed_account opts i f x T w2)
            as (w3 & rej & -> & Hf3 & _)
      end.
      cbn. split; [congruence|discriminate].
  - destruct (item_failed_account opts i f e t w1)
      as (w3 & rej & -> & Hf3 & _).
    cbn. split; [congruence|discriminate].
  - split; [exact Hfl|discriminate].
Qed.

Lemma download_item_courteous opts i f t w :
  courteous opts ->
  let r := downloadFile io (file_url f) (file_filename f) opts w in
  match snd r with
  | Pending => snd (download_item io opts i f t w) = Pending
  | _ =>
      exists w' e,
        download_item io opts i f t w = (w', Resolved (pushed e t, None)) /\
        between_calls (fst r) w' /\ records i f (snd r) e
  end.
Proof.
  intros Hc. cbn zeta. unfold download_item, bind, attempt, ret.
  destruct (downloadFile io (file_url f) (file_filename f) opts w)
    as [w1 [o|e|]]; cbn.
  - match goal with
    | |- context [call ?c ?a w1] =>
        destruct (call_account c a w1) as (_ & Hb & _);
        pose proof (call_returns c a w1 (proj2 Hc)) as Hr;
        destruct (call c a w1) as [w2 [[]|x|]]
    end; cbn in *; try discriminate.
    exists w2, {| entry_url := file_url f;
                  entry_filename := file_filename f;
                  entry_success := success o;
                  entry_method := outcome_method o;
                  entry_error := outcome_error o;
                  entry_index := i |}.
    split; [reflexivity|]. split; [exact Hb|]. now repeat split.
  - destruct (item_failed_account opts i f e t w1)
      as (w3 & rej & -> & _ & Hb & Hn).
    rewrite (Hn Hc). eexists w3, _. split; [reflexivity|].
    split; [exact Hb|]. now repeat split.
  - reflexivity.
Qed.

(** *** The items of a batch *)

Lemma attempted_before opts l w0 w es w' :
  between_calls w0 w -> attempted io opts l w es w' ->
  attempted io opts l w0 es w'.
Proof.
  intros Hb H. inversion H; subst.
  - constructor. eapply between_calls_trans; eassumption.
  - econstructor; [|eassumption|eassumption].
    eapply between_calls_trans; eassumption.
Qed.

Lemma attempted_app opts l1 : forall w es1 w1 l2 es2 w2,
  attempted io opts l1 w es1 w1 -> attempted io opts l2 w1 es2 w2 ->
  attempted io opts (l1 ++ l2) w (es1 ++ es2) w2.
Proof.
  induction l1 as [|[i f] l1 IH]; intros w es1 w1 l2 es2 w2 H1 H2;
    inversion H1; subst; cbn.
  - eapply attempted_before; eassumption.
  - econstructor; [eassumption|eassumption|].
    eapply IH; eassumption.
Qed.

Lemma attempted_entries opts l w es w' :
  attempted io opts l w es w' ->
  map entry_index es = map fst l /\
  Forall2 (fun p e => entry_url e = file_url (snd p) /\
                      entry_filename e = file_filename (snd p)) l es.
Proof.
  induction 1 as [|i f rest w w0 e es w' Hb (Hi & Hu & Hn & _) _ [IH1 IH2]];
    cbn.
  - split; constructor.
  - split; [now rewrite Hi, IH1|]. constructor; [now split|exact IH2].
Qed.

Lemma and_then_resolved g : and_then AllResolved g = g.
Proof. now destruct g. Qed.

Lemma run_items_courteous opts items : courteous opts -> forall t w,
  let res := run_items io opts items t w in
  match snd res with
  | AllResolved =>
      exists es,
        attempted io opts items w es (fst (fst res)) /\
        snd (fst res) = fold_left (fun t e => pushed e t) es t
  | OneRejected _ => False
  | StillWaiting => ~ (reliable io /\ responsive io)
  end.
Proof.
  intros Hc. induction items as [|[i f] items IH]; intros t w; cbn zeta;
    cbn [run_items].
  - cbn. exists []. split; [constructor; apply between_calls_refl|reflexivity].
  - pose proof (download_item_courteous opts i f t w Hc) as Hd.
    cbn zeta in Hd.
    destruct (downloadFile_account (file_url f) (file_filename f) opts w)
      as (_ & _ & Hlive).
    destruct (snd (downloadFile io (file_url f) (file_filename f) opts w))
      as [o|e|] eqn:Er.
    3: { destruct (download_item io opts i f t w) as [w1 r1]. cbn in Hd.
         subst r1. specialize (IH t w1).
         destruct (run_items io opts items t w1) as [[w2 t2] later].
         cbn [fst snd] in *.
         destruct later; cbn in *; try contradiction;
           intros [Hio Hre]; now apply (Hlive Hio Hre). }
    all: destruct Hd as (w1 & e0 & -> & Hb & Hrec).
    all: specialize (IH (pushed e0 t) (fst (settle i w1))).
    all: destruct (run_items io opts items (pushed e0 t) (fst (settle i w1)))
           as [[w2 t2] later].
    all: cbn [fst snd of_item] in *; rewrite and_then_resolved.
    all: destruct later; try exact IH.
    all: destruct IH as (es & Hat & Ht).
    all: exists (e0 :: es); split; [|exact Ht].
    all: econstructor;
      [apply between_calls_refl | rewrite Er; exact Hrec |].
    all: eapply attempted_before; [|exact Hat].
    all: eapply between_calls_trans; [exact Hb|].
    all: apply between_calls_flight.
Qed.

Lemma launch_items_courteous opts total items : courteous opts -> forall t w,
  exists w',
    launch_items opts total (map (fun p => (fst p, Some (snd p))) items)
                 t w
    = (w', t, items, AllResolved) /\
    between_calls w w'.
Proof.
  intros Hc. induction items as [|[i f] items IH]; intros t w;
    cbn [map launch_items fst snd].
  - exists w. split; [reflexivity|apply between_calls_refl].
  - unfold bind, attempt, launch.
    match goal with
    | |- context [call ?c ?a ?W] =>
        destruct (call_account c a W) as (_ & Hb & _);
        pose proof (call_returns c a W (proj1 Hc)) as Hr;
        destruct (call c a W) as [w1 [[]|x|]]
    end; cbn in Hr; try discriminate.
    destruct (IH t w1) as (w' & -> & Hb').
    exists w'. split; [reflexivity|].
    eapply between_calls_trans; [|exact Hb'].
    eapply between_calls_trans; [|exact Hb]. apply between_calls_flight.
Qed.

Lemma insert_by_perm {A} (key : A -> nat) x l :
  Permutation (insert_by key x l) (x :: l).
Proof.
  induction l as [|y l IH]; cbn; [reflexivity|].
  destruct (key x <=? key y); [reflexivity|].
  rewrite IH. apply perm_swap.
Qed.

Lemma sort_by_perm {A} (key : A -> nat) l : Permutation (sort_by key l) l.
Proof.
  induction l as [|x l IH]; cbn; [reflexivity|].
  rewrite insert_by_perm. now constructor.
Qed.

Lemma filter_length_perm {A} (f : A -> bool) l l' :
  Permutation l l' -> length (filter f l) = length (filter f l').
Proof.
  induction 1 as [|x l l' _ IH|x y l|l l' l'' _ IH1 _ IH2]; cbn.
  - reflexivity.
  - destruct (f x); cbn; now rewrite IH.
  - destruct (f x), (f y); reflexivity.
  - now rewrite IH1.
Qed.

Lemma indexed_fst {A} (b : list A) i : map fst (indexed i b) = seq i (length b).
Proof.
  unfold indexed. revert i.
  induction b as [|x b IH]; intros i; cbn; [reflexivity|].
  now rewrite IH.
Qed.

Lemma indexed_snd {A} (b : list A) i : map snd (indexed i b) = b.
Proof.
  unfold indexed. revert i.
  induction b as [|x b IH]; intros i; cbn; [reflexivity|].
  now rewrite IH.
Qed.

Lemma indexed_app {A} (a b : list A) i :
  indexed i (a ++ b) = indexed i a ++ indexed (i + length a) b.
Proof.
  unfold indexed. revert i.
  induction a as [|x a IH]; intros i; cbn.
  - now rewrite Nat.add_0_r.
  - f_equal. rewrite IH. now rewrite Nat.add_succ_r.
Qed.

Lemma indexed_Some {A} (b : list A) i :
  combine (seq i (length (map Some b))) (map Some b)
  = map (fun p => (fst p, Some (snd p))) (indexed i b).
Proof.
  unfold indexed. rewrite length_map. revert i.
  induction b as [|x b IH]; intros i; cbn; [reflexivity|].
  now rewrite IH.
Qed.

Lemma indexed_nth {A} (b : list A) i :
  Forall (fun p => i <= fst p /\ nth_error b (fst p - i) = Some (snd p))
         (indexed i b).
Proof.
  unfold indexed. revert i.
  induction b as [|x b IH]; intros i; cbn; constructor.
  - cbn. rewrite Nat.sub_diag. split; [lia|reflexivity].
  - eapply Forall_impl; [|apply (IH (S i))]. cbn. intros [j f] [Hj Hn]. cbn in *.
    split; [lia|]. replace (j - i) with (S (j - S i)) by lia. exact Hn.
Qed.

Lemma slice_Some {A} (l : list A) i j :
  slice i j (map Some l) = map Some (slice i j l).
Proof. unfold slice. now rewrite skipn_map, firstn_map. Qed.

Lemma slice_length {A} (l : list A) i N :
  length (slice i (i + N) l) = Nat.min N (length l - i).
Proof. unfold slice. rewrite length_firstn, length_skipn. f_equal. lia. Qed.

Lemma slice_rest {A} (l : list A) i N :
  skipn i l = slice i (i + N) l ++ skipn (i + N) l.
Proof.
  unfold slice. replace (i + N - i) with N by lia.
  rewrite (Nat.add_comm i N), <- skipn_skipn. symmetry. apply firstn_skipn.
Qed.

(** One turn of the loop over an array without holes, with callbacks
    that return. *)
Lemma run_batch_courteous opts total i b t w :
  courteous opts ->
  let res := run_batch io opts total i (map Some b) t w in
  match snd res with
  | AllResolved =>
      exists order es,
        Permutation order (indexed i b) /\
        attempted io opts order w es (fst (fst res)) /\
        snd (fst res) = fold_left (fun t e => pushed e t) es t
  | OneRejected _ => False
  | StillWaiting => ~ (reliable io /\ responsive io)
  end.
Proof.
  intros Hc. cbn zeta. unfold run_batch. rewrite indexed_Some.
  destruct (launch_items_courteous opts total (indexed i b) Hc t w)
    as (w1 & -> & Hb).
  set (sorted := sort_by (fun p => finish_time io (fst p)) (indexed i b)).
  pose proof (run_items_courteous opts sorted Hc t w1) as H.
  cbn zeta in H.
  destruct (run_items io opts sorted t w1) as [[w2 t2] g].
  cbn [fst snd] in *. rewrite and_then_resolved.
  destruct g; try exact H.
  destruct H as (es & Hat & Ht). exists sorted, es.
  split; [apply sort_by_perm|]. split; [|exact Ht].
  eapply attempted_before; eassumption.
Qed.

Lemma pushed_results es : forall t,
  tally_results (fold_left (fun t e => pushed e t) es t)
  = tally_results t ++ es /\
  tally_successful (fold_left (fun t e => pushed e t) es t)
  = tally_successful t + length (filter entry_success es) /\
  tally_failed (fold_left (fun t e => pushed e t) es t)
  = tally_failed t + length (filter (fun e => negb (entry_success e)) es).
Proof.
  induction es as [|e es IH]; intros t; cbn [fold_left].
  - cbn. rewrite app_nil_r. repeat split; lia.
  - destruct (IH (pushed e t)) as (-> & -> & ->). cbn.
    rewrite <- app_assoc. destruct (entry_success e); cbn; repeat split; lia.
Qed.

Lemma fold_pushed_app es es' t :
  fold_left (fun t e => pushed e t) (es ++ es') t
  = fold_left (fun t e => pushed e t) es'
      (fold_left (fun t e => pushed e t) es t).
Proof. apply fold_left_app. Qed.

Lemma same_batch N q k x :
  k <= N -> In x (seq (q * N) k) -> x / N = q.
Proof.
  intros Hk Hx. apply in_seq in Hx. symmetry.
  apply (Nat.div_unique x N q (x - q * N)); lia.
Qed.

(** The loop over an array without holes, with callbacks that return:
    every item from [q * N] on is downloaded once, the items of a batch
    in the order in which the browser finishes them, batch after
    batch. *)
Lemma batches_courteous opts items turns :
  1 <= concurrency opts -> courteous opts ->
  forall q t w,
    length items <= q * concurrency opts + turns ->
    let res := batches io opts (map Some items) turns
                 (q * concurrency opts) t w in
    match snd res with
    | Resolved t' =>
        exists order es,
          Permutation order
            (indexed (q * concurrency opts)
                     (skipn (q * concurrency opts) items)) /\
          attempted io opts order w es (fst res) /\
          t' = fold_left (fun t e => pushed e t) es t /\
          (forall p e, nth_error es p = Some e ->
                       entry_index e / concurrency opts
                       = (q * concurrency opts + p) / concurrency opts)
    | Rejected _ => False
    | Pending => ~ (reliable io /\ responsive io)
    end.
Proof.
  intros HN Hc. induction turns as [|turns IH]; intros q t w Hfuel;
    cbn zeta; cbn [batches]; rewrite length_map;
    destruct (Nat.ltb_spec (q * concurrency opts) (length items)) as [Hi|Hi];
    try lia.
  1, 3: cbn; exists [], []; rewrite skipn_all2 by exact Hi;
    split; [reflexivity|]; split;
    [constructor; apply between_calls_refl|];
    split; [reflexivity|]; intros [|p] e; discriminate.
  set (N := concurrency opts) in *. set (i := q * N) in *.
  rewrite slice_Some.
  pose proof (run_batch_courteous opts (length items) i
                (slice i (i + N) items) t w Hc) as H.
  cbn zeta in H.
  pose proof (slice_length items i N) as Hlen.
  pose proof (slice_rest items i N) as Hrest.
  set (b := slice i (i + N) items) in *.
  destruct (run_batch io opts (length items) i (map Some b) t w)
    as [[w1 t1] g].
  cbn [fst snd] in *. destruct g; try exact H.
  destruct H as (order & es & Hp & Hat & Ht).
  specialize (IH (S q) t1 w1). cbn [Nat.mul] in IH.
  replace (N + q * N) with (i + N) in IH by (unfold i; lia).
  specialize (IH ltac:(lia)). cbn zeta in IH.
  destruct (batches io opts (map Some items) turns (i + N) t1 w1)
    as [w2 [t2|e|]]; cbn [fst snd] in *; try exact IH.
  destruct IH as (order' & es' & Hp' & Hat' & Ht' & Hg').
  destruct (attempted_entries _ _ _ _ _ Hat) as [Hidx _].
  assert (Hidxp : Permutation (map entry_index es) (seq i (length b))).
  { rewrite Hidx, <- indexed_fst. now apply Permutation_map. }
  assert (Hles : length es = length b)
    by (rewrite <- (length_map entry_index es), (Permutation_length Hidxp);
        apply length_seq).
  assert (Hlast : length b < N -> es' = []).
  { intros Hlt. rewrite skipn_all2 in Hp' by lia. cbn in Hp'.
    apply Permutation_sym, Permutation_nil in Hp'. subst order'.
    now inversion Hat'. }
  exists (order ++ order'), (es ++ es'). split; [|split; [|split]].
  - rewrite Hrest, indexed_app.
    apply Permutation_app; [exact Hp|].
    destruct (Nat.eq_dec (length b) N) as [E|E]; [now rewrite E|].
    rewrite skipn_all2 in Hp' |- * by lia. exact Hp'.
  - eapply attempted_app; eassumption.
  - now rewrite fold_pushed_app, <- Ht.
  - intros p e Hn.
    destruct (Nat.lt_ge_cases p (length es)) as [Hlt|Hge].
    + rewrite nth_error_app1 in Hn by exact Hlt.
      assert (Hin : In (entry_index e) (seq (q * N) (length b))).
      { apply (Permutation_in _ Hidxp), in_map, (nth_error_In _ _ Hn). }
      assert (Hpin : In (i + p) (seq (q * N) (length b)))
        by (apply in_seq; unfold i; lia).
      assert (Hk : length b <= N) by lia.
      now rewrite (same_batch _ _ _ _ Hk Hin), (same_batch _ _ _ _ Hk Hpin).
    + rewrite nth_error_app2 in Hn by exact Hge.
      destruct (Nat.eq_dec (length b) N) as [E|E].
      * rewrite (Hg' _ _ Hn). f_equal. lia.
      * rewrite Hlast in Hn by lia. destruct (p - length es); discriminate.
Qed.

(** *** The record of the flights *)

Lemma fly_app acc a b : fly acc (a ++ b) = fly (fly acc a) b.
Proof.
  revert acc. induction a as [|[i|i] a IH]; intros acc; cbn; auto.
Qed.

Lemma fly_length acc l : length (fly acc l) <= length acc + length (launches l).
Proof.
  revert acc. induction l as [|[i|i] l IH]; intros acc; cbn; [lia| |].
  - etransitivity; [apply IH|]. rewrite length_app. cbn. lia.
  - etransitivity; [apply IH|].
    pose proof (filter_length_le (fun j => negb (j =? i)) acc). lia.
Qed.

Lemma fly_incl acc l : incl (fly acc l) (acc ++ launches l).
Proof.
  revert acc. induction l as [|[i|i] l IH]; intros acc; cbn.
  - rewrite app_nil_r. apply incl_refl.
  - eapply incl_tran; [apply IH|]. rewrite <- app_assoc. apply incl_refl.
  - eapply incl_tran; [apply IH|]. apply incl_app.
    + eapply incl_tran; [apply incl_filter|]. now apply incl_appl.
    + now apply incl_appr.
Qed.

Lemma fly_settles_all acc l : incl acc l -> fly acc (map Settle l) = [].
Proof.
  revert acc. induction l as [|x l IH]; intros acc H; cbn.
  - destruct acc as [|y acc]; [reflexivity|]. destruct (H y). now left.
  - apply IH. intros y Hy. apply filter_In in Hy as [Hy Hne].
    destruct (H y Hy) as [->|Hin]; [|exact Hin].
    now rewrite Nat.eqb_refl in Hne.
Qed.

Lemma launches_app a b : launches (a ++ b) = launches a ++ launches b.
Proof.
  induction a as [|[i|i] a IH]; cbn; [reflexivity| |exact IH].
  now rewrite IH.
Qed.

Lemma launches_settles l : launches (map Settle l) = [].
Proof. induction l; cbn; auto. Qed.

Lemma launches_indices l :
  incl (launches l) (map index_of l).
Proof.
  induction l as [|[i|i] l IH]; cbn.
  - apply incl_refl.
  - apply incl_cons; [now left|]. now apply incl_tl.
  - now apply incl_tl.
Qed.

Lemma round_orderly N q k l :
  k <= N -> round (q * N) k l -> orderly N l.
Proof.
  intros Hk [Hin Hnd].
  assert (Hl : forall p s, l = p ++ s -> incl (launches p) (seq (q * N) k)).
  { intros p s ->. apply Forall_app in Hin as [Hp _].
    intros x Hx. apply launches_indices in Hx.
    apply in_map_iff in Hx as (ev & <- & Hev).
    rewrite Forall_forall in Hp. now apply Hp. }
  split.
  - intros p s E. etransitivity; [apply fly_length|]. cbn.
    assert (Hndp : NoDup (launches p)).
    { rewrite E, launches_app in Hnd. now apply NoDup_app_remove_r in Hnd. }
    apply Nat.le_trans with (length (seq (q * N) k));
      [|now rewrite length_seq].
    apply NoDup_incl_length; [exact Hndp|]. now apply (Hl p s).
  - intros p j s E i Hi.
    apply fly_incl in Hi. cbn in Hi. apply (Hl p _ E) in Hi.
    assert (Hj : In j (seq (q * N) k)).
    { rewrite E in Hin. apply Forall_app in Hin as [_ Hin].
      inversion Hin; subst. assumption. }
    now rewrite (same_batch N q k i), (same_batch N q k j).
Qed.

Lemma orderly_nil N : orderly N [].
Proof.
  split.
  - intros p s E. symmetry in E. apply app_eq_nil in E as [-> _]. cbn. lia.
  - intros p j s E. destruct p; discriminate.
Qed.

Lemma orderly_app N l1 l2 :
  orderly N l1 -> in_flight l1 = [] -> orderly N l2 -> orderly N (l1 ++ l2).
Proof.
  intros [B1 S1] Hret [B2 S2]. split.
  - intros p s E. apply app_eq_app in E as (l & [[E1 E2]|[E1 E2]]).
    + now apply (B1 p l).
    + subst p. unfold in_flight in *. rewrite fly_app, Hret.
      now apply (B2 l s).
  - intros p j s E i Hi. apply app_eq_app in E as (l & [[E1 E2]|[E1 E2]]).
    + destruct l as [|e l].
      * rewrite app_nil_r in E1. subst p. cbn in E2.
        unfold in_flight in *. rewrite Hret in Hi. contradiction.
      * injection E2 as <- _. now apply (S1 p j l).
    + subst p. unfold in_flight in *. rewrite fly_app, Hret in Hi.
      now apply (S2 l j s).
Qed.

(** The launches of a batch, whatever the array holds and whatever the
    callbacks do: the items that wait are in flight, those that failed
    at [onProgress] have settled. *)
Lemma launch_items_flight opts total items : forall t w,
  NoDup (map fst items) ->
  let res := launch_items opts total items t w in
  let waiting := snd (fst res) in
  exists evs,
    flight (fst (fst (fst res))) = flight w ++ evs /\
    Forall (fun ev => In (index_of ev) (map fst items)) evs /\
    NoDup (launches evs) /\
    incl (map fst waiting) (map fst items) /\
    (forall acc, (forall x, In x acc -> ~ In x (map fst items)) ->
                 fly acc evs = acc ++ map fst waiting).
Proof.
  induction items as [|[i [f|]] items IH]; intros t w Hnd; cbn zeta;
    cbn [launch_items].
  - exists []. cbn. rewrite app_nil_r. repeat split; try constructor.
    + apply incl_refl.
    + intros acc _. now rewrite app_nil_r.
  - cbn [map fst] in Hnd. inversion Hnd as [|? ? Hni Hnd']; subst.
    unfold bind, attempt, launch.
    match goal with
    | |- context [call ?c ?a ?W] =>
        destruct (call_account c a W) as (Hcf & _ & Hcp);
        destruct (call c a W) as [w1 [[]|x|]]
    end; cbn [fst snd flight with_flight] in Hcf, Hcp; [| |contradiction].
    + specialize (IH t w1 Hnd'). cbn zeta in IH.
      destruct (launch_items opts total items t w1)
        as [[[w3 t3] waiting] later].
      cbn [fst snd map] in *.
      destruct IH as (evs & Hfl & Hin & Hl & Hw & Hfly).
      exists (Launch i :: evs). split; [|split; [|split; [|split]]].
      * rewrite Hfl, Hcf, <- app_assoc. reflexivity.
      * constructor; [now left|].
        eapply Forall_impl; [|exact Hin]. cbn. auto.
      * cbn. constructor; [|exact Hl]. intros Hx. apply Hni.
        apply launches_indices in Hx.
        apply in_map_iff in Hx as (ev & <- & Hev).
        rewrite Forall_forall in Hin. now apply Hin.
      * apply incl_cons; [now left|]. now apply incl_tl.
      * intros acc Hacc. cbn. rewrite Hfly, <- app_assoc; [reflexivity|].
        intros y Hy. apply in_app_or in Hy as [Hy|[<-|[]]].
        -- intros Hy'. apply (Hacc y Hy). now right.
        -- exact Hni.
    + destruct (item_failed_account opts i f x t w1)
        as (w2 & rej & E & Hf2 & _).
      unfold bind, settle, ret. rewrite E.
      match goal with
      | |- context [launch_items opts total items ?T ?W] =>
          specialize (IH T W Hnd'); cbn zeta in IH;
          destruct (launch_items opts total items T W)
            as [[[w3 t3] waiting] later]
      end.
      cbn [fst snd map flight with_flight] in *.
      destruct IH as (evs & Hfl & Hin & Hl & Hw & Hfly).
      exists (Launch i :: Settle i :: evs).
      split; [|split; [|split; [|split]]].
      * rewrite Hfl, Hf2, Hcf, <- !app_assoc. reflexivity.
      * constructor; [now left|]. constructor; [now left|].
        eapply Forall_impl; [|exact Hin]. cbn. auto.
      * cbn. constructor; [|exact Hl]. intros Hx. apply Hni.
        apply launches_indices in Hx.
        apply in_map_iff in Hx as (ev & <- & Hev).
        rewrite Forall_forall in Hin. now apply Hin.
      * now apply incl_tl.
      * intros acc Hacc. cbn. rewrite filter_app. cbn.
        rewrite Nat.eqb_refl. cbn. rewrite app_nil_r.
        assert (Hfa : filter (fun j => negb (j =? i)) acc = acc).
        { apply forallb_filter_id. apply forallb_forall. intros y Hy.
          destruct (Nat.eqb_spec y i) as [->|]; [|reflexivity].
          exfalso. apply (Hacc i Hy). now left. }
        rewrite Hfa. apply Hfly. intros y Hy Hy'.
        apply (Hacc y Hy). now right.
  - cbn [map fst] in Hnd. inversion Hnd as [|? ? Hni Hnd']; subst.
    specialize (IH t w Hnd'). cbn zeta in IH.
    destruct (launch_items opts total items t w)
      as [[[w3 t3] waiting] later].
    cbn [fst snd map] in *.
    destruct IH as (evs & Hfl & Hin & Hl & Hw & Hfly).
    exists evs. split; [exact Hfl|]. split; [|split; [exact Hl|split]].
    + eapply Forall_impl; [|exact Hin]. cbn. auto.
    + now apply incl_tl.
    + intros acc Hacc. apply Hfly. intros y Hy Hy'.
      apply (Hacc y Hy). now right.
Qed.

Lemma and_then_all a b : and_then a b = AllResolved ->
  a = AllResolved /\ b = AllResolved.
Proof. destruct a, b; cbn; intros H; try discriminate; now split. Qed.

Lemma run_items_flight opts items : forall t w,
  let res := run_items io opts items t w in
  exists settled,
    flight (fst (fst res)) = flight w ++ map Settle settled /\
    incl settled (map fst items) /\
    (snd res = AllResolved -> settled = map fst items).
Proof.
  induction items as [|[i f] items IH]; intros t w; cbn zeta;
    cbn [run_items].
  - exists []. cbn. rewrite app_nil_r. repeat split. apply incl_refl.
  - destruct (download_item_flight opts i f t w) as (Hfl & Hnr).
    destruct (download_item io opts i f t w) as [w1 [[t1 rej]|e|]];
      cbn [fst snd] in Hfl, Hnr.
    + specialize (IH t1 (fst (settle i w1))). cbn zeta in IH.
      destruct (run_items io opts items t1 (fst (settle i w1)))
        as [[w2 t2] later].
      cbn [fst snd flight with_flight settle map] in *.
      destruct IH as (s & Hs & Hi & Ha).
      exists (i :: s). split; [|split].
      * rewrite Hs, Hfl, <- app_assoc. reflexivity.
      * apply incl_cons; [now left|]. now apply incl_tl.
      * intros E. apply and_then_all in E as [_ E]. now rewrite (Ha E).
    + exfalso. now apply (Hnr e).
    + specialize (IH t w1). cbn zeta in IH.
      destruct (run_items io opts items t w1) as [[w2 t2] later].
      cbn [fst snd map] in *.
      destruct IH as (s & Hs & Hi & Ha).
      exists s. split; [now rewrite Hs, Hfl|]. split.
      * now apply incl_tl.
      * intros E. apply and_then_all in E as [E _]. discriminate.
Qed.

Lemma combine_seq_fst_incl {A} (b : list A) i :
  NoDup (map fst (combine (seq i (length b)) b)) /\
  incl (map fst (combine (seq i (length b)) b)) (seq i (length b)).
Proof.
  change (combine (seq i (length b)) b) with (indexed i b).
  rewrite indexed_fst. split; [apply seq_NoDup|apply incl_refl].
Qed.

(** One turn of the loop writes the round of its batch, and when the
    promises of the batch have all resolved nothing is in flight. *)
Lemma run_batch_flight opts total i b t w :
  let res := run_batch io opts total i b t w in
  exists new,
    flight (fst (fst res)) = flight w ++ new /\
    round i (length b) new /\
    (snd res = AllResolved -> in_flight new = []).
Proof.
  cbn zeta. unfold run_batch.
  destruct (combine_seq_fst_incl b i) as [Hnd Hsub].
  pose proof (launch_items_flight opts total
                (combine (seq i (length b)) b) t w Hnd) as H.
  cbn zeta in H.
  destruct (launch_items opts total (combine (seq i (length b)) b) t w)
    as [[[w1 t1] waiting] launched].
  cbn [fst snd] in H. destruct H as (evs & Hfl & Hin & Hl & Hw & Hfly).
  set (sorted := sort_by (fun p => finish_time io (fst p)) waiting).
  pose proof (run_items_flight opts sorted t1 w1) as H. cbn zeta in H.
  destruct (run_items io opts sorted t1 w1) as [[w2 t2] finished].
  cbn [fst snd] in *. destruct H as (s & Hs & Hi & Ha).
  assert (Hperm : Permutation sorted waiting) by apply sort_by_perm.
  exists (evs ++ map Settle s). split; [|split].
  - now rewrite Hs, Hfl, <- app_assoc.
  - split.
    + apply Forall_app. split.
      * eapply Forall_impl; [|exact Hin]. cbn. intros ev Hev.
        now apply Hsub.
      * apply Forall_forall. intros ev Hev.
        apply in_map_iff in Hev as (x & <- & Hx). cbn.
        apply Hsub, Hw. apply Hi in Hx.
        now apply (Permutation_in _ (Permutation_map fst Hperm)).
    + now rewrite launches_app, launches_settles, app_nil_r.
  - intros E. apply and_then_all in E as [_ E].
    unfold in_flight. rewrite fly_app, (Hfly []) by (intros x []).
    cbn. rewrite (Ha E). apply fly_settles_all. intros x Hx.
    now apply (Permutation_in _ (Permutation_sym (Permutation_map fst Hperm))).
Qed.

Lemma batches_flight opts files turns : forall i t w,
  (exists q, i = q * concurrency opts) ->
  let res := batches io opts files turns i t w in
  exists new,
    flight (fst res) = flight w ++ new /\
    orderly (concurrency opts) new /\
    (forall t', snd res = Resolved t' -> in_flight new = []).
Proof.
  induction turns as [|turns IH]; intros i t w [q Hq]; cbn zeta;
    cbn [batches]; destruct (i <? length files).
  2, 3, 4: try (exists []; cbn; split; [now rewrite app_nil_r|];
                split; [apply orderly_nil | reflexivity]).
  1: exists []; cbn; split; [now rewrite app_nil_r|];
       split; [apply orderly_nil | discriminate].
  pose proof (slice_length files i (concurrency opts)) as Hlen.
  set (b := slice i (i + concurrency opts) files) in *.
  assert (Hk : length b <= concurrency opts) by lia.
  destruct (run_batch_flight opts (length files) i b t w)
    as (new & Hn & Hr & Hret).
  assert (Ho : orderly (concurrency opts) new)
    by (subst i; now apply (round_orderly _ q (length b))).
  destruct (run_batch io opts (length files) i b t w) as [[w1 t1] g].
  cbn [fst snd] in *. destruct g.
  - destruct (IH (i + concurrency opts) t1 w1) as (new' & Hn' & Ho' & Hr').
    { exists (S q). cbn. lia. }
    exists (new ++ new'). split; [|split].
    + rewrite Hn', Hn, <- !app_assoc. reflexivity.
    + apply orderly_app; auto.
    + intros t' Ht. unfold in_flight in *.
      rewrite fly_app, (Hret eq_refl). now apply (Hr' t').
  - exists new. cbn. split; [exact Hn|]. split; [exact Ho|discriminate].
  - exists new. cbn. split; [exact Hn|]. split; [exact Ho|discriminate].
Qed.

End BatchFacts.
(** ** The claims on [downloadMultipleFiles] *)

Section BatchClaims.

Variable io : browser.

Lemma downloadMultipleFiles_loop f fs opts w :
  downloadMultipleFiles io (FilesArray (f :: fs)) opts w
  = match batches io opts (f :: fs) (length (f :: fs)) 0
            {| tally_successful := 0; tally_failed := 0;
               tally_results := [] |} w with
    | (w', Resolved t) =>
        (w', Resolved {| successful := tally_successful t;
                         failed := tally_failed t;
                         total := length (f :: fs);
                         results := tally_results t |})
    | (w', Rejected e) => (w', Rejected e)
    | (w', Pending) => (w', Pending)
    end.
Proof. reflexivity. Qed.

(** What a call on an array without holes comes to, with callbacks that
    return and a concurrency of at least one. *)
Lemma downloadMultipleFiles_courteous items opts w :
  items <> [] -> 1 <= concurrency opts -> courteous opts ->
  let res := downloadMultipleFiles io (FilesArray (map Some items)) opts w in
  match snd res with
  | Resolved r =>
      total r = length items /\
      successful r = length (filter entry_success (results r)) /\
      failed r
      = length (filter (fun e => negb (entry_success e)) (results r)) /\
      (forall p e, nth_error (results r) p = Some e ->
                   entry_index e / concurrency opts = p / concurrency opts) /\
      exists order,
        Permutation order (indexed 0 items) /\
        attempted io opts order w (results r) (fst res)
  | Rejected _ => False
  | Pending => ~ (reliable io /\ responsive io)
  end.
Proof.
  intros Hne HN Hc. destruct items as [|f fs]; [contradiction|].
  cbn zeta. cbn [map]. rewrite downloadMultipleFiles_loop.
  change (Some f :: map Some fs) with (map Some (f :: fs)).
  rewrite length_map.
  pose proof (batches_courteous io opts (f :: fs) (length (f :: fs)) HN Hc 0
                {| tally_successful := 0; tally_failed := 0;
                   tally_results := [] |} w ltac:(lia)) as H.
  cbn zeta in H. cbn [Nat.mul] in H.
  destruct (batches io opts (map Some (f :: fs)) (length (f :: fs)) 0
              {| tally_successful := 0; tally_failed := 0;
                 tally_results := [] |} w) as [w1 [t|e|]];
    cbn [fst snd] in *; try exact H.
  destruct H as (order & es & Hp & Hat & -> & Hg).
  match goal with
  | |- context [fold_left ?F es ?T] =>
      destruct (pushed_results es T) as (Hr & Hs & Hf)
  end.
  cbn [total successful failed results]. cbn [tally_results app] in Hr.
  rewrite Hr, Hs, Hf. cbn [tally_successful tally_failed Nat.add].
  split; [reflexivity|]. split; [reflexivity|]. split; [reflexivity|].
  split; [exact Hg|]. exists order. split; [exact Hp|exact Hat].
Qed.

Lemma success_partition (es : list entry) :
  length (filter entry_success es)
  + length (filter (fun e => negb (entry_success e)) es) = length es.
Proof.
  induction es as [|e es IH]; [reflexivity|]. cbn.
  destruct (entry_success e); cbn; lia.
Qed.

Lemma attempted_matches opts items order w es w' :
  Permutation order (indexed 0 items) ->
  attempted io opts order w es w' ->
  Forall (matches items) es.
Proof.
  intros Hp Hat.
  assert (Hnth : Forall (fun p => nth_error items (fst p) = Some (snd p))
                        order).
  { apply (Permutation_Forall (Permutation_sym Hp)).
    eapply Forall_impl; [|apply (indexed_nth items 0)].
    intros [j f] [_ Hn]. cbn in *. now rewrite Nat.sub_0_r in Hn. }
  clear Hp. revert Hnth.
  induction Hat as [|i f rest w w0 e es w' Hb (Hi & Hu & Hn & _) _ IH];
    intros Hnth.
  - constructor.
  - inversion Hnth as [|? ? Hf Hrest]; subst. constructor; [|now apply IH].
    unfold matches. cbn in Hf. rewrite Hf, Hu, Hn. now destruct f.
Qed.

(** C7 (as amended). For a non-empty array of files without holes, a
    concurrency of at least one and callbacks that do not throw,
    [downloadMultipleFiles] never rejects, resolves in a browser that
    answers every request and where no guarded call on a link throws,
    and whenever it resolves: [results] is as long as the input, the
    indices of its entries are a permutation of the indices of the
    input, each entry carries the URL and the filename of the item at
    its index, [total] is the length of the input,
    [successful + failed = total], and [downloadFile] was called once
    for each item, each call in the world the one before left but for
    callbacks and the record of the flights, the entries recording what
    the calls came to, in their order. *)
Theorem C7_batch_results_complete items opts w :
  items <> [] -> 1 <= concurrency opts -> courteous opts ->
  (forall w' e,
     downloadMultipleFiles io (FilesArray (map Some items)) opts w
     <> (w', Rejected e)) /\
  (reliable io -> responsive io ->
   exists w' r,
     downloadMultipleFiles io (FilesArray (map Some items)) opts w
     = (w', Resolved r)) /\
  (forall w' r,
     downloadMultipleFiles io (FilesArray (map Some items)) opts w
     = (w', Resolved r) ->
     length (results r) = length items /\
     Permutation (map entry_index (results r)) (seq 0 (length items)) /\
     Forall (matches items) (results r) /\
     total r = length items /\
     successful r + failed r = total r /\
     exists order,
       Permutation order (combine (seq 0 (length items)) items) /\
       attempted io opts order w (results r) w').
Proof.
  intros Hne HN Hc.
  pose proof (downloadMultipleFiles_courteous items opts w Hne HN Hc) as H.
  cbn zeta in H.
  destruct (downloadMultipleFiles io (FilesArray (map Some items)) opts w)
    as [w1 [r|e|]]; cbn [fst snd] in H.
  - split; [discriminate|]. split; [intros _ _; now exists w1, r|].
    intros w' r' E. injection E as <- <-.
    destruct H as (Ht & Hs & Hf & _ & order & Hp & Hat).
    destruct (attempted_entries _ _ _ _ _ _ Hat) as [Hidx _].
    assert (Hperm : Permutation (map entry_index (results r))
                      (seq 0 (length items))).
    { rewrite Hidx, <- (indexed_fst items 0). now apply Permutation_map. }
    assert (Hl : length (results r) = length items)
      by (rewrite <- (length_map entry_index), (Permutation_length Hperm);
          apply length_seq).
    split; [exact Hl|]. split; [exact Hperm|].
    split; [now apply (attempted_matches opts items order w _ w1)|].
    split; [exact Ht|]. split.
    + rewrite Hs, Hf, Ht, <- Hl. apply success_partition.
    + exists order. split; [exact Hp|exact Hat].
  - contradiction.
  - split; [discriminate|]. split; [|discriminate].
    intros Hio Hre. exfalso. apply H. now split.
Qed.

(** C9. Whatever the argument and the concurrency limit [N], along the
    record of launches and settlements that a call of
    [downloadMultipleFiles] writes there are never more than [N]
    per-item downloads in flight, and an item is launched only while no
    item of another batch is in flight: the batches are the consecutive
    stretches of [N] indices. *)
Theorem C9_bounded_concurrency arg opts w :
  exists new,
    flight (fst (downloadMultipleFiles io arg opts w)) = flight w ++ new /\
    (forall p s, new = p ++ s ->
                 length (in_flight p) <= concurrency opts) /\
    (forall p j s, new = p ++ Launch j :: s ->
                   forall i, In i (in_flight p) ->
                             i / concurrency opts = j / concurrency opts).
Proof.
  destruct arg as [[|f fs]|].
  1, 3: exists []; cbn; split; [now rewrite app_nil_r | apply orderly_nil].
  rewrite downloadMultipleFiles_loop.
  destruct (batches_flight io opts (f :: fs) (length (f :: fs)) 0
              {| tally_successful := 0; tally_failed := 0;
                 tally_results := [] |} w) as (new & Hn & Ho & _).
  { now exists 0. }
  exists new. split; [|exact Ho].
  destruct (batches io opts (f :: fs) (length (f :: fs)) 0
              {| tally_successful := 0; tally_failed := 0;
                 tally_results := [] |} w) as [w1 [t|e|]]; exact Hn.
Qed.

(** C10. For an argument that is no array, and for the empty array,
    [downloadMultipleFiles] rejects with "Files array is required and
    must not be empty" and leaves the world as it was: no download was
    started. So a call that resolves was given a non-empty array. *)
Theorem C10_rejects_unless_non_empty_array arg opts w :
  (arg = NotAnArray \/ arg = FilesArray [] ->
   downloadMultipleFiles io arg opts w
   = (w, Rejected (Error "Files array is required and must not be empty"))) /\
  (forall w' r,
     downloadMultipleFiles io arg opts w = (w', Resolved r) ->
     exists f fs, arg = FilesArray (f :: fs)).
Proof.
  split.
  - intros [->| ->]; reflexivity.
  - intros w' r H. destruct arg as [[|f fs]|]; [discriminate| |discriminate].
    now exists f, fs.
Qed.

End BatchClaims.

(** Two at a time: the third download starts when the first two have
    settled. *)
Example three_files_flight :
  flight (fst (downloadMultipleFiles cors_blocked (FilesArray three_files)
                 {| timeout := 30000%N; concurrency := 2;
                    onProgress := None; onFileComplete := None |}
                 empty_world))
  = [Launch 0; Launch 1; Settle 1; Settle 0; Launch 2; Settle 2].
Proof. vm_compute. reflexivity. Qed.

(** With [concurrency = 0] the loop never advances. *)
Example zero_concurrency_never_ends :
  snd (downloadMultipleFiles cors_blocked (FilesArray three_files)
         {| timeout := 30000%N; concurrency := 0;
            onProgress := None; onFileComplete := None |} empty_world)
  = Pending.
Proof. vm_compute. reflexivity. Qed.

Lemma cors_blocked_responsive : responsive cors_blocked.
Proof. repeat split; intros; cbn in *; congruence. Qed.

Lemma courteous_without_callbacks t c :
  courteous {| timeout := t; concurrency := c;
               onProgress := None; onFileComplete := None |}.
Proof. split; cbn; intros; discriminate. Qed.

Lemma C7_witness :
  three_items <> [] /\ 1 <= 2 /\
  courteous {| timeout := 30000%N; concurrency := 2;
               onProgress := None; onFileComplete := None |} /\
  reliable cors_blocked /\ responsive cors_blocked /\
  exists w' r,
    downloadMultipleFiles cors_blocked (FilesArray (map Some three_items))
      {| timeout := 30000%N; concurrency := 2;
         onProgress := None; onFileComplete := None |} empty_world
    = (w', Resolved r) /\
    map entry_index (results r) = [1; 0; 2] /\
    successful r = 2 /\ failed r = 1 /\ total r = 3.
Proof.
  assert (Hne : three_items <> []) by discriminate.
  assert (HN : 1 <= 2) by lia.
  assert (Hr : reliable cors_blocked) by (intros n op; reflexivity).
  split; [exact Hne|]. split; [exact HN|].
  split; [apply courteous_without_callbacks|].
  split; [exact Hr|]. split; [exact cors_blocked_responsive|].
  destruct (proj1 (proj2 (C7_batch_results_complete cors_blocked three_items
                     {| timeout := 30000%N; concurrency := 2;
                        onProgress := None; onFileComplete := None |}
                     empty_world Hne HN
                     (courteous_without_callbacks 30000%N 2)))
              Hr cors_blocked_responsive) as (w' & r & E).
  exists w', r. split; [exact E|].
  vm_compute in E. injection E as _ <-. repeat split.
Defined.

(** An array with a hole resolves to fewer entries than [total]; an
    [onFileComplete] that throws when told of a success makes the item
    count twice, as a success and as a failure. *)
Lemma C7_counterexample :
  (exists w' r,
     downloadMultipleFiles cors_blocked (FilesArray sparse_files)
       default_options empty_world = (w', Resolved r) /\
     length sparse_files = 3 /\ total r = 3 /\
     map entry_index (results r) = [0; 2] /\
     successful r = 2 /\ failed r = 0) /\
  (exists w' r,
     downloadMultipleFiles cors_blocked (FilesArray three_files)
       touchy_options empty_world = (w', Resolved r) /\
     total r = 3 /\
     map entry_index (results r) = [0; 0; 1; 2; 2] /\
     map entry_success (results r) = [true; false; false; true; false] /\
     successful r = 2 /\ failed r = 3).
Proof.
  split; eexists; eexists; (split; [vm_compute; reflexivity|]);
    repeat split.
Qed.

Lemma C10_witness :
  (NotAnArray = NotAnArray \/ NotAnArray = FilesArray []) /\
  downloadMultipleFiles offline NotAnArray default_options empty_world
  = (empty_world,
     Rejected (Error "Files array is required and must not be empty")) /\
  downloadMultipleFiles offline (FilesArray []) default_options empty_world
  = (empty_world,
     Rejected (Error "Files array is required and must not be empty")).
Proof.
  assert (H : NotAnArray = NotAnArray \/ NotAnArray = FilesArray [])
    by (left; reflexivity).
  split; [exact H|]. split.
  - exact (proj1 (C10_rejects_unless_non_empty_array offline NotAnArray
                    default_options empty_world) H).
  - exact (proj1 (C10_rejects_unless_non_empty_array offline (FilesArray [])
                    default_options empty_world) (or_intror eq_refl)).
Defined.
(** ** The claims on [ensureFileExtension] *)

Section ResolverClaims.

Variable up : string -> option string.

(** C3 (the code departs from it). A filename that ends in a dot is
    returned as it is, whatever the URL and the content type: it holds a
    dot, and the part after its last dot has length 0, which the test
    [length <= 4] of the first branch lets through. The result has no
    extension of one to four characters. *)
Theorem C3_name_ending_in_a_dot_is_returned url ct :
  ensureFileExtension up "report." url ct = "report." /\
  has_extension "report." = false /\
  (forall stem,
     ensureFileExtension up (stem +++ ".") url ct = stem +++ "." /\
     has_extension (stem +++ ".") = false).
Proof.
  split; [|split].
  - exact (proj1 (ensureFileExtension_trailing_dot up "report" url ct)).
  - reflexivity.
  - intros stem.
    destruct (ensureFileExtension_trailing_dot up stem url ct) as (H & _ & H').
    now split.
Qed.

(** C6 (as amended). With an empty filename the result is "download.jpg"
    whatever the content type and the URL. The canonical extension of a
    known image or video MIME type is appended to a filename that is not
    empty and does not already end in a dot and at most four
    characters. *)
Theorem C6_empty_name_yields_download_jpg url ct :
  ensureFileExtension up "" url ct = "download.jpg" /\
  (forall filename ext,
     truthy filename = true ->
     includes "." filename
     && (String.length (extension_of filename) <=? 4) = false ->
     In (toLowerCase ct, ext) canonical ->
     ensureFileExtension up filename url ct = filename +++ "." +++ ext).
Proof.
  split; [reflexivity|]. intros filename ext. apply ensureFileExtension_known_type.
Qed.

End ResolverClaims.

Lemma C6_counterexample :
  In ("video/mp4", "mp4") canonical /\
  ensureFileExtension (url_pathname offline) ""
    "https://cdn.example/videos/clip" "video/mp4" = "download.jpg" /\
  ensureFileExtension (url_pathname offline) ""
    "https://cdn.example/videos/clip" "video/mp4" <> "download" +++ "." +++ "mp4".
Proof.
  split; [|split].
  - vm_compute. tauto.
  - vm_compute. reflexivity.
  - vm_compute. discriminate.
Qed.

Lemma C6_witness :
  truthy "clip" = true /\
  includes "." "clip" && (String.length (extension_of "clip") <=? 4) = false /\
  In (toLowerCase "video/mp4", "mp4") canonical /\
  ensureFileExtension (url_pathname offline) "clip"
    "https://cdn.example/videos/clip" "video/mp4" = "clip" +++ "." +++ "mp4".
Proof.
  assert (H1 : truthy "clip" = true) by reflexivity.
  assert (H2 : includes "." "clip"
               && (String.length (extension_of "clip") <=? 4) = false)
    by (vm_compute; reflexivity).
  assert (H3 : In (toLowerCase "video/mp4", "mp4") canonical)
    by (vm_compute; tauto).
  split; [exact H1|]. split; [exact H2|]. split; [exact H3|].
  exact (proj2 (C6_empty_name_yields_download_jpg (url_pathname offline)
                  "https://cdn.example/videos/clip" "video/mp4")
               "clip" "mp4" H1 H2 H3).
Defined.
(** ** The claim on the transient elements *)

Section CleanupFacts.

Variable io : browser.

(** The trigger primitives and the strategies built on them leave the
    body and the object URLs as they found them, however they end. *)
Lemma triggers_clean_up b f w :
  wf w ->
  restored w (fst (forceDownload io b f w)) /\
  restored w (fst (triggerDownload io b f w)) /\
  restored w (fst (tryDataUrlDownload io b f w)).
Proof.
  intros Hw. split; [|split].
  - now apply forceDownload_spec.
  - now apply triggerDownload_spec.
  - now apply tryDataUrlDownload_spec.
Qed.

Lemma strategies_clean_up url fn opts w :
  wf w ->
  restored w (fst (downloadViaDirectFetch io url fn w)) /\
  restored w (fst (downloadViaFetch io url fn opts w)) /\
  restored w (fst (downloadViaXHR io url fn opts w)) /\
  restored w (fst (downloadViaCanvas io url fn w)) /\
  restored w (fst (downloadViaIframe io url fn w)).
Proof.
  intros Hw. repeat split.
  all: first [ now apply downloadViaDirectFetch_spec
             | now apply downloadViaFetch_spec
             | now apply downloadViaXHR_spec
             | now apply downloadViaCanvas_spec
             | now apply downloadViaIframe_spec ].
Qed.

(** The link of the new-tab fallback is removed after a click that
    returned. *)
Lemma downloadViaNewTab_removes_link url fn w :
  wf w -> dom_throws io (tick w) Click = None ->
  body (fst (downloadViaNewTab io url fn w)) = body w.
Proof.
  intros Hw Hc.
  unfold downloadViaNewTab, try_catch, bind, ask, activate, new_link,
    console_log, createElement, appendChild, removeChild, setTimeout,
    window_open, throw, ret.
  cbn. rewrite Hc. cbn.
  repeat (rewrite attached_last by reflexivity; cbn).
  dom_restore_all. reflexivity.
Qed.

(** When the click throws, the [catch] opens a window and the link stays
    in the body. *)
Lemma downloadViaNewTab_leaves_link url fn w e :
  wf w -> dom_throws io (tick w) Click = Some e ->
  body (fst (downloadViaNewTab io url fn w))
  = body w ++ [ {| node := fresh w; tagName := ANCHOR;
                   href := Address url; download := fn;
                   target := "_blank" |} ] /\
  windows (fst (downloadViaNewTab io url fn w)) = windows w ++ [url].
Proof.
  intros Hw Hc.
  unfold downloadViaNewTab, try_catch, bind, ask, activate, new_link,
    console_log, createElement, appendChild, removeChild, setTimeout,
    window_open, throw, ret.
  cbn. rewrite Hc. cbn. dom_restore_all. split; reflexivity.
Qed.

(** The link that the reader of [downloadViaDirectFetch] attaches after
    the promise has resolved stays as well when its click throws. *)
Lemma ReaderLoad_leaves_link b fn w e :
  wf w -> reader_fails io (tick w) = false ->
  dom_throws io (S (tick w)) Click = Some e ->
  body (fst (run_task io (ReaderLoad b fn) w))
  = body w ++ [ {| node := fresh w; tagName := ANCHOR;
                   href := DataURL b; download := fn; target := "" |} ].
Proof.
  intros Hw Hr Hc.
  unfold run_task, bind, ask, activate, new_link, createElement,
    appendChild, removeChild, throw, ret.
  cbn. rewrite Hr. cbn. rewrite Hc. cbn. dom_restore_all. reflexivity.
Qed.

End CleanupFacts.

(** The direct fetch resolves before its link exists; the event loop
    then attaches the link, clicks it and removes it. *)
Example direct_fetch_then_timers :
  let res := downloadFile online "https://good.example/img/hall" "hall"
               default_options empty_world in
  snd res = Resolved (succeeded direct_fetch) /\
  body (fst res) = [] /\ activations (fst res) = [] /\
  body (run_timers online (fst res)) = [] /\
  map download (activations (run_timers online (fst res))) = ["hall"].
Proof. vm_compute. repeat split. Qed.

(** When every activation throws, the canvas strategy of an image URL
    never settles, and neither does [downloadFile]. *)
Example canvas_may_stay_pending :
  snd (downloadFile
         {| dom_throws := fun _ _ => Some (Error "blocked");
            fetch_answer := fetch_answer cors_blocked;
            xhr_answer := xhr_answer cors_blocked;
            image_answer := image_answer cors_blocked;
            reader_fails := fun _ => false;
            parseURL := no_url;
            printURL := url_base;
            encodeURIComponent := fun s => s;
            finish_time := fun i => i |}
         "https://photos.example/kitchen.jpg" "kitchen" default_options
         empty_world)
  = Pending.
Proof. vm_compute. reflexivity. Qed.

(** C8 (the code departs from it). In a browser where [link.click()]
    throws, [downloadViaNewTab] resolves and leaves its anchor attached:
    the body has one element more than before the call. Its [catch]
    opens the URL in a window and removes nothing. *)
Theorem C8_new_tab_link_stays_when_click_throws :
  let res := downloadViaNewTab no_activation "photos/kitchen.jpg" "kitchen"
               empty_world in
  snd res = Resolved tt /\
  length (body (fst res)) = S (length (body empty_world)) /\
  body (fst res)
  = [ {| node := 0; tagName := ANCHOR;
         href := Address "photos/kitchen.jpg"; download := "kitchen";
         target := "_blank" |} ] /\
  windows (fst res) = ["photos/kitchen.jpg"].
Proof. vm_compute. repeat split. Qed.
(** * Further properties of the pipeline *)

(** ** More on the filename resolver *)

Section ResolverMore.

Variable up : string -> option string.

Lemma startsWith_app a b : startsWith a (a +++ b) = true.
Proof.
  induction a as [|c a IH]; [reflexivity|].
  change (String c a +++ b) with (String c (a +++ b)). cbn.
  now rewrite Ascii.eqb_refl, IH.
Qed.

Lemma startsWith_refl a : startsWith a a = true.
Proof. induction a as [|c a IH]; cbn; [reflexivity|]. now rewrite Ascii.eqb_refl, IH. Qed.

Lemma length_append_sum a b :
  String.length (a +++ b) = String.length a + String.length b.
Proof.
  induction a as [|c a IH]; [reflexivity|].
  change (String c a +++ b) with (String c (a +++ b)). cbn. now rewrite IH.
Qed.

Lemma includes_dot_truthy s : includes "." s = true -> truthy s = true.
Proof. destruct s; [discriminate|reflexivity]. Qed.

(** The result is the given name, which then holds a dot, or the given
    name with a dot and an extension appended. *)
Lemma ensureFileExtension_shape filename url ct :
  truthy filename = true ->
  (ensureFileExtension up filename url ct = filename /\
   includes "." filename = true /\
   String.length (extension_of filename) <= 4) \/
  exists e, ensureFileExtension up filename url ct = filename +++ "." +++ e.
Proof.
  intros Hf. unfold ensureFileExtension. rewrite Hf. cbn [negb].
  fold (extension_of filename).
  destruct (includes "." filename
            && (String.length (extension_of filename) <=? 4)) eqn:Hc.
  { left. apply andb_true_iff in Hc as [Hi Hl]. apply Nat.leb_le in Hl.
    now repeat split. }
  right.
  destruct (if truthy ct then typeMap (toLowerCase ct) else None) as [e|];
    [now exists e|].
  destruct (match up url with
            | Some urlPath =>
                if truthy (pop (split "." urlPath))
                   && (String.length (pop (split "." urlPath)) <=? 4)
                   && negb (includes "/" (pop (split "." urlPath)))
                then Some (pop (split "." urlPath)) else None
            | None => None
            end) as [e|]; [now exists e|].
  destruct (includes "video" url || includes ".mp4" url
            || includes ".webm" url); [now exists "mp4" | now exists "jpg"].
Qed.

Lemma ensureFileExtension_empty url ct :
  ensureFileExtension up "" url ct = "download.jpg".
Proof. reflexivity. Qed.

(** A name that holds a dot followed by at most four characters comes
    back as it is. *)
Lemma ensureFileExtension_fixed name url ct :
  includes "." name = true -> String.length (extension_of name) <= 4 ->
  ensureFileExtension up name url ct = name.
Proof.
  intros Hi Hl. unfold ensureFileExtension.
  rewrite (includes_dot_truthy _ Hi), Hi. fold (extension_of name).
  now rewrite (proj2 (Nat.leb_le _ _) Hl).
Qed.

End ResolverMore.

Section ResolverExtras.

Variable up : string -> option string.

(** X1. The resolver never returns the empty string and never a name
    without a dot; an empty filename gives "download.jpg", and any other
    filename is kept as the beginning of the result. *)
Theorem X1_result_keeps_the_name_and_holds_a_dot filename url ct :
  truthy (ensureFileExtension up filename url ct) = true /\
  includes "." (ensureFileExtension up filename url ct) = true /\
  (truthy filename = false ->
   ensureFileExtension up filename url ct = "download.jpg") /\
  (truthy filename = true ->
   startsWith filename (ensureFileExtension up filename url ct) = true).
Proof.
  destruct (truthy filename) eqn:Hf.
  - assert (Hdot : includes "." (ensureFileExtension up filename url ct) = true).
    { destruct (ensureFileExtension_shape up filename url ct Hf)
        as [(H & Hi & _)|[e H]]; rewrite H; [exact Hi|].
      change (filename +++ "." +++ e) with (filename +++ String "." e).
      apply includes_dot_app. }
    split; [now apply includes_dot_truthy|]. split; [exact Hdot|].
    split; [discriminate|]. intros _.
    destruct (ensureFileExtension_shape up filename url ct Hf)
      as [(H & _)|[e H]];
      rewrite H; [apply startsWith_refl | apply startsWith_app].
  - destruct filename; [|discriminate]. repeat split.
Qed.

(** X2. Resolving a resolved name again, with any URL and any content
    type, changes nothing, as long as the first content type is none of
    the two names the table inherits. *)
Theorem X2_resolving_twice_is_resolving_once
        (up' : string -> option string) filename url ct url' ct' :
  toLowerCase ct <> "constructor" -> toLowerCase ct <> "__proto__" ->
  ensureFileExtension up' (ensureFileExtension up filename url ct) url' ct'
  = ensureFileExtension up filename url ct.
Proof.
  intros Hc Hp.
  destruct (truthy filename) eqn:Hf.
  - destruct (ensureFileExtension_shape up filename url ct Hf)
      as [(H & Hi & Hl)|[e H]].
    + rewrite H. now apply ensureFileExtension_fixed.
    + assert (Hext : has_extension (ensureFileExtension up filename url ct)
                     = true).
      { apply ensureFileExtension_extension; auto.
        intros Hi He.
        assert (Hfix := ensureFileExtension_fixed up filename url ct Hi
                          ltac:(rewrite He; cbn; lia)).
        rewrite Hfix in H.
        assert (Hlen := f_equal String.length H).
        rewrite !length_append_sum in Hlen. cbn in Hlen. lia. }
      unfold has_extension in Hext.
      apply andb_true_iff in Hext as [Hext Hl].
      apply andb_true_iff in Hext as [Hi _].
      apply ensureFileExtension_fixed; [exact Hi | now apply Nat.leb_le].
  - destruct filename; [|discriminate]. reflexivity.
Qed.

Lemma truthy_toLowerCase s : truthy (toLowerCase s) = truthy s.
Proof. now destruct s. Qed.

(** X3. The content type is matched without regard to letter case: two
    content types with the same lower-case form resolve alike. *)
Theorem X3_content_type_case_is_ignored filename url ct ct' :
  toLowerCase ct = toLowerCase ct' ->
  ensureFileExtension up filename url ct
  = ensureFileExtension up filename url ct'.
Proof.
  intros H. unfold ensureFileExtension.
  now rewrite <- (truthy_toLowerCase ct), <- (truthy_toLowerCase ct'), H.
Qed.

End ResolverExtras.

Section ResolverOrder.

Variable up : string -> option string.

(** X4. Where the name has no usable extension and the content type is
    none of the table, the resolver turns to the URL: the text after
    the last dot of its path, taken as it is when it has one to four
    characters and no slash; and when the URL cannot be parsed, [mp4]
    for a URL that mentions "video", ".mp4" or ".webm" and [jpg] for any
    other. *)
Theorem X4_unknown_content_type_falls_back_to_the_url
        filename url ct :
  truthy filename = true ->
  includes "." filename
  && (String.length (extension_of filename) <=? 4) = false ->
  (if truthy ct then typeMap (toLowerCase ct) else None) = None ->
  (forall path e,
     up url = Some (path +++ "." +++ e) ->
     includes "." e = false -> includes "/" e = false ->
     1 <= String.length e <= 4 ->
     ensureFileExtension up filename url ct = filename +++ "." +++ e) /\
  (up url = None ->
   ensureFileExtension up filename url ct
   = filename +++ (if includes "video" url || includes ".mp4" url
                      || includes ".webm" url
                   then ".mp4" else ".jpg")).
Proof.
  intros Hf Hcheck Hct. unfold ensureFileExtension.
  rewrite Hf. cbn [negb]. fold (extension_of filename).
  rewrite Hcheck, Hct. split.
  - intros path e Hup Hdot Hslash [Hlo Hhi]. rewrite Hup.
    fold (extension_of (path +++ "." +++ e)).
    rewrite (extension_of_appended _ _ Hdot), Hslash.
    rewrite (proj2 (Nat.leb_le _ _) Hhi).
    destruct e; [cbn in Hlo; lia|reflexivity].
  - intros Hup. rewrite Hup.
    destruct (includes "video" url || includes ".mp4" url
              || includes ".webm" url); reflexivity.
Qed.

End ResolverOrder.

(** ** Image URLs *)

Section ImageFacts.

Lemma toLowerCase_app a b :
  toLowerCase (a +++ b) = toLowerCase a +++ toLowerCase b.
Proof.
  induction a as [|c a IH]; [reflexivity|].
  change (String c a +++ b) with (String c (a +++ b)). cbn.
  now rewrite IH.
Qed.

Lemma toLowerCase_length a : String.length (toLowerCase a) = String.length a.
Proof. induction a as [|c a IH]; cbn; [reflexivity|]. now rewrite IH. Qed.

Lemma string_drop_app a b : string_drop (String.length a) (a +++ b) = b.
Proof.
  induction a as [|c a IH]; [now destruct b|].
  change (String c a +++ b) with (String c (a +++ b)). cbn. exact IH.
Qed.

Lemma image_extension_app base s :
  image_extension_here s = true -> image_extension (base +++ s) = true.
Proof.
  intros H. induction base as [|c base IH].
  - change ("" +++ s) with s. destruct s; cbn [image_extension]; now rewrite H.
  - change (String c base +++ s) with (String c (base +++ s)).
    cbn [image_extension]. rewrite IH. apply orb_true_r.
Qed.

Lemma image_extension_here_suffix e rest :
  In (toLowerCase e) image_extensions ->
  match rest with EmptyString => True | String q _ => q = "?"%char end ->
  image_extension_here ("." +++ e +++ rest) = true.
Proof.
  intros He Hrest.
  change ("." +++ e +++ rest) with (String "." (e +++ rest)).
  unfold image_extension_here. rewrite Ascii.eqb_refl. cbn [andb].
  apply existsb_exists. exists (toLowerCase e). split; [exact He|].
  rewrite toLowerCase_app, startsWith_app, toLowerCase_length,
    string_drop_app. cbn [andb].
  destruct rest as [|q rest']; [reflexivity|]. subst q. apply Ascii.eqb_refl.
Qed.

End ImageFacts.

Lemma append_empty e : e +++ "" = e.
Proof.
  induction e as [|c e IH]; [reflexivity|].
  change (String c e +++ "") with (String c (e +++ "")). now rewrite IH.
Qed.

Lemma includes_app sub a b : includes sub (a +++ sub +++ b) = true.
Proof.
  induction a as [|c a IH].
  - change ("" +++ sub +++ b) with (sub +++ b).
    destruct (sub +++ b) eqn:E; cbn [includes];
      rewrite <- E, startsWith_app; reflexivity.
  - change (String c a +++ sub +++ b) with (String c (a +++ sub +++ b)).
    cbn [includes]. rewrite IH. apply orb_true_r.
Qed.

(** X5. The test for image URLs of [downloadFile] holds for every
    URL that ends in a dot and one of the five image extensions, in any
    letter case, for every such URL followed by a query string, and for
    every URL that holds the word "image". *)
Theorem X5_image_urls_by_extension base e query :
  In (toLowerCase e) image_extensions ->
  isImage (base +++ "." +++ e) = true /\
  isImage (base +++ "." +++ e +++ "?" +++ query) = true /\
  isImage (base +++ "image" +++ query) = true.
Proof.
  intros He. unfold isImage. split; [|split].
  - rewrite (image_extension_app base ("." +++ e)); [apply orb_true_r|].
    rewrite <- (append_empty e) at 1.
    apply (image_extension_here_suffix e "" He I).
  - rewrite (image_extension_app base ("." +++ e +++ "?" +++ query));
      [apply orb_true_r|].
    apply (image_extension_here_suffix e ("?" +++ query) He). reflexivity.
  - now rewrite includes_app.
Qed.
(** ** What the trigger primitives activate *)

(** The link was activated, once, and nothing else was: it is an anchor
    that names the file and points to the blob. *)
Section TriggerExtras.

Variable io : browser.

Lemma tryDataUrlDownload_outcome b f w :
  match snd (tryDataUrlDownload io b f w) with
  | Resolved _ =>
      exists link,
        activations (fst (tryDataUrlDownload io b f w))
        = activations w ++ [link] /\
        tagName link = ANCHOR /\ download link = f /\ href link = DataURL b
  | Rejected e =>
      activations (fst (tryDataUrlDownload io b f w)) = activations w /\
      err_name e = "Error"
  | Pending => False
  end.
Proof.
  unfold tryDataUrlDownload, bind, ask, callback, attempt, activate,
    new_link, createElement, appendChild, removeChild, throw, ret.
  cbn.
  repeat (oracle io; cbn); rewrite ?attached_last by reflexivity; cbn.
  all: try (split; reflexivity).
  eexists. repeat split.
Qed.


Lemma forceDownload_outcome b f w :
  match snd (forceDownload io b f w) with
  | Resolved _ => activated_once b f w (fst (forceDownload io b f w))
  | Rejected e =>
      activations (fst (forceDownload io b f w)) = activations w /\
      err_name e = "Error"
  | Pending => False
  end.
Proof.
  unfold forceDownload, approach, console_log, try_catch, bind, ask, attempt, activate,
    new_link, createElement, createObjectURL, revokeObjectURL, parentNode,
    appendChild, removeChild, throw, ret, activated_once.
  cbn.
  repeat (oracle io; cbn); rewrite ?attached_last by reflexivity; cbn.
  all: rewrite ?attached_last by reflexivity; cbn.
  all: try match goal with
    | |- context [tryDataUrlDownload ?i ?x ?y ?W] =>
        pose proof (tryDataUrlDownload_outcome x y W) as Ht;
        destruct (tryDataUrlDownload i x y W) as [w' [[]|e'|]];
        cbn in Ht |- *;
        [ destruct Ht as (link & Ha & Htag & Hd & Hh);
          exists link; repeat split; auto
        | exact Ht
        | exact Ht ]
    end.
  all: eexists; repeat split; auto.
Qed.

(** X6. [forceDownload] settles, and it resolves exactly when one
    activation returned: then one anchor naming the file and pointing to
    the object URL (or, through the data-URL fallback, to the data URL)
    was activated, once; when it rejects, with an [Error], nothing was
    activated. Either way the console takes the notes of its approaches
    and nothing else, the timers, the windows and the record of the
    flights stay as they were, and a well-numbered page keeps the body
    and the object URLs it had. *)
Theorem X6_forceDownload_activates_at_most_once b f w :
  match snd (forceDownload io b f w) with
  | Resolved _ => activated_once b f w (fst (forceDownload io b f w))
  | Rejected e =>
      activations (fst (forceDownload io b f w)) = activations w /\
      err_name e = "Error"
  | Pending => False
  end /\
  quiet w (fst (forceDownload io b f w)) /\
  (wf w -> restored w (fst (forceDownload io b f w))).
Proof.
  destruct (forceDownload_spec io b f w) as (_ & Hq & Hr).
  split; [exact (forceDownload_outcome b f w)|]. split; [exact Hq|exact Hr].
Qed.

Lemma triggerDownload_outcome b f w :
  match snd (triggerDownload io b f w) with
  | Resolved _ =>
      exists link,
        activations (fst (triggerDownload io b f w))
        = activations w ++ [link] /\
        tagName link = ANCHOR /\ download link = f /\
        href link = ObjectURL (fresh w)
  | Rejected e =>
      activations (fst (triggerDownload io b f w)) = activations w /\
      e = Error "Failed to trigger download - all click methods failed"
  | Pending => False
  end.
Proof.
  unfold triggerDownload, approach, console_log, try_catch, bind, ask, attempt, activate,
    new_link, createElement, createObjectURL, revokeObjectURL, parentNode,
    appendChild, removeChild, throw, ret.
  cbn.
  repeat (oracle io; cbn); rewrite ?attached_last by reflexivity; cbn.
  all: rewrite ?attached_last by reflexivity; cbn.
  all: try (split; reflexivity).
  all: eexists; repeat split.
Qed.

(** X7. [triggerDownload] settles as well: it resolves when one of its
    three ways of activation returned, having activated one anchor that
    names the file and points to the object URL, and it rejects with
    "Failed to trigger download - all click methods failed" when none
    did, having activated nothing; the console takes the notes of its
    approaches and nothing else, and it cleans up as [forceDownload]
    does. Wherever it resolves, [forceDownload] resolves too. *)
Theorem X7_triggerDownload_activates_at_most_once b f w :
  match snd (triggerDownload io b f w) with
  | Resolved _ =>
      exists link,
        activations (fst (triggerDownload io b f w))
        = activations w ++ [link] /\
        tagName link = ANCHOR /\ download link = f /\
        href link = ObjectURL (fresh w)
  | Rejected e =>
      activations (fst (triggerDownload io b f w)) = activations w /\
      e = Error "Failed to trigger download - all click methods failed"
  | Pending => False
  end /\
  quiet w (fst (triggerDownload io b f w)) /\
  (wf w -> restored w (fst (triggerDownload io b f w))) /\
  (snd (triggerDownload io b f w) = Resolved tt ->
   snd (forceDownload io b f w) = Resolved tt).
Proof.
  destruct (triggerDownload_spec io b f w) as (_ & Hq & Hr).
  split; [exact (triggerDownload_outcome b f w)|].
  split; [exact Hq|]. split; [exact Hr|].
  clear Hq Hr.
  unfold triggerDownload, forceDownload, approach, console_log, try_catch, bind, ask,
    attempt, activate, new_link, createElement, createObjectURL,
    revokeObjectURL, parentNode, appendChild, removeChild, throw, ret.
  cbn.
  repeat (oracle io; cbn); rewrite ?attached_last by reflexivity; cbn.
  all: rewrite ?attached_last by reflexivity; cbn.
  all: try reflexivity; try discriminate.
Qed.

End TriggerExtras.
(** ** Relations that every step of [downloadFile] keeps *)

Section FrameFacts.

Variable io : browser.

(** A relation between the world before and after that every step of
    [downloadFile] keeps is kept by [downloadFile]. *)
Section Frame.

Variable P : world -> world -> Prop.
Hypothesis P_refl : forall w, P w w.
Hypothesis P_trans : forall a b c, P a b -> P b c -> P a c.
Hypothesis P_started : forall url fn w, P w (started url fn w).
Hypothesis P_warned : forall m e w, P w (warned m e w).

Lemma or_else_frame m s next :
  (forall w, P w (fst (s w))) -> (forall w, P w (fst (next w))) ->
  forall w, P w (fst (or_else m s next w)).
Proof.
  intros Hs Hn w. specialize (Hs w).
  destruct (s w) as [w1 [[]|e|]] eqn:E; cbn in Hs.
  - now rewrite (or_else_resolved _ _ _ _ _ E).
  - rewrite (or_else_rejected _ _ _ _ _ _ E).
    eapply P_trans; [exact Hs|]. eapply P_trans; [|apply Hn].
    apply P_warned.
  - now rewrite (or_else_pending _ _ _ _ _ E).
Qed.

Lemma downloadFile_frame url fn opts (tail : js TransferOutcome) :
  (forall w, or_else iframe (downloadViaIframe io url fn)
               (last_resort io url fn) w = tail w) ->
  (forall w, P w (fst (downloadViaDirectFetch io url fn w))) ->
  (forall w, P w (fst (downloadViaFetch io url fn opts w))) ->
  (forall w, P w (fst (downloadViaXHR io url fn opts w))) ->
  (forall w, P w (fst (downloadViaCanvas io url fn w))) ->
  (forall w, P w (fst (tail w))) ->
  forall w, P w (fst (downloadFile io url fn opts w)).
Proof.
  intros Ht H1 H2 H3 H4 H5 w.
  destruct (truthy url) eqn:Hu; [destruct (truthy fn) eqn:Hf|].
  - rewrite downloadFile_chain by assumption.
    apply (P_trans _ (started url fn w)); [apply P_started|].
    unfold chain.
    apply or_else_frame; [exact H1|].
    apply or_else_frame; [exact H2|].
    apply or_else_frame; [exact H3|].
    assert (Htail : forall w0,
               P w0 (fst (or_else iframe (downloadViaIframe io url fn)
                            (last_resort io url fn) w0))).
    { intros w0. rewrite Ht. apply H5. }
    destruct (isImage url); [|exact Htail].
    apply or_else_frame; [exact H4|exact Htail].
  - rewrite downloadFile_required by (right; exact Hf). apply P_refl.
  - rewrite downloadFile_required by (left; exact Hu). apply P_refl.
Qed.

End Frame.

(** What [downloadFile] settles to is what one of its blocks returns. *)
Lemma or_else_outcome (R : completion TransferOutcome -> Prop) m s next :
  R (Resolved (succeeded m)) -> R Pending ->
  (forall w, R (snd (next w))) ->
  forall w, R (snd (or_else m s next w)).
Proof.
  intros Hm Hp Hn w.
  destruct (s w) as [w1 [[]|e|]] eqn:E.
  - now rewrite (or_else_resolved _ _ _ _ _ E).
  - rewrite (or_else_rejected _ _ _ _ _ _ E). apply Hn.
  - now rewrite (or_else_pending _ _ _ _ _ E).
Qed.

Lemma downloadFile_outcome (R : completion TransferOutcome -> Prop)
      url fn opts :
  R (Rejected (Error "URL and filename are required")) ->
  R Pending ->
  R (Resolved (succeeded direct_fetch)) -> R (Resolved (succeeded fetch)) ->
  R (Resolved (succeeded xhr)) -> R (Resolved (succeeded canvas)) ->
  (forall w, R (snd (or_else iframe (downloadViaIframe io url fn)
                       (last_resort io url fn) w))) ->
  forall w, R (snd (downloadFile io url fn opts w)).
Proof.
  intros Hrej Hp H1 H2 H3 H4 H5 w.
  destruct (truthy url) eqn:Hu; [destruct (truthy fn) eqn:Hf|].
  - rewrite downloadFile_chain by assumption. unfold chain.
    apply or_else_outcome; [exact H1|exact Hp|].
    apply or_else_outcome; [exact H2|exact Hp|].
    apply or_else_outcome; [exact H3|exact Hp|].
    destruct (isImage url); [|exact H5].
    apply or_else_outcome; [exact H4|exact Hp|exact H5].
  - now rewrite downloadFile_required by (right; exact Hf).
  - now rewrite downloadFile_required by (left; exact Hu).
Qed.


Ltac windows_kept :=
  unfold quiet in *; cbn in *;
  repeat match goal with H : _ /\ _ |- _ => destruct H end;
  congruence.

Lemma strategies_keep_windows url fn opts w :
  windows (fst (downloadViaDirectFetch io url fn w)) = windows w /\
  windows (fst (downloadViaFetch io url fn opts w)) = windows w /\
  windows (fst (downloadViaXHR io url fn opts w)) = windows w /\
  windows (fst (downloadViaCanvas io url fn w)) = windows w /\
  windows (fst (downloadViaIframe io url fn w)) = windows w.
Proof.
  split; [|split; [|split; [|split]]].
  - unfold downloadViaDirectFetch, try_catch, bind, ask, console_log,
      setTimeout, never, throw, ret.
    cbn.
    destruct (fetch_answer io (tick w) url) as [e|r|]; cbn.
    2: destruct (ok r); cbn.
    2: destruct (payload r) as [b|e|]; cbn.
    all: reflexivity.
  - unfold downloadViaFetch, resolve_name, try_catch, bind, ask,
      console_log, never, throw, ret.
    cbn.
    destruct (fetch_answer io (tick w) url) as [e|r|]; cbn.
    2: destruct (ok r); cbn.
    all: repeat match goal with
           | |- context [ensureFileExtension_warns ?u ?a ?b ?c] =>
               destruct (ensureFileExtension_warns u a b c)
           end; cbn.
    all: try (destruct (payload r) as [b|e|]; cbn).
    all: try (use_force; cbn).
    all: repeat match goal with
           | |- context [String.eqb ?a ?b] => destruct (String.eqb a b)
           end; cbn.
    all: windows_kept.
  - unfold downloadViaXHR, resolve_name, try_catch, bind, ask, console_log,
      never, throw, ret.
    cbn.
    destruct (includes "firebasestorage.googleapis.com" url); cbn.
    1: destruct (parseURL io url) as [urlObj|]; cbn.
    all: try match goal with
           | |- context [xhr_answer io ?n ?u] =>
               destruct (xhr_answer io n u) as [st ct resp| | |]; cbn
           end.
    all: try (destruct (st =? 200); cbn).
    all: try (destruct (timeout opts =? 0)%N; cbn).
    all: repeat match goal with
           | |- context [ensureFileExtension_warns ?u ?a ?b ?c] =>
               destruct (ensureFileExtension_warns u a b c)
           end; cbn.
    all: try (use_force; cbn).
    all: windows_kept.
  - unfold downloadViaCanvas, resolve_name, callback, try_catch, attempt,
      bind, ask, console_log, createElement, never, throw, ret.
    cbn.
    destruct (image_answer io (tick w) url) as [|nw nh [e| |b]|]; cbn.
    all: repeat match goal with
           | |- context [ensureFileExtension_warns ?u ?a ?b ?c] =>
               destruct (ensureFileExtension_warns u a b c)
           end; cbn.
    all: try (use_force; cbn in *).
    all: windows_kept.
  - unfold downloadViaIframe, try_catch, attempt, bind, console_log,
      createElement, appendChild, parentNode, removeChild, throw, ret.
    cbn.
    destruct (parseURL io url) as [u|]; cbn.
    1: repeat (rewrite attached_last by reflexivity; cbn).
    all: reflexivity.
Qed.

(** An address that [new URL] accepts never fails in the iframe
    strategy. *)
Lemma downloadViaIframe_resolves url fn u w :
  parseURL io url = Some u ->
  snd (downloadViaIframe io url fn w) = Resolved tt.
Proof.
  intros Hu.
  unfold downloadViaIframe, try_catch, attempt, bind, console_log,
    createElement, appendChild, parentNode, removeChild, throw, ret.
  cbn. rewrite Hu. cbn.
  repeat (rewrite attached_last by reflexivity; cbn).
  reflexivity.
Qed.


Lemma tail_resolves_in_iframe url fn u w :
  parseURL io url = Some u ->
  or_else iframe (downloadViaIframe io url fn) (last_resort io url fn) w
  = (fst (downloadViaIframe io url fn w), Resolved (succeeded iframe)).
Proof.
  intros Hu. apply or_else_resolved.
  pose proof (downloadViaIframe_resolves url fn u w Hu) as H.
  destruct (downloadViaIframe io url fn w) as [w1 r]. cbn in *. now subst r.
Qed.

(** X8. For an address that [new URL] accepts, [downloadFile] never
    comes to its new-tab fallback: no window is opened, the new-tab
    strategy is not entered, the result never reports [newtab] or a
    failure, and a well-numbered page is left with the body and the
    object URLs it had. *)
Theorem X8_parsable_address_never_reaches_new_tab url fn opts u w :
  parseURL io url = Some u ->
  let res := downloadFile io url fn opts w in
  windows (fst res) = windows w /\
  (exists d, console (fst res) = console w ++ d /\
             ~ In newtab (attempts d)) /\
  (forall o, snd res = Resolved o ->
             success o = true /\
             In (outcome_method o) [direct_fetch; fetch; xhr; canvas; iframe]) /\
  (wf w -> body (fst res) = body w /\ objectURLs (fst res) = objectURLs w).
Proof.
  intros Hu res. subst res.
  pose proof (fun w0 => strategies_keep_windows url fn opts w0) as Hwin.
  pose proof (fun w0 => tail_resolves_in_iframe url fn u w0 Hu) as Htail.
  split; [|split; [|split]].
  - revert w.
    apply (downloadFile_frame (fun w w' => windows w' = windows w))
      with (tail := fun w0 => (fst (downloadViaIframe io url fn w0),
                               Resolved (succeeded iframe)));
      try (intros; reflexivity); try (intros; congruence); try exact Htail;
      intros w0; apply (Hwin w0).
  - revert w.
    apply (downloadFile_frame
             (fun w w' => exists d, console w' = console w ++ d /\
                                    ~ In newtab (attempts d)))
      with (tail := fun w0 => (fst (downloadViaIframe io url fn w0),
                               Resolved (succeeded iframe)));
      try exact Htail.
    + intros w0. exists []. rewrite app_nil_r. now split.
    + intros a b c (d1 & E1 & N1) (d2 & E2 & N2). exists (d1 ++ d2).
      rewrite E2, E1, app_assoc, attempts_app. split; [reflexivity|].
      rewrite in_app_iff. tauto.
    + intros url0 fn0 w0. eexists. split; [reflexivity|]. cbn. tauto.
    + intros m e w0. eexists. split; [reflexivity|]. cbn. tauto.
    + intros w0. destruct (downloadViaDirectFetch_spec io url fn w0)
        as ((d & Hc & Ha & _) & _). exists d. split; [exact Hc|].
      rewrite Ha. cbn. intuition discriminate.
    + intros w0. destruct (downloadViaFetch_spec io url fn opts w0)
        as ((d & Hc & Ha & _) & _). exists d. split; [exact Hc|].
      rewrite Ha. cbn. intuition discriminate.
    + intros w0. destruct (downloadViaXHR_spec io url fn opts w0)
        as ((d & Hc & Ha & _) & _). exists d. split; [exact Hc|].
      rewrite Ha. cbn. intuition discriminate.
    + intros w0. destruct (downloadViaCanvas_spec io url fn w0)
        as ((d & Hc & Ha & _) & _). exists d. split; [exact Hc|].
      rewrite Ha. cbn. intuition discriminate.
    + intros w0. destruct (downloadViaIframe_spec io url fn w0)
        as ((d & Hc & Ha & _) & _). exists d. split; [exact Hc|].
      rewrite Ha. cbn. intuition discriminate.
  - revert w.
    apply (downloadFile_outcome
             (fun c => forall o, c = Resolved o ->
                success o = true /\
                In (outcome_method o)
                   [direct_fetch; fetch; xhr; canvas; iframe])).
    1,2: discriminate.
    1-4: intros o [= <-]; cbn; tauto.
    intros w0 o. rewrite Htail. cbn. intros [= <-]. cbn. tauto.
  - revert w.
    assert (forall w, wf w -> restored w (fst (downloadFile io url fn opts w)))
      as H; [|intros w Hw; destruct (H w Hw) as (Eb & Eo & _); now split].
    apply (downloadFile_frame (fun w w' => wf w -> restored w w'))
      with (tail := fun w0 => (fst (downloadViaIframe io url fn w0),
                               Resolved (succeeded iframe)));
      try exact Htail.
    + intros w0 _. apply restored_refl.
    + intros a b c Hab Hbc Ha. eapply restored_trans; [now apply Hab|].
      apply Hbc. eapply restored_wf; [exact Ha|now apply Hab].
    + intros url0 fn0 w0 _. repeat split. cbn. lia.
    + intros m e w0 _. repeat split. cbn. lia.
    + intros w0. apply (downloadViaDirectFetch_spec io url fn w0).
    + intros w0. apply (downloadViaFetch_spec io url fn opts w0).
    + intros w0. apply (downloadViaXHR_spec io url fn opts w0).
    + intros w0. apply (downloadViaCanvas_spec io url fn w0).
    + intros w0. apply (downloadViaIframe_spec io url fn w0).
Qed.

End FrameFacts.
(** ** What each strategy activates and leaves *)

Ltac use_force_ledger :=
  match goal with
  | |- context [forceDownload ?i ?x ?y ?W] =>
      let Hq := fresh "Hq" in
      let Ho := fresh "Ho" in
      let w' := fresh "w'" in
      pose proof (forceDownload_spec i x y W) as (_ & Hq & _);
      pose proof (forceDownload_outcome i x y W) as Ho;
      destruct (forceDownload i x y W) as [w' [[]|?|]];
      cbn [fst snd] in Hq, Ho;
      [ | | contradiction ]
  end.

Ltac ledger_done :=
  unfold quiet, activated_once, offered in *; cbn in *;
  repeat match goal with
         | H : _ /\ _ |- _ => destruct H
         | H : exists _, _ |- _ => destruct H
         end;
  repeat split; try congruence.

Section Ledgers.

Variable io : browser.

Lemma downloadViaFetch_ledger url fn opts w :
  timers (fst (downloadViaFetch io url fn opts w)) = timers w /\
  match snd (downloadViaFetch io url fn opts w) with
  | Resolved _ =>
      exists resp, fetch_answer io (tick w) url = FetchResponds resp /\
        offered (ensureFileExtension (url_pathname io) fn url
                   (or_empty (contentType resp)))
                w (fst (downloadViaFetch io url fn opts w))
  | _ =>
      activations (fst (downloadViaFetch io url fn opts w)) = activations w
  end.
Proof.
  unfold downloadViaFetch, resolve_name, try_catch, bind, ask, console_log,
    never, throw, ret.
  cbn.
  destruct (fetch_answer io (tick w) url) as [e|r|]; cbn.
  2: destruct (ok r); cbn.
  all: repeat match goal with
         | |- context [ensureFileExtension_warns ?u ?a ?b ?c] =>
             destruct (ensureFileExtension_warns u a b c)
         end; cbn.
  all: try (destruct (payload r) as [b|e|]; cbn).
  all: try (use_force_ledger; cbn).
  all: repeat match goal with
         | |- context [String.eqb ?a ?b] => destruct (String.eqb a b)
         end; cbn.
  all: try (ledger_done; fail).
  all: ledger_done; exists r; (split; [reflexivity|]); eexists;
    repeat split; eauto.
Qed.


Lemma downloadViaXHR_ledger url fn opts w :
  timers (fst (downloadViaXHR io url fn opts w)) = timers w /\
  match snd (downloadViaXHR io url fn opts w) with
  | Resolved _ =>
      exists address ct resp,
        xhr_answer io (tick w) address = XhrLoad 200 ct resp /\
        offered (ensureFileExtension (url_pathname io) fn url (or_empty ct))
                w (fst (downloadViaXHR io url fn opts w))
  | _ =>
      activations (fst (downloadViaXHR io url fn opts w)) = activations w
  end.
Proof.
  unfold downloadViaXHR, resolve_name, try_catch, bind, ask, console_log,
    never, throw, ret.
  cbn.
  destruct (includes "firebasestorage.googleapis.com" url); cbn.
  1: destruct (parseURL io url) as [urlObj|]; cbn.
  all: try match goal with
         | |- context [xhr_answer io ?n ?u] =>
             destruct (xhr_answer io n u) as [st ct resp| | |] eqn:Ex; cbn
         end.
  all: try (destruct (st =? 200) eqn:Est; cbn).
  all: try (destruct (timeout opts =? 0)%N; cbn).
  all: repeat match goal with
         | |- context [ensureFileExtension_warns ?u ?a ?b ?c] =>
             destruct (ensureFileExtension_warns u a b c)
         end; cbn.
  all: try (use_force_ledger; cbn).
  all: try (ledger_done; fail).
  all: apply Nat.eqb_eq in Est; subst st; ledger_done.
  all: do 3 eexists; split; [exact Ex|]; eexists; repeat split; eauto.
Qed.

Lemma downloadViaCanvas_ledger url fn w :
  timers (fst (downloadViaCanvas io url fn w)) = timers w /\
  match snd (downloadViaCanvas io url fn w) with
  | Resolved _ =>
      offered (ensureFileExtension (url_pathname io) fn url "image/jpeg")
              w (fst (downloadViaCanvas io url fn w))
  | _ => activations (fst (downloadViaCanvas io url fn w)) = activations w
  end.
Proof.
  unfold downloadViaCanvas, resolve_name, callback, try_catch, attempt,
    bind, ask, console_log, createElement, never, throw, ret.
  cbn.
  destruct (image_answer io (tick w) url) as [|nw nh [e| |b]|]; cbn.
  all: repeat match goal with
         | |- context [ensureFileExtension_warns ?u ?a ?b ?c] =>
             destruct (ensureFileExtension_warns u a b c)
         end; cbn.
  all: try (use_force_ledger; cbn).
  all: try (ledger_done; fail).
  all: ledger_done; eexists; repeat split; eauto.
Qed.

Lemma downloadViaIframe_ledger url fn w :
  timers (fst (downloadViaIframe io url fn w)) = timers w /\
  activations (fst (downloadViaIframe io url fn w)) = activations w.
Proof.
  unfold downloadViaIframe, try_catch, attempt, bind, console_log,
    createElement, appendChild, parentNode, removeChild, throw, ret.
  cbn.
  destruct (parseURL io url) as [u|]; cbn.
  1: repeat (rewrite attached_last by reflexivity; cbn).
  all: split; reflexivity.
Qed.

Lemma downloadViaDirectFetch_ledger url fn w :
  activations (fst (downloadViaDirectFetch io url fn w)) = activations w /\
  body (fst (downloadViaDirectFetch io url fn w)) = body w /\
  match snd (downloadViaDirectFetch io url fn w) with
  | Resolved _ =>
      exists resp b,
        fetch_answer io (tick w) url = FetchResponds resp /\
        ok resp = true /\ payload resp = BodyBlob b /\
        timers (fst (downloadViaDirectFetch io url fn w))
        = timers w ++ [ReaderLoad b fn]
  | _ => timers (fst (downloadViaDirectFetch io url fn w)) = timers w
  end.
Proof.
  unfold downloadViaDirectFetch, try_catch, bind, ask, console_log,
    setTimeout, never, throw, ret.
  cbn.
  destruct (fetch_answer io (tick w) url) as [e|r|]; cbn.
  2: destruct (ok r) eqn:Eok; cbn.
  2: destruct (payload r) as [b|e|] eqn:Ep; cbn.
  all: repeat split.
  exists r, b. repeat split; assumption.
Qed.

Lemma downloadViaNewTab_ledger url fn w :
  (offered fn w (fst (downloadViaNewTab io url fn w)) /\
   timers (fst (downloadViaNewTab io url fn w))
   = timers w ++ [Instructions url] /\
   windows (fst (downloadViaNewTab io url fn w)) = windows w) \/
  (activations (fst (downloadViaNewTab io url fn w)) = activations w /\
   timers (fst (downloadViaNewTab io url fn w)) = timers w /\
   windows (fst (downloadViaNewTab io url fn w)) = windows w ++ [url]).
Proof.
  unfold downloadViaNewTab, try_catch, bind, ask, activate, new_link,
    console_log, createElement, appendChild, removeChild, setTimeout,
    window_open, throw, ret, offered.
  cbn.
  destruct (dom_throws io (tick w) Click); cbn.
  2: repeat (rewrite attached_last by reflexivity; cbn).
  - right. repeat split.
  - left. split; [|split; reflexivity]. eexists. repeat split.
Qed.

(** The deferred part of the direct-fetch strategy activates at most one
    link, named as the caller named the file. *)
Lemma ReaderLoad_ledger b fn w :
  activations (fst (run_task io (ReaderLoad b fn) w)) = activations w \/
  exists link,
    activations (fst (run_task io (ReaderLoad b fn) w))
    = activations w ++ [link] /\
    tagName link = ANCHOR /\ download link = fn /\ href link = DataURL b.
Proof.
  unfold run_task, bind, ask, activate, new_link, createElement,
    appendChild, removeChild, throw, ret.
  cbn.
  repeat (oracle io; cbn); rewrite ?attached_last by reflexivity; cbn.
  all: try (left; reflexivity).
  right. eexists. repeat split.
Qed.

End Ledgers.

(** ** When the transfers fail *)

Section Exhaustion.

Variable io : browser.



End Exhaustion.



(** ** The direct-fetch strategy *)

Section DirectFetch.

Variable io : browser.

Lemma downloadViaDirectFetch_resolves url fn w resp b :
  fetch_answer io (tick w) url = FetchResponds resp ->
  ok resp = true -> payload resp = BodyBlob b ->
  downloadViaDirectFetch io url fn w
  = (with_console (fun c => c ++ [LogCompleted direct_fetch fn])
       (with_timers (fun q => q ++ [ReaderLoad b fn])
          (with_tick (S (tick w))
             (with_console (fun c => c ++ [LogTrying direct_fetch fn]) w))),
     Resolved tt).
Proof.
  intros Hf Hok Hp.
  unfold downloadViaDirectFetch, try_catch, bind, ask, console_log,
    setTimeout, throw, ret.
  cbn. rewrite Hf. cbn. rewrite Hok. cbn. rewrite Hp. reflexivity.
Qed.

(** X9. When the first request is answered with a readable body,
    [downloadFile] reports success by direct fetch at once: no link has
    been activated or attached by then, and the saving itself is left
    to a task of the event loop. *)
Theorem X9_direct_fetch_reports_before_the_click url fn opts w resp b :
  truthy url = true -> truthy fn = true ->
  fetch_answer io (tick w) url = FetchResponds resp ->
  ok resp = true -> payload resp = BodyBlob b ->
  let res := downloadFile io url fn opts w in
  snd res = Resolved (succeeded direct_fetch) /\
  activations (fst res) = activations w /\
  body (fst res) = body w /\
  windows (fst res) = windows w /\
  timers (fst res) = timers w ++ [ReaderLoad b fn].
Proof.
  intros Hu Hn Hf Hok Hp res. subst res.
  rewrite downloadFile_chain by assumption. unfold chain.
  rewrite (or_else_resolved _ _ _ _ _
             (downloadViaDirectFetch_resolves url fn (started url fn w)
                resp b Hf Hok Hp)).
  repeat split.
Qed.

(** X10. What that task then does: it activates at most one link, and
    the link offers the file under the name exactly as the caller gave
    it, with no extension added; when the reader fails, nothing is ever
    activated, though success was reported. *)
Theorem X10_direct_fetch_saves_under_the_given_name url fn opts w resp b :
  truthy url = true -> truthy fn = true ->
  fetch_answer io (tick w) url = FetchResponds resp ->
  ok resp = true -> payload resp = BodyBlob b ->
  timers w = [] ->
  let res := downloadFile io url fn opts w in
  let w' := run_timers io (fst res) in
  snd res = Resolved (succeeded direct_fetch) /\
  (activations w' = activations w \/
   exists link, activations w' = activations w ++ [link] /\
                tagName link = ANCHOR /\ download link = fn /\
                href link = DataURL b) /\
  (reader_fails io (S (tick w)) = true -> activations w' = activations w) /\
  (reader_fails io (S (tick w)) = false ->
   dom_throws io (S (S (tick w))) Click = None ->
   exists link, activations w' = activations w ++ [link] /\
                tagName link = ANCHOR /\ download link = fn /\
                href link = DataURL b).
Proof.
  intros Hu Hn Hf Hok Hp Ht res w'. subst res w'.
  rewrite downloadFile_chain by assumption. unfold chain.
  rewrite (or_else_resolved _ _ _ _ _
             (downloadViaDirectFetch_resolves url fn (started url fn w)
                resp b Hf Hok Hp)).
  split; [reflexivity|].
  unfold run_timers. cbn. rewrite Ht. cbn.
  split; [|split].
  - unfold bind, ask, activate, new_link, createElement, appendChild,
      removeChild, throw, ret.
    cbn. repeat (oracle io; cbn); rewrite ?attached_last by reflexivity; cbn.
    all: try (left; reflexivity).
    right. eexists. repeat split.
  - intros Hr. rewrite Hr. reflexivity.
  - intros Hr Hc. rewrite Hr.
    unfold bind, ask, activate, new_link, createElement, appendChild,
      removeChild, throw, ret.
    cbn. rewrite Hc. cbn.
    repeat (rewrite attached_last by reflexivity; cbn).
    eexists. repeat split.
Qed.

End DirectFetch.
(** ** One call, one download *)

Section OneDownload.

Variable io : browser.

Lemma ensureFileExtension_prefix up fn url ct :
  truthy fn = true ->
  startsWith fn (ensureFileExtension up fn url ct) = true.
Proof.
  intros Hf.
  destruct (ensureFileExtension_shape up fn url ct Hf) as [(H & _)|[e H]];
    rewrite H; [apply startsWith_refl | apply startsWith_app].
Qed.

Lemma offered_at_most_one fn name w w' :
  startsWith fn name = true -> offered name w w' ->
  at_most_one_saved fn w w'.
Proof.
  intros Hs (link & Ha & Ht & Hd). right. exists link.
  rewrite Hd. now repeat split.
Qed.

Lemma or_else_one_download fn m s next :
  (forall w, match snd (s w) with
             | Rejected _ => nothing_saved w (fst (s w))
             | _ => one_download fn w (fst (s w))
             end) ->
  (forall w, one_download fn w (fst (next w))) ->
  forall w, one_download fn w (fst (or_else m s next w)).
Proof.
  intros Hs Hn w. specialize (Hs w).
  destruct (s w) as [w1 [[]|e|]] eqn:E; cbn in Hs.
  - now rewrite (or_else_resolved _ _ _ _ _ E).
  - rewrite (or_else_rejected _ _ _ _ _ _ E).
    specialize (Hn (warned m e w1)). destruct Hs as [Ht Ha].
    unfold one_download, at_most_one_saved in *. cbn in Hn.
    rewrite Ht, Ha in Hn. exact Hn.
  - now rewrite (or_else_pending _ _ _ _ _ E).
Qed.

Lemma downloadFile_one_download url fn opts w :
  one_download fn w (fst (downloadFile io url fn opts w)).
Proof.
  assert (Hrefl : forall w0, one_download fn w0 w0).
  { intros w0. right. split; left; reflexivity. }
  destruct (truthy url) eqn:Hu; [destruct (truthy fn) eqn:Hf|].
  2: { rewrite downloadFile_required by (right; exact Hf). apply Hrefl. }
  2: { rewrite downloadFile_required by (left; exact Hu). apply Hrefl. }
  rewrite downloadFile_chain by assumption.
  assert (Hstart : forall w', one_download fn (started url fn w) w' ->
                              one_download fn w w') by (intros w' H; exact H).
  apply Hstart. generalize (started url fn w). clear w Hstart.
  unfold chain.
  apply or_else_one_download.
  { intros w.
    destruct (downloadViaDirectFetch_ledger io url fn w) as (Ha & _ & H).
    destruct (snd (downloadViaDirectFetch io url fn w)).
    - destruct H as (resp & b & _ & _ & _ & Ht). left. now exists b.
    - now split.
    - right. split; left; assumption. }
  apply or_else_one_download.
  { intros w.
    destruct (downloadViaFetch_ledger io url fn opts w) as (Ht & H).
    destruct (snd (downloadViaFetch io url fn opts w)).
    - destruct H as (resp & _ & Ho). right. split; [now left|].
      eapply offered_at_most_one; [|exact Ho].
      now apply ensureFileExtension_prefix.
    - now split.
    - right. split; left; assumption. }
  apply or_else_one_download.
  { intros w.
    destruct (downloadViaXHR_ledger io url fn opts w) as (Ht & H).
    destruct (snd (downloadViaXHR io url fn opts w)).
    - destruct H as (address & ct & resp & _ & Ho). right.
      split; [now left|].
      eapply offered_at_most_one; [|exact Ho].
      now apply ensureFileExtension_prefix.
    - now split.
    - right. split; left; assumption. }
  assert (Htail : forall w,
             one_download fn w
               (fst (or_else iframe (downloadViaIframe io url fn)
                       (last_resort io url fn) w))).
  { apply or_else_one_download.
    - intros w. destruct (downloadViaIframe_ledger io url fn w) as (Ht & Ha).
      destruct (snd (downloadViaIframe io url fn w));
        [right; split; [now left|now left] | now split
         | right; split; [now left|now left]].
    - intros w. rewrite last_resort_eq. cbn.
      destruct (downloadViaNewTab_ledger io url fn w)
        as [(Ho & Ht & _)|(Ha & Ht & _)]; right.
      + split; [right; now exists url|].
        eapply offered_at_most_one; [|exact Ho]. apply startsWith_refl.
      + split; [now left|now left]. }
  destruct (isImage url); [|exact Htail].
  apply or_else_one_download; [|exact Htail].
  intros w. destruct (downloadViaCanvas_ledger io url fn w) as (Ht & H).
  destruct (snd (downloadViaCanvas io url fn w)).
  - right. split; [now left|].
    eapply offered_at_most_one; [|exact H].
    now apply ensureFileExtension_prefix.
  - now split.
  - right. split; [now left|now left].
Qed.

(** X11. One call of [downloadFile] saves at most one file, whichever
    strategies it goes through and whatever the browser answers: when
    the call has settled and the event loop has run the tasks it left,
    at most one link has been activated, an anchor whose [download]
    attribute begins with the requested filename. *)
Theorem X11_one_call_saves_at_most_one_file url fn opts w :
  timers w = [] ->
  at_most_one_saved fn w (run_timers io (fst (downloadFile io url fn opts w))).
Proof.
  intros Ht.
  destruct (downloadFile_one_download url fn opts w)
    as [(b & Hq & Ha)|([Hq|(u & Hq)] & Hone)];
    rewrite Ht in Hq; cbn in Hq; unfold run_timers; rewrite Hq; cbn [fold_left].
  - match goal with
    | |- context [run_task io (ReaderLoad b fn) ?W] =>
        destruct (ReaderLoad_ledger io b fn W) as [H|(link & H & Htag & Hd & _)]
    end; cbn in H; rewrite Ha in H.
    + now left.
    + right. exists link. rewrite Hd. split; [exact H|].
      split; [exact Htag|apply startsWith_refl].
  - exact Hone.
  - exact Hone.
Qed.

End OneDownload.
(** ** The page after a call, and the names of the saved files *)

Section PageFacts.

Variable io : browser.

Lemma downloadViaNewTab_objectURLs url fn w :
  objectURLs (fst (downloadViaNewTab io url fn w)) = objectURLs w.
Proof.
  unfold downloadViaNewTab, try_catch, bind, ask, activate, new_link,
    console_log, createElement, appendChild, removeChild, setTimeout,
    window_open, throw, ret.
  cbn.
  destruct (dom_throws io (tick w) Click); cbn.
  2: repeat (rewrite attached_last by reflexivity; cbn).
  all: reflexivity.
Qed.

Lemma downloadFile_page url fn opts w :
  wf w ->
  objectURLs (fst (downloadFile io url fn opts w)) = objectURLs w /\
  (reliable io -> body (fst (downloadFile io url fn opts w)) = body w) /\
  wf (fst (downloadFile io url fn opts w)).
Proof.
  revert w.
  set (P := fun w w' : world =>
              wf w -> objectURLs w' = objectURLs w /\
                      (reliable io -> body w' = body w) /\ wf w').
  assert (Hkeep : forall w w', (wf w -> restored w w') -> P w w').
  { intros w w' H Hw. destruct (H Hw) as (Eb & Eu & Hf).
    split; [exact Eu|]. split; [intros _; exact Eb|].
    eapply restored_wf; [exact Hw|]. now repeat split. }
  assert (Hrefl : forall w, P w w).
  { intros w. apply Hkeep. intros _. apply restored_refl. }
  assert (Htrans : forall a b c, P a b -> P b c -> P a c).
  { intros a b c Hab Hbc Ha. destruct (Hab Ha) as (E1 & B1 & W1).
    destruct (Hbc W1) as (E2 & B2 & W2).
    split; [congruence|]. split; [|exact W2].
    intros Hio. rewrite (B2 Hio). now apply B1. }
  assert (Hstart : forall url0 fn0 w, P w (started url0 fn0 w)).
  { intros url0 fn0 w. apply Hkeep. intros _. repeat split. cbn. lia. }
  assert (Hwarn : forall m e w, P w (warned m e w)).
  { intros m e w. apply Hkeep. intros _. repeat split. cbn. lia. }
  apply (downloadFile_frame io P Hrefl Htrans Hstart Hwarn url fn opts
           (or_else iframe (downloadViaIframe io url fn)
              (last_resort io url fn))).
  - reflexivity.
  - intros w. apply Hkeep, (downloadViaDirectFetch_spec io url fn w).
  - intros w. apply Hkeep, (downloadViaFetch_spec io url fn opts w).
  - intros w. apply Hkeep, (downloadViaXHR_spec io url fn opts w).
  - intros w. apply Hkeep, (downloadViaCanvas_spec io url fn w).
  - apply (or_else_frame P Htrans Hwarn).
    + intros w. apply Hkeep, (downloadViaIframe_spec io url fn w).
    + intros w. rewrite last_resort_eq. cbn. intros Hw.
      split; [apply downloadViaNewTab_objectURLs|]. split.
      * intros Hio. apply downloadViaNewTab_removes_link; [exact Hw|].
        apply Hio.
      * now apply (downloadViaNewTab_spec io url fn w).
Qed.

(** X12. Every object URL the pipeline creates it revokes again: after
    [downloadFile], whatever the browser answered, the live object URLs
    are those that were live before; where no guarded call on a link
    throws, the body of the document is as it was, too. *)
Theorem X12_object_urls_are_always_revoked url fn opts w :
  wf w ->
  objectURLs (fst (downloadFile io url fn opts w)) = objectURLs w /\
  (reliable io -> body (fst (downloadFile io url fn opts w)) = body w) /\
  wf (fst (downloadFile io url fn opts w)).
Proof. exact (downloadFile_page url fn opts w). Qed.

(** X13. The three strategies that hold the file as a blob save it under
    the resolved name: when one of them resolves, one anchor has been
    activated and its [download] attribute is what [ensureFileExtension]
    makes of the filename, with the content type of the response for
    [fetch] and XHR and with "image/jpeg" for the canvas; when one of
    them does not resolve, it has activated nothing. *)
Theorem X13_blob_strategies_save_under_the_resolved_name url fn opts w :
  (snd (downloadViaFetch io url fn opts w) = Resolved tt ->
   exists resp,
     fetch_answer io (tick w) url = FetchResponds resp /\
     offered (ensureFileExtension (url_pathname io) fn url
                (or_empty (contentType resp)))
             w (fst (downloadViaFetch io url fn opts w))) /\
  (snd (downloadViaXHR io url fn opts w) = Resolved tt ->
   exists address ct resp,
     xhr_answer io (tick w) address = XhrLoad 200 ct resp /\
     offered (ensureFileExtension (url_pathname io) fn url (or_empty ct))
             w (fst (downloadViaXHR io url fn opts w))) /\
  (snd (downloadViaCanvas io url fn w) = Resolved tt ->
   offered (ensureFileExtension (url_pathname io) fn url "image/jpeg")
           w (fst (downloadViaCanvas io url fn w))) /\
  (snd (downloadViaFetch io url fn opts w) <> Resolved tt ->
   activations (fst (downloadViaFetch io url fn opts w)) = activations w) /\
  (snd (downloadViaXHR io url fn opts w) <> Resolved tt ->
   activations (fst (downloadViaXHR io url fn opts w)) = activations w) /\
  (snd (downloadViaCanvas io url fn w) <> Resolved tt ->
   activations (fst (downloadViaCanvas io url fn w)) = activations w).
Proof.
  destruct (downloadViaFetch_ledger io url fn opts w) as (_ & Hf).
  destruct (downloadViaXHR_ledger io url fn opts w) as (_ & Hx).
  destruct (downloadViaCanvas_ledger io url fn w) as (_ & Hc).
  destruct (snd (downloadViaFetch io url fn opts w)) as [[]|?|];
    destruct (snd (downloadViaXHR io url fn opts w)) as [[]|?|];
    destruct (snd (downloadViaCanvas io url fn w)) as [[]|?|];
    try contradiction.
  all: repeat split; intros H; try discriminate; try congruence;
    try assumption.
Qed.

End PageFacts.
(** ** More on the batch runner *)

Section BatchExtras.

Variable io : browser.

(** What [downloadFile] settles to. *)
Lemma downloadFile_verdict url fn opts w :
  match snd (downloadFile io url fn opts w) with
  | Resolved o =>
      truthy url && truthy fn = true /\
      exists m, o = succeeded m /\ m <> none
  | Rejected e =>
      truthy url && truthy fn = false /\
      e = Error "URL and filename are required"
  | Pending => True
  end.
Proof.
  assert (H : match snd (downloadFile io url fn opts w) with
              | Resolved o => exists m, o = succeeded m /\ m <> none
              | Rejected e => e = Error "URL and filename are required"
              | Pending => True
              end).
  { revert w.
    apply (downloadFile_outcome io
             (fun c => match c with
                       | Resolved o => exists m, o = succeeded m /\ m <> none
                       | Rejected e =>
                           e = Error "URL and filename are required"
                       | Pending => True
                       end)); try exact I; try reflexivity.
    1-4: eexists; split; [reflexivity|discriminate].
    intros w.
    apply (or_else_outcome
             (fun c => match c with
                       | Resolved o => exists m, o = succeeded m /\ m <> none
                       | Rejected e =>
                           e = Error "URL and filename are required"
                       | Pending => True
                       end)); try exact I.
    - eexists; split; [reflexivity|discriminate].
    - intros w0. rewrite last_resort_eq. cbn.
      eexists; split; [reflexivity|discriminate]. }
  destruct (downloadFile_account io url fn opts w) as (_ & Hrej & _).
  cbn zeta in Hrej.
  destruct (truthy url) eqn:Hu; [destruct (truthy fn) eqn:Hf|].
  2: { rewrite downloadFile_required by (right; exact Hf). now split. }
  2: { rewrite downloadFile_required by (left; exact Hu). now split. }
  destruct (snd (downloadFile io url fn opts w)) as [o|e|]; auto.
  specialize (Hrej e eq_refl). discriminate.
Qed.

Lemma map_nth_error_seq {A} (l pre : list A) :
  map (nth_error (pre ++ l)) (seq (length pre) (length l)) = map Some l.
Proof.
  revert pre. induction l as [|x l IH]; intros pre; [reflexivity|].
  cbn [length seq map]. f_equal.
  - rewrite nth_error_app2 by lia. now rewrite Nat.sub_diag.
  - specialize (IH (pre ++ [x])).
    rewrite <- app_assoc, length_app, Nat.add_1_r in IH. exact IH.
Qed.

Lemma map_Some_inj {A} (l l' : list A) : map Some l = map Some l' -> l = l'.
Proof.
  revert l'. induction l as [|x l IH]; intros [|y l'] H; try discriminate;
    [reflexivity|].
  cbn in H. injection H as -> H. f_equal. now apply IH.
Qed.

(** Every entry of a run of downloads says what [downloadFile] can come
    to for its item, and stands for that item. *)
Lemma attempted_honest opts order w es w' :
  attempted io opts order w es w' ->
  Forall honest es /\ map item_of es = map snd order.
Proof.
  induction 1 as [|i f rest w w0 e es w' Hb (Hi & Hu & Hn & Hr) _ [IH1 IH2]].
  - split; constructor.
  - assert (Hitem : item_of e = f)
      by (unfold item_of; rewrite Hu, Hn; now destruct f).
    split; [|cbn; now rewrite Hitem, IH2].
    constructor; [|exact IH1].
    pose proof (downloadFile_verdict (file_url f) (file_filename f) opts w0)
      as Hv.
    unfold honest. rewrite Hitem. unfold well_formed_item.
    destruct (snd (downloadFile io (file_url f) (file_filename f) opts w0))
      as [o|x|]; [| |contradiction].
    + destruct Hv as (-> & m & -> & Hm). cbn in Hr.
      destruct Hr as (-> & -> & ->). now repeat split.
    + destruct Hv as (-> & ->). cbn in Hr.
      destruct Hr as (-> & -> & ->). now repeat split.
Qed.

Lemma honest_count es :
  Forall honest es ->
  length (filter entry_success es)
  = length (filter well_formed_item (map item_of es)) /\
  length (filter (fun e => negb (entry_success e)) es)
  = length (filter (fun f => negb (well_formed_item f)) (map item_of es)).
Proof.
  induction 1 as [|e es He _ [IH1 IH2]]; [now split|].
  cbn. unfold honest in He.
  destruct (well_formed_item (item_of e));
    destruct He as (-> & _); cbn; rewrite IH1, IH2; now split.
Qed.

(** With no concurrency the loop stands still: no turn takes an item. *)
Lemma batches_zero opts files turns : forall i t w,
  concurrency opts = 0 -> i < length files ->
  snd (batches io opts files turns i t w) = Pending /\
  console (fst (batches io opts files turns i t w)) = console w.
Proof.
  induction turns as [|turns IH]; intros i t w H0 Hi; cbn [batches];
    destruct (Nat.ltb_spec i (length files)) as [_|Hge]; try lia.
  - now split.
  - unfold run_batch, slice. rewrite H0, Nat.add_0_r, Nat.sub_diag.
    cbn [firstn length seq combine launch_items sort_by fold_right
         run_items and_then].
    destruct (IH i t w H0 Hi) as (Hp & Hc).
    split; [exact Hp|exact Hc].
Qed.

Lemma resolved_has_concurrency files opts w w' r :
  downloadMultipleFiles io (FilesArray files) opts w = (w', Resolved r) ->
  files <> [] /\ 1 <= concurrency opts.
Proof.
  intros E. destruct files as [|f fs]; [discriminate|].
  split; [discriminate|].
  destruct (Nat.eq_dec (concurrency opts) 0) as [H0|HN]; [|lia].
  rewrite downloadMultipleFiles_loop in E.
  destruct (batches_zero opts (f :: fs) (length (f :: fs)) 0
              {| tally_successful := 0; tally_failed := 0;
                 tally_results := [] |} w H0 ltac:(cbn; lia)) as (Hp & _).
  destruct (batches io opts (f :: fs) (length (f :: fs)) 0 _ w)
    as [w1 [t|e|]]; discriminate.
Qed.

Lemma indices_in_place {A} (f : A -> nat) l : forall k,
  (forall p e, nth_error l p = Some e -> f e = k + p) ->
  map f l = seq k (length l).
Proof.
  induction l as [|x l IH]; intros k H; [reflexivity|].
  cbn. f_equal.
  - rewrite (H 0 x eq_refl). lia.
  - apply IH. intros p e Hn. rewrite (H (S p) e Hn). lia.
Qed.

Lemma items_in_place items es :
  Forall (matches items) es ->
  map entry_index es = seq 0 (length items) ->
  map item_of es = items.
Proof.
  intros Hm Hi. apply map_Some_inj.
  pose proof (map_nth_error_seq items []) as Hseq. cbn in Hseq.
  rewrite <- Hseq, <- Hi. clear Hi Hseq.
  induction Hm as [|e es He _ IH]; [reflexivity|].
  cbn. now rewrite IH, He.
Qed.

(** X14. For an array without holes and callbacks that do not throw,
    the results of a batch run keep the order of the batches: the entry
    at position [p] stands for an item of the same batch of
    [concurrency] consecutive items as position [p]. With the default
    [concurrency] of one the results are in the order of the input. *)
Theorem X14_results_keep_the_order_of_the_batches items opts w w' r :
  courteous opts ->
  downloadMultipleFiles io (FilesArray (map Some items)) opts w
  = (w', Resolved r) ->
  (forall p e, nth_error (results r) p = Some e ->
               entry_index e / concurrency opts = p / concurrency opts) /\
  (concurrency opts = 1 ->
   map entry_index (results r) = seq 0 (length items) /\
   map item_of (results r) = items).
Proof.
  intros Hc E.
  destruct (resolved_has_concurrency _ _ _ _ _ E) as [Hne HN].
  assert (Hne' : items <> []) by (intros ->; now apply Hne).
  pose proof (downloadMultipleFiles_courteous io items opts w Hne' HN Hc)
    as H.
  cbn zeta in H. rewrite E in H. cbn [fst snd] in H.
  destruct H as (_ & _ & _ & Hgr & order & Hp & Hat).
  split; [exact Hgr|].
  intros H1.
  destruct (attempted_entries _ _ _ _ _ _ Hat) as [Hidx _].
  assert (Hl : length (results r) = length items).
  { rewrite <- (length_map entry_index), Hidx, length_map,
      (Permutation_length Hp).
    unfold indexed. rewrite length_combine, length_seq. lia. }
  assert (Hi : map entry_index (results r) = seq 0 (length items)).
  { rewrite <- Hl. apply indices_in_place. intros p e Hn.
    specialize (Hgr p e Hn). rewrite H1, !Nat.div_1_r in Hgr. exact Hgr. }
  split; [exact Hi|]. apply items_in_place; [|exact Hi].
  now apply (attempted_matches io opts items order w _ w').
Qed.

(** X15. For an array without holes and callbacks that do not throw,
    in the object a batch resolves to an item counts as failed exactly
    when it lacks a URL or a filename: such an entry names no method
    and carries the message of the guard, every other entry reports
    success and a method, and [successful] and [failed] are the numbers
    of the items of the two kinds. No answer of the network makes an
    item fail. *)
Theorem X15_a_batch_item_fails_only_for_want_of_url_or_filename
        items opts w w' r :
  courteous opts ->
  downloadMultipleFiles io (FilesArray (map Some items)) opts w
  = (w', Resolved r) ->
  Forall honest (results r) /\
  successful r = length (filter well_formed_item items) /\
  failed r = length (filter (fun f => negb (well_formed_item f)) items).
Proof.
  intros Hc E.
  destruct (resolved_has_concurrency _ _ _ _ _ E) as [Hne HN].
  assert (Hne' : items <> []) by (intros ->; now apply Hne).
  pose proof (downloadMultipleFiles_courteous io items opts w Hne' HN Hc)
    as H.
  cbn zeta in H. rewrite E in H. cbn [fst snd] in H.
  destruct H as (_ & Hs & Hf & _ & order & Hp & Hat).
  destruct (attempted_honest _ _ _ _ _ Hat) as [Hh Hitems].
  destruct (honest_count _ Hh) as (E1 & E2).
  assert (Hperm : Permutation (map item_of (results r)) items).
  { rewrite Hitems, <- (indexed_snd items 0). now apply Permutation_map. }
  split; [exact Hh|]. split.
  - rewrite Hs, E1. now apply filter_length_perm.
  - rewrite Hf, E2. now apply filter_length_perm.
Qed.

(** X16. With [concurrency: 0] and a non-empty array the loop never
    advances: the call never settles, however long it runs, and no
    download is begun. *)
Theorem X16_zero_concurrency_never_settles files opts w :
  concurrency opts = 0 -> files <> [] ->
  snd (downloadMultipleFiles io (FilesArray files) opts w) = Pending /\
  console (fst (downloadMultipleFiles io (FilesArray files) opts w))
  = console w /\
  (forall turns t, snd (batches io opts files turns 0 t w) = Pending).
Proof.
  intros H0 Hne. destruct files as [|f fs]; [contradiction|].
  rewrite downloadMultipleFiles_loop.
  split; [|split].
  - destruct (batches_zero opts (f :: fs) (length (f :: fs)) 0
                {| tally_successful := 0; tally_failed := 0;
                   tally_results := [] |} w H0 ltac:(cbn; lia)) as (Hp & _).
    destruct (batches io opts (f :: fs) (length (f :: fs)) 0 _ w)
      as [w1 [t|e|]]; cbn in *; congruence.
  - destruct (batches_zero opts (f :: fs) (length (f :: fs)) 0
                {| tally_successful := 0; tally_failed := 0;
                   tally_results := [] |} w H0 ltac:(cbn; lia)) as (Hp & Hc).
    destruct (batches io opts (f :: fs) (length (f :: fs)) 0 _ w)
      as [w1 [t|e|]]; cbn in *; congruence.
  - intros turns t.
    apply (batches_zero opts (f :: fs) turns 0 t w H0). cbn; lia.
Qed.

End BatchExtras.
(** ** The self-tests *)

Section SelfTestFacts.

Variable io : browser.
Variable blobURL : nat -> string.

Lemma includes_truthy sub s :
  truthy sub = true -> includes sub s = true -> truthy s = true.
Proof. destruct sub; [discriminate|]. destruct s; [discriminate|reflexivity]. Qed.

(** The part the two Firebase self-tests share: a call of
    [downloadFile] between two notes, whose rejection is turned into a
    result after a third. *)
Lemma guarded_download url fn before after failed w :
  truthy url = true ->
  let res :=
    try_catch (bind (console_log (LogNote before)) (fun _ =>
               bind (downloadFile io url fn default_options) (fun result =>
               bind (console_log (LogNote after)) (fun _ =>
               ret (of_outcome result)))))
              (fun error => bind (console_log (LogNote failed)) (fun _ =>
                            ret (failure (err_message error)))) w in
  (truthy fn = false ->
   snd res = Resolved (failure "URL and filename are required") /\
   console (fst res) = console w ++ [LogNote before; LogNote failed]) /\
  (truthy fn = true ->
   match snd res with
   | Resolved t =>
       test_success t = true /\ test_error t = None /\
       exists m, test_method t = Some m /\ m <> none
   | Rejected _ => False
   | Pending => ~ (reliable io /\ responsive io)
   end).
Proof.
  intros Hu. cbn zeta. unfold try_catch, bind, console_log, ret. split.
  - intros Hf. rewrite downloadFile_required by (right; exact Hf).
    cbn. rewrite <- app_assoc. now split.
  - intros Hf.
    match goal with
    | |- context [downloadFile io url fn default_options ?W] =>
        pose proof (downloadFile_verdict io url fn default_options W) as Hv;
        destruct (downloadFile_account io url fn default_options W)
          as (_ & _ & Hp);
        cbn zeta in Hp;
        destruct (downloadFile io url fn default_options W) as [w1 [o|e|]]
    end; cbn in *.
    + destruct Hv as (_ & m & -> & Hm). cbn. repeat split. now exists m.
    + destruct Hv as (Hv & _). rewrite Hu, Hf in Hv. discriminate.
    + intros [Hio Hre]. now apply (Hp Hio Hre).
Qed.

(** X17. The two Firebase self-tests never reject. For an address that
    is not on the Firebase Storage host they answer with their own
    failure: [testFirebaseDownload] after a line on the console and
    nothing else, [testFirebaseUrl] without a trace. For an address on
    that host and an empty filename they answer with the failure of the
    guard of [downloadFile], between their opening note and their note
    of failure. For an address on that host and a filename that is not
    empty, or left out, they cannot report a failure: whatever the
    network answers, the result they resolve to says [success: true]
    and names a method; and they resolve where every request is
    answered and no guarded call on a link throws. *)
Theorem X17_firebase_self_tests_never_fail_on_a_firebase_address
        firebaseUrl filename w :
  let on_host :=
    match firebaseUrl with
    | Some u => includes "firebasestorage.googleapis.com" u
    | None => false
    end in
  let t1 := testFirebaseDownload io firebaseUrl filename w in
  let t2 := testFirebaseUrl io firebaseUrl filename w in
  (on_host = false ->
   t1 = (with_console
           (fun c => c ++ [LogNote "Invalid Firebase Storage URL provided"])
           w,
         Resolved (failure "Invalid Firebase Storage URL")) /\
   t2 = (w, Resolved (failure "Invalid Firebase URL"))) /\
  (on_host = true -> filename = Some "" ->
   (snd t1 = Resolved (failure "URL and filename are required") /\
    console (fst t1)
    = console w ++ [LogNote "Testing Firebase Storage download...";
                    LogNote "Firebase download test failed:"]) /\
   (snd t2 = Resolved (failure "URL and filename are required") /\
    console (fst t2)
    = console w ++ [LogNote "Testing Firebase URL download:";
                    LogNote "Firebase URL test failed:"])) /\
  (on_host = true -> filename <> Some "" ->
   match snd t1 with
   | Resolved t =>
       test_success t = true /\ test_error t = None /\
       exists m, test_method t = Some m /\ m <> none
   | Rejected _ => False
   | Pending => ~ (reliable io /\ responsive io)
   end /\
   match snd t2 with
   | Resolved t =>
       test_success t = true /\ test_error t = None /\
       exists m, test_method t = Some m /\ m <> none
   | Rejected _ => False
   | Pending => ~ (reliable io /\ responsive io)
   end).
Proof.
  cbn zeta. unfold testFirebaseDownload, testFirebaseUrl.
  destruct firebaseUrl as [u|].
  2: { split; [intros _; split; reflexivity|]. split; discriminate. }
  destruct (includes "firebasestorage.googleapis.com" u) eqn:Hh.
  - assert (Hu : truthy u = true)
      by (eapply includes_truthy; [|exact Hh]; reflexivity).
    rewrite Hu. cbn [negb orb].
    split; [discriminate|]. split.
    + intros _ ->.
      split; apply (guarded_download u "" _ _ _ w Hu); reflexivity.
    + intros _ Hf.
      split; apply (guarded_download u _ _ _ _ w Hu);
        destruct filename as [[|c f]|]; try reflexivity; congruence.
  - rewrite orb_true_r.
    split; [intros _; split; reflexivity|]. split; discriminate.
Qed.

(** What a self-test sees of its call of [downloadFile] on the object
    URL it made. *)
Lemma download_of_own_blob id name w :
  wf w -> (forall id, truthy (blobURL id) = true) ->
  match snd (downloadFile io (blobURL id) name default_options w) with
  | Resolved o =>
      truthy name = true /\ success o = true /\
      objectURLs (fst (downloadFile io (blobURL id) name default_options w))
      = objectURLs w
  | Rejected _ => truthy name = false
  | Pending => ~ (reliable io /\ responsive io)
  end.
Proof.
  intros Hw Hb.
  pose proof (downloadFile_verdict io (blobURL id) name default_options w)
    as Hv.
  destruct (downloadFile_page io (blobURL id) name default_options w Hw)
    as (Hu & _ & _).
  destruct (downloadFile_account io (blobURL id) name default_options w)
    as (_ & _ & Hp). cbn zeta in Hp.
  destruct (downloadFile io (blobURL id) name default_options w)
    as [w2 [o|e|]]; cbn [fst snd] in *.
  - destruct Hv as (Hn & m & -> & _). rewrite Hb in Hn.
    split; [exact Hn|]. split; [reflexivity|exact Hu].
  - destruct Hv as (Hn & _). now rewrite Hb in Hn.
  - intros [Hio Hre]. now apply (Hp Hio Hre).
Qed.

(** X18. The two self-tests that download a blob of their own revoke
    the object URL they made: when [testSimpleDownload] or
    [testDownload] resolves, the live object URLs are those from before
    the test; and, like the Firebase self-tests, what they resolve to
    says [success: true]. [testSimpleDownload] never rejects;
    [testDownload] rejects only when drawing on its canvas throws, and
    with a canvas that exports no blob it never settles. Both settle
    otherwise, where every request is answered and no guarded call on a
    link throws. *)
Theorem X18_blob_self_tests_revoke_their_object_url testContent export w :
  wf w -> (forall id, truthy (blobURL id) = true) ->
  match snd (testSimpleDownload io blobURL testContent w) with
  | Resolved t =>
      test_success t = true /\
      objectURLs (fst (testSimpleDownload io blobURL testContent w))
      = objectURLs w
  | Rejected _ => False
  | Pending => ~ (reliable io /\ responsive io)
  end /\
  match snd (testDownload io blobURL export w) with
  | Resolved t =>
      test_success t = true /\
      objectURLs (fst (testDownload io blobURL export w)) = objectURLs w
  | Rejected e => export = ExportThrows e
  | Pending => export = ExportNull \/ ~ (reliable io /\ responsive io)
  end.
Proof.
  intros Hw Hb.
  split.
  - unfold testSimpleDownload, try_catch, bind, createObjectURL,
      revokeObjectURL, console_log, ret.
    cbn.
    match goal with
    | |- context [downloadFile io ?u ?n ?o ?W] =>
        pose proof (download_of_own_blob (fresh w) n W) as Hstep;
        destruct (downloadFile io u n o W) as [w2 [o'|e|]]
    end; cbn in *.
    + destruct Hstep as (_ & Hs & Hr); [|exact Hb|].
      { destruct Hw as [Hbody Hurls]. split; cbn.
        - eapply Forall_impl; [|exact Hbody]. cbn; intros; lia.
        - apply Forall_app. split; [|repeat constructor].
          eapply Forall_impl; [|exact Hurls]. cbn; intros; lia. }
      split; [exact Hs|]. rewrite Hr. destruct Hw as [_ Hurls].
      now apply (filter_revoke (fresh w)).
    + exfalso.
      assert (Hn : truthy "test-download.txt" = false);
        [apply Hstep; [|exact Hb]|discriminate].
      destruct Hw as [Hbody Hurls]. split; cbn.
      * eapply Forall_impl; [|exact Hbody]. cbn; intros; lia.
      * apply Forall_app. split; [|repeat constructor].
        eapply Forall_impl; [|exact Hurls]. cbn; intros; lia.
    + apply Hstep; [|exact Hb].
      destruct Hw as [Hbody Hurls]. split; cbn.
      * eapply Forall_impl; [|exact Hbody]. cbn; intros; lia.
      * apply Forall_app. split; [|repeat constructor].
        eapply Forall_impl; [|exact Hurls]. cbn; intros; lia.
  - unfold testDownload, callback, try_catch, bind, createElement,
      createObjectURL, revokeObjectURL, console_log, never, throw, ret.
    cbn.
    destruct export as [e| |b]; cbn; [reflexivity|now left|].
    assert (Hw0 : wf (with_fresh (S (fresh w)) w))
      by (apply (wf_later w); [exact Hw|cbn; lia]).
    match goal with
    | |- context [downloadFile io ?u ?n ?o ?W] =>
        pose proof (download_of_own_blob (S (fresh w)) n W) as Hstep;
        destruct (downloadFile io u n o W) as [w2 [o'|e|]]
    end; cbn in *.
    + destruct Hstep as (_ & Hs & Hr); [|exact Hb|].
      { destruct Hw0 as [Hbody Hurls]. split; cbn in *.
        - eapply Forall_impl; [|exact Hbody]. cbn; intros; lia.
        - apply Forall_app. split; [|repeat constructor; lia].
          eapply Forall_impl; [|exact Hurls]. cbn; intros; lia. }
      split; [exact Hs|]. rewrite Hr. destruct Hw0 as [_ Hurls].
      now apply (filter_revoke (S (fresh w))).
    + exfalso.
      assert (Hn : truthy "download-test.png" = false);
        [apply Hstep; [|exact Hb]|discriminate].
      destruct Hw0 as [Hbody Hurls]. split; cbn in *.
      * eapply Forall_impl; [|exact Hbody]. cbn; intros; lia.
      * apply Forall_app. split; [|repeat constructor; lia].
        eapply Forall_impl; [|exact Hurls]. cbn; intros; lia.
    + right. apply Hstep; [|exact Hb].
      destruct Hw0 as [Hbody Hurls]. split; cbn in *.
      * eapply Forall_impl; [|exact Hbody]. cbn; intros; lia.
      * apply Forall_app. split; [|repeat constructor; lia].
        eapply Forall_impl; [|exact Hurls]. cbn; intros; lia.
Qed.

End SelfTestFacts.
(** ** The progress panel *)

Section ProgressFacts.

Import ProgressUI.

Lemma remove_own l n p :
  Forall (fun q => panel_node q < n) l -> panel_node p = n ->
  filter (fun q => negb (panel_node q =? n)) (l ++ [p]) = l.
Proof.
  intros Hl Hp. rewrite filter_app. cbn. rewrite Hp, Nat.eqb_refl. cbn.
  rewrite app_nil_r. apply forallb_filter_id. apply forallb_forall.
  intros q Hq. rewrite Forall_forall in Hl. specialize (Hl q Hq).
  apply negb_true_iff, Nat.eqb_neq. lia.
Qed.

Lemma remove_twice n pg : remove n (remove n pg) = remove n pg.
Proof.
  unfold remove. cbn. f_equal.
  induction (panels pg) as [|p l IH]; [reflexivity|].
  cbn. destruct (panel_node p =? n) eqn:E; cbn; [exact IH|].
  now rewrite E, IH.
Qed.

(** X19. A controller writes into the first progress panel of the
    document, not into its own: when a panel is made while an older one
    is still in the document, [update] and [complete] of the new
    controller change the older panel, and the new panel keeps its
    initial texts. *)
Theorem X19_a_controller_writes_into_the_oldest_panel
        title pg older rest current total status filename
        successful failed count :
  panels pg = older :: rest ->
  let pg1 := fst (createProgressUI title pg) in
  let ui := snd (createProgressUI title pg) in
  exists own,
    panels pg1 = older :: rest ++ [own] /\
    progress_text own = "Preparing downloads..." /\
    progress_status own = "Starting..." /\
    (exists older',
       panels (ctl_update ui current total status filename pg1)
       = older' :: rest ++ [own] /\
       progress_current older' = show current +++ " / " +++ show total) /\
    (exists older',
       panels (ctl_complete ui successful failed count pg1)
       = older' :: rest ++ [own] /\
       progress_text older' = "Download completed!").
Proof.
  intros Hp. cbn. rewrite Hp. cbn.
  eexists. split; [reflexivity|]. split; [reflexivity|].
  split; [reflexivity|]. split; eexists; split; reflexivity.
Qed.

(** X20. [remove] takes the controller's own panel out of the document
    and nothing else, it may be called again, and it may be followed by
    the timer of [complete]: neither fails or changes anything more;
    once the only panel is gone, [update] and [complete] write
    nothing. *)
Theorem X20_remove_takes_out_the_own_panel_once
        title pg current total status filename successful failed count :
  numbered pg ->
  let pg1 := fst (createProgressUI title pg) in
  let ui := snd (createProgressUI title pg) in
  panels (ctl_remove ui pg1) = panels pg /\
  ctl_remove ui (ctl_remove ui pg1) = ctl_remove ui pg1 /\
  (removals pg = [] ->
   panels (run_removals (ctl_complete ui successful failed count
                           (ctl_remove ui pg1)))
   = panels (ctl_complete ui successful failed count (ctl_remove ui pg1))) /\
  (panels pg = [] ->
   panels (ctl_update ui current total status filename (ctl_remove ui pg1))
   = [] /\
   panels (ctl_complete ui successful failed count (ctl_remove ui pg1))
   = []).
Proof.
  intros Hn. cbn.
  assert (Hown : filter (fun p => negb (panel_node p =? next_node pg))
                   (panels pg ++
                    [{| panel_node := next_node pg;
                        panel_title :=
                          match title with
                          | Some t => t
                          | None => "Downloading Files..."
                          end;
                        progress_text := "Preparing downloads...";
                        progress_bar := None;
                        progress_current := "0 / 0";
                        progress_status := "Starting..." |}])
                 = panels pg)
    by (apply remove_own; [exact Hn|reflexivity]).
  split; [exact Hown|]. split; [apply remove_twice|]. split.
  - intros Hr. unfold run_removals. cbn. rewrite Hr, Hown. cbn.
    destruct (panels pg) as [|p l] eqn:Ep; [reflexivity|]. cbn.
    unfold numbered in Hn. rewrite Ep in Hn.
    inversion Hn as [|? ? Hp Hl]; subst.
    assert (E : (panel_node p =? next_node pg) = false)
      by (apply Nat.eqb_neq; lia).
    rewrite E. cbn. f_equal.
    apply forallb_filter_id, forallb_forall. intros q Hq.
    rewrite Forall_forall in Hl. specialize (Hl q Hq).
    apply negb_true_iff, Nat.eqb_neq. lia.
  - intros Hp. rewrite Hown, Hp. split; reflexivity.
Qed.

End ProgressFacts.
(** ** Instances *)

Lemma X2_witness :
  toLowerCase "image/png" <> "constructor" /\
  toLowerCase "image/png" <> "__proto__" /\
  ensureFileExtension (url_pathname offline)
    (ensureFileExtension (url_pathname online) "hall"
       "https://good.example/img/hall" "image/png")
    "not a url" "video/mp4"
  = ensureFileExtension (url_pathname online) "hall"
      "https://good.example/img/hall" "image/png".
Proof.
  assert (H1 : toLowerCase "image/png" <> "constructor")
    by (vm_compute; discriminate).
  assert (H2 : toLowerCase "image/png" <> "__proto__")
    by (vm_compute; discriminate).
  split; [exact H1|]. split; [exact H2|].
  exact (X2_resolving_twice_is_resolving_once
           (url_pathname online) (url_pathname offline) "hall"
           "https://good.example/img/hall" "image/png" "not a url"
           "video/mp4" H1 H2).
Defined.

Lemma X3_witness :
  toLowerCase "IMAGE/PNG" = toLowerCase "image/png" /\
  ensureFileExtension (url_pathname offline) "hall" "not a url" "IMAGE/PNG"
  = ensureFileExtension (url_pathname offline) "hall" "not a url" "image/png".
Proof.
  assert (H : toLowerCase "IMAGE/PNG" = toLowerCase "image/png")
    by (vm_compute; reflexivity).
  split; [exact H|].
  exact (X3_content_type_case_is_ignored (url_pathname offline) "hall"
           "not a url" "IMAGE/PNG" "image/png" H).
Defined.

Lemma X5_witness :
  In (toLowerCase "JPG") image_extensions /\
  isImage ("https://photos.example/kitchen" +++ "." +++ "JPG") = true /\
  isImage ("https://photos.example/kitchen" +++ "." +++ "JPG" +++ "?"
           +++ "alt=media") = true /\
  isImage ("https://photos.example/kitchen" +++ "image" +++ "alt=media")
  = true.
Proof.
  assert (H : In (toLowerCase "JPG") image_extensions)
    by (vm_compute; left; reflexivity).
  split; [exact H|].
  exact (X5_image_urls_by_extension "https://photos.example/kitchen" "JPG"
           "alt=media" H).
Defined.

Lemma X4_witness :
  truthy "clip" = true /\
  includes "." "clip" && (String.length (extension_of "clip") <=? 4) = false /\
  (if truthy "" then typeMap (toLowerCase "") else None) = None /\
  url_pathname broken_video "https://cdn.example/images/clip.mp4"
  = Some ("/images/clip" +++ "." +++ "mp4") /\
  includes "." "mp4" = false /\ includes "/" "mp4" = false /\
  1 <= String.length "mp4" <= 4 /\
  ensureFileExtension (url_pathname broken_video) "clip"
    "https://cdn.example/images/clip.mp4" "" = "clip" +++ "." +++ "mp4".
Proof.
  assert (H1 : truthy "clip" = true) by reflexivity.
  assert (H2 : includes "." "clip"
               && (String.length (extension_of "clip") <=? 4) = false)
    by (vm_compute; reflexivity).
  assert (H3 : (if truthy "" then typeMap (toLowerCase "") else None) = None)
    by reflexivity.
  assert (H4 : url_pathname broken_video "https://cdn.example/images/clip.mp4"
               = Some ("/images/clip" +++ "." +++ "mp4"))
    by (vm_compute; reflexivity).
  assert (H5 : includes "." "mp4" = false) by (vm_compute; reflexivity).
  assert (H6 : includes "/" "mp4" = false) by (vm_compute; reflexivity).
  assert (H7 : 1 <= String.length "mp4" <= 4) by (cbn; lia).
  do 7 (split; [assumption|]).
  exact (proj1 (X4_unknown_content_type_falls_back_to_the_url
                  (url_pathname broken_video) "clip"
                  "https://cdn.example/images/clip.mp4" "" H1 H2 H3)
               "/images/clip" "mp4" H4 H5 H6 H7).
Defined.

Lemma X9_witness :
  let url := "https://good.example/img/hall" in
  let resp := {| status := 200; statusText := "OK";
                 contentType := Some "image/png";
                 payload := BodyBlob {| blob_data := "PNG";
                                        blob_type := "image/png" |} |} in
  truthy url = true /\ truthy "hall" = true /\
  fetch_answer online (tick empty_world) url = FetchResponds resp /\
  ok resp = true /\
  payload resp
  = BodyBlob {| blob_data := "PNG"; blob_type := "image/png" |} /\
  snd (downloadFile online url "hall" default_options empty_world)
  = Resolved (succeeded direct_fetch) /\
  activations (fst (downloadFile online url "hall" default_options
                      empty_world)) = activations empty_world.
Proof.
  cbn zeta.
  do 5 (split; [reflexivity|]).
  pose proof (X9_direct_fetch_reports_before_the_click online
                "https://good.example/img/hall" "hall" default_options
                empty_world _ _ eq_refl eq_refl eq_refl eq_refl eq_refl) as H.
  cbn zeta in H. destruct H as (H1 & H2 & _). split; [exact H1|exact H2].
Defined.

Lemma X10_witness :
  let url := "https://good.example/img/hall" in
  let resp := {| status := 200; statusText := "OK";
                 contentType := Some "image/png";
                 payload := BodyBlob {| blob_data := "PNG";
                                        blob_type := "image/png" |} |} in
  let b := {| blob_data := "PNG"; blob_type := "image/png" |} in
  truthy url = true /\ truthy "hall" = true /\
  fetch_answer online (tick empty_world) url = FetchResponds resp /\
  ok resp = true /\ payload resp = BodyBlob b /\
  timers empty_world = [] /\
  reader_fails online (S (tick empty_world)) = false /\
  dom_throws online (S (S (tick empty_world))) Click = None /\
  exists link,
    activations (run_timers online
                   (fst (downloadFile online url "hall" default_options
                           empty_world)))
    = activations empty_world ++ [link] /\
    tagName link = ANCHOR /\ download link = "hall" /\ href link = DataURL b.
Proof.
  cbn zeta.
  do 8 (split; [reflexivity|]).
  pose proof (X10_direct_fetch_saves_under_the_given_name online
                "https://good.example/img/hall" "hall" default_options
                empty_world _ _ eq_refl eq_refl eq_refl eq_refl eq_refl
                eq_refl) as H.
  cbn zeta in H. destruct H as (_ & _ & _ & H).
  exact (H eq_refl eq_refl).
Defined.

Lemma X8_witness :
  let url := "https://cdn.example/images/clip.mp4" in
  parseURL broken_video url
  = Some {| url_base := url; pathname := "/images/clip.mp4";
            searchParams := []; url_hash := "" |} /\
  windows (fst (downloadFile broken_video url "clip" default_options
                  empty_world)) = windows empty_world.
Proof.
  cbn zeta. split; [reflexivity|].
  pose proof (X8_parsable_address_never_reaches_new_tab broken_video
                "https://cdn.example/images/clip.mp4" "clip" default_options
                _ empty_world eq_refl) as H.
  cbn zeta in H. destruct H as (H & _). exact H.
Defined.

Lemma X11_witness :
  timers empty_world = [] /\
  at_most_one_saved "kitchen" empty_world
    (run_timers cors_blocked
       (fst (downloadFile cors_blocked "https://photos.example/kitchen.jpg"
               "kitchen" default_options empty_world))).
Proof.
  split; [reflexivity|].
  exact (X11_one_call_saves_at_most_one_file cors_blocked
           "https://photos.example/kitchen.jpg" "kitchen" default_options
           empty_world eq_refl).
Defined.

Lemma X12_witness :
  wf empty_world /\
  objectURLs (fst (downloadFile cors_blocked
                     "https://photos.example/kitchen.jpg" "kitchen"
                     default_options empty_world))
  = objectURLs empty_world.
Proof.
  split; [exact wf_empty|].
  exact (proj1 (X12_object_urls_are_always_revoked cors_blocked
                  "https://photos.example/kitchen.jpg" "kitchen"
                  default_options empty_world wf_empty)).
Defined.

Lemma X14_witness :
  courteous default_options /\
  exists w' r,
    downloadMultipleFiles cors_blocked (FilesArray (map Some three_items))
      default_options empty_world = (w', Resolved r) /\
    (concurrency default_options = 1 ->
     map entry_index (results r) = seq 0 (length three_items) /\
     map item_of (results r) = three_items).
Proof.
  assert (Hc : courteous default_options)
    by apply courteous_without_callbacks.
  assert (H : exists w' r,
             downloadMultipleFiles cors_blocked
               (FilesArray (map Some three_items))
               default_options empty_world = (w', Resolved r))
    by (do 2 eexists; vm_compute; reflexivity).
  split; [exact Hc|].
  destruct H as (w' & r & H). exists w', r. split; [exact H|].
  exact (proj2 (X14_results_keep_the_order_of_the_batches cors_blocked
                  three_items default_options empty_world w' r Hc H)).
Defined.

Lemma X15_witness :
  courteous {| timeout := 30000%N; concurrency := 2;
               onProgress := None; onFileComplete := None |} /\
  exists w' r,
    downloadMultipleFiles cors_blocked (FilesArray (map Some three_items))
      {| timeout := 30000%N; concurrency := 2;
         onProgress := None; onFileComplete := None |} empty_world
    = (w', Resolved r) /\
    Forall honest (results r) /\
    successful r = length (filter well_formed_item three_items) /\
    failed r
    = length (filter (fun f => negb (well_formed_item f)) three_items).
Proof.
  assert (Hc : courteous {| timeout := 30000%N; concurrency := 2;
                            onProgress := None; onFileComplete := None |})
    by apply courteous_without_callbacks.
  assert (H : exists w' r,
             downloadMultipleFiles cors_blocked
               (FilesArray (map Some three_items))
               {| timeout := 30000%N; concurrency := 2;
                  onProgress := None; onFileComplete := None |} empty_world
             = (w', Resolved r))
    by (do 2 eexists; vm_compute; reflexivity).
  split; [exact Hc|].
  destruct H as (w' & r & H). exists w', r. split; [exact H|].
  exact (X15_a_batch_item_fails_only_for_want_of_url_or_filename cors_blocked
           three_items _ empty_world w' r Hc H).
Defined.

Lemma X16_witness :
  concurrency {| timeout := 30000%N; concurrency := 0;
                 onProgress := None; onFileComplete := None |} = 0 /\
  three_files <> [] /\
  snd (downloadMultipleFiles online (FilesArray three_files)
         {| timeout := 30000%N; concurrency := 0;
            onProgress := None; onFileComplete := None |} empty_world)
  = Pending.
Proof.
  assert (H : three_files <> []) by discriminate.
  split; [reflexivity|]. split; [exact H|].
  exact (proj1 (X16_zero_concurrency_never_settles online three_files
                  {| timeout := 30000%N; concurrency := 0;
                     onProgress := None; onFileComplete := None |}
                  empty_world eq_refl H)).
Defined.

Lemma online_responsive : responsive online.
Proof.
  repeat split; intros; cbn in *; try discriminate.
  match goal with
  | H : FetchResponds _ = FetchResponds _ |- _ => injection H as <-
  end.
  discriminate.
Qed.

Lemma X18_witness :
  let blobURL := fun id => "blob:https://app.example/" +++ show id in
  wf empty_world /\
  (forall id : nat, truthy (blobURL id) = true) /\
  (exists t,
     snd (testSimpleDownload online blobURL "This is a test download file."
            empty_world) = Resolved t /\
     test_success t = true /\
     objectURLs (fst (testSimpleDownload online blobURL
                        "This is a test download file." empty_world))
     = objectURLs empty_world) /\
  (exists t,
     snd (testDownload online blobURL (ExportBlob jpeg_blob) empty_world)
     = Resolved t /\
     test_success t = true /\
     objectURLs (fst (testDownload online blobURL (ExportBlob jpeg_blob)
                        empty_world))
     = objectURLs empty_world).
Proof.
  intros blobURL.
  assert (Hb : forall id : nat, truthy (blobURL id) = true)
    by (intros id; reflexivity).
  assert (Hio : reliable online /\ responsive online)
    by (split; [intros n op; reflexivity|exact online_responsive]).
  split; [exact wf_empty|]. split; [exact Hb|].
  destruct (X18_blob_self_tests_revoke_their_object_url online blobURL
              "This is a test download file." (ExportBlob jpeg_blob)
              empty_world wf_empty Hb) as [H1 H2].
  split.
  - destruct (snd (testSimpleDownload online blobURL
                     "This is a test download file." empty_world))
      as [t|e|].
    + exists t. split; [reflexivity|exact H1].
    + contradiction.
    + exfalso. exact (H1 Hio).
  - destruct (snd (testDownload online blobURL (ExportBlob jpeg_blob)
                     empty_world)) as [t|e|].
    + exists t. split; [reflexivity|exact H2].
    + discriminate H2.
    + exfalso. destruct H2 as [H2|H2]; [discriminate H2|exact (H2 Hio)].
Defined.

Lemma X19_witness :
  let first := {| ProgressUI.panel_node := 0;
                  ProgressUI.panel_title := "Downloading Files...";
                  ProgressUI.progress_text := "Preparing downloads...";
                  ProgressUI.progress_bar := None;
                  ProgressUI.progress_current := "0 / 0";
                  ProgressUI.progress_status := "Starting..." |} in
  let pg := fst (ProgressUI.createProgressUI None ProgressUI.empty_page) in
  ProgressUI.panels pg = first :: [] /\
  exists own older',
    ProgressUI.panels
      (ProgressUI.ctl_update
         (snd (ProgressUI.createProgressUI (Some "Second batch") pg))
         1 4 "downloading" "hall.png"
         (fst (ProgressUI.createProgressUI (Some "Second batch") pg)))
    = older' :: [] ++ [own] /\
    ProgressUI.progress_text own = "Preparing downloads...".
Proof.
  cbn zeta. split; [reflexivity|].
  destruct (X19_a_controller_writes_into_the_oldest_panel
              (Some "Second batch")
              (fst (ProgressUI.createProgressUI None ProgressUI.empty_page))
              _ [] 1 4 "downloading" "hall.png" 0 0 0 eq_refl)
    as (own & _ & Ht & _ & (older' & Hu & _) & _).
  exists own, older'. split; [exact Hu|exact Ht].
Defined.

Lemma X20_witness :
  ProgressUI.numbered ProgressUI.empty_page /\
  ProgressUI.panels
    (ProgressUI.ctl_remove
       (snd (ProgressUI.createProgressUI None ProgressUI.empty_page))
       (fst (ProgressUI.createProgressUI None ProgressUI.empty_page)))
  = ProgressUI.panels ProgressUI.empty_page.
Proof.
  assert (H : ProgressUI.numbered ProgressUI.empty_page) by constructor.
  split; [exact H|].
  exact (proj1 (X20_remove_takes_out_the_own_panel_once None
                  ProgressUI.empty_page 0 0 "" "" 0 0 0 H)).
Defined.

Lemma X17_witness :
  let url := "https://firebasestorage.googleapis.com/v0/b/app/o/hall.png" in
  includes "firebasestorage.googleapis.com" url = true /\
  (None : option string) <> Some "" /\
  exists t,
    snd (testFirebaseDownload offline (Some url) None empty_world)
    = Resolved t /\
    test_success t = true /\ test_error t = None /\
    exists m, test_method t = Some m /\ m <> none.
Proof.
  cbn zeta.
  assert (H1 : includes "firebasestorage.googleapis.com"
                 "https://firebasestorage.googleapis.com/v0/b/app/o/hall.png"
               = true) by (vm_compute; reflexivity).
  assert (H2 : (None : option string) <> Some "") by discriminate.
  split; [exact H1|]. split; [exact H2|].
  exists (of_outcome (succeeded iframe)).
  split; [vm_compute; reflexivity|].
  pose proof (proj1 (proj2 (proj2
           (X17_firebase_self_tests_never_fail_on_a_firebase_address offline
              (Some "https://firebasestorage.googleapis.com/v0/b/app/o/hall.png")
              None empty_world)) H1 H2)) as H.
  exact H.
Defined.
